(** * muver: orchestration of variant calling

    A shallow embedding of [muver/call_variants.py] and [muver/pipeline.py].

    Both files are orchestration code: they call collaborators that live in
    other modules of the package ([reference], [sample], [variant_list],
    [wrappers], ...) in a fixed order and thread a few values between them.
    The collaborators are not part of the files under study, so they are taken
    as a parameter: a handler [ext] that answers every collaborator call on an
    abstract world.  What a run does is observed as the trace of collaborator
    calls it makes, with their arguments and answers. *)

From Stdlib Require Import Ascii String ZArith.
From stdpp Require Import base strings pretty list gmap.

Open Scope string_scope.
Open Scope list_scope.

(** ** The Python layer *)

Module Py.

(** Exceptions that can reach the top level.  [Failure] stands for whatever
    a collaborator raises from inside. *)
Inductive exn :=
| SystemExit
| NameError (name : string)
| KeyError (key : string)
| IndexError
| ValueError
| Failure (what : string).

Inductive result (A : Type) :=
| Ok (a : A)
| Err (e : exn).
Arguments Ok {A} a.
Arguments Err {A} e.

Definition is_ok {A} (r : result A) : bool :=
  match r with Ok _ => true | Err _ => false end.

Definition raised {A} (r : result A) : option exn :=
  match r with Ok _ => None | Err e => Some e end.

Definition dquote : string := String (Ascii.ascii_of_nat 34) "".
Definition newline : string := String (Ascii.ascii_of_nat 10) "".

(** [s.rfind(c)]: index of the last occurrence, [-1] when there is none. *)
Fixpoint rfind_from (c : ascii) (s : string) (i acc : Z) : Z :=
  match s with
  | EmptyString => acc
  | String a s' => rfind_from c s' (i + 1) (if Ascii.eqb a c then i else acc)
  end.

Definition rfind (c : ascii) (s : string) : Z := rfind_from c s 0 (-1).

(** [p[lo:hi]] for [0 <= lo]. *)
Definition slice (p : string) (lo hi : Z) : string :=
  String.substring (Z.to_nat lo) (Z.to_nat (hi - lo)) p.

Fixpoint any_not (c : ascii) (s : string) : bool :=
  match s with
  | EmptyString => false
  | String a s' => negb (Ascii.eqb a c) || any_not c s'
  end.

(** [os.path.splitext] of [posixpath]: the extension starts at the last dot
    of the last path component, leading dots of that component excepted. *)
Definition splitext (p : string) : string * string :=
  let sepIndex := rfind "/"%char p in
  let dotIndex := rfind "."%char p in
  if (sepIndex <? dotIndex)%Z && any_not "."%char (slice p (sepIndex + 1) dotIndex)
  then (slice p 0 dotIndex, slice p dotIndex (Z.of_nat (String.length p)))
  else (p, "").

Definition startswith (pre s : string) : bool := String.prefix pre s.

Definition endswith (s suf : string) : bool :=
  let n := String.length s in
  let m := String.length suf in
  (m <=? n)%nat && String.eqb (String.substring (n - m)%nat m s) suf.

(** [os.path.join(a, *p)] of [posixpath]. *)
Definition join_step (path b : string) : string :=
  if startswith "/" b then b
  else if String.eqb path "" || endswith path "/" then path +:+ b
  else path +:+ "/" +:+ b.

Definition join (a : string) (p : list string) : string :=
  foldl join_step a p.

(** ['{}<suffix>'.format(x)] for a string [x]. *)
Definition format1 (suffix x : string) : string := x +:+ suffix.

(** Truth value of an optional string argument: [None] and [''] are false. *)
Definition truthy (x : option string) : bool :=
  match x with
  | None => false
  | Some s => negb (String.eqb s "")
  end.

End Py.
Export Py.

Arguments join : simpl never.
Arguments format1 : simpl never.
Arguments splitext : simpl never.

Example splitext_fa : splitext "genome/ref.fa" = ("genome/ref", ".fa").
Proof. reflexivity. Qed.

Example splitext_dotted_dir : splitext "genome.d/ref" = ("genome.d/ref", "").
Proof. reflexivity. Qed.

Example splitext_hidden : splitext "dir/.hidden" = ("dir/.hidden", "").
Proof. reflexivity. Qed.

Example join_exp : join "exp" ["output"; "mutations.txt"] = "exp/output/mutations.txt".
Proof. reflexivity. Qed.

Example join_exp_slash : join "exp/" ["sample_info.txt"] = "exp/sample_info.txt".
Proof. reflexivity. Qed.

(** ** Values exchanged with the collaborators *)

(** The types the orchestration code only passes along.  [World] is whatever
    the collaborators read and write: the file system, the standard error
    stream, the external tools. *)
Record Domain := {
  World : Type;
  Float : Type;        (* a Python float *)
  ChromSizes : Type;   (* what [reference.read_chrom_sizes] returns *)
  Repeats : Type;      (* what [utils.read_repeats] returns *)
  Fits : Type;         (* what [repeat_indels.read_fits] returns *)
  Variants : Type;     (* a [VariantList] instance *)
}.

(** An entry of [sample._sams]: a temporary file, of which only [.name] is read. *)
Record TempFile := { name : string }.

(** A value of the dict returned by [Sample.get_intermediate_file_names]:
    one file name, or a list of file names (one per FASTQ group). *)
Inductive ifile :=
| Path (s : string)
| Paths (l : list string).

Section Collaborators.

Context {D : Domain}.

(** The attributes of a [sample.Sample] object that the two files read or
    assign.  [strand_bias_std] and [repeat_indel_fits_dict] are assigned by
    [run_pipeline]. *)
Record Sample := {
  sample_name : string;
  fastqs : list (list string);
  _sams : list TempFile;
  merged_bam : string;
  repeat_indel_header : string;
  repeat_indel_fits : string;
  strand_bias_std : option (Float D);
  repeat_indel_fits_dict : option (Fits D);
}.

Definition set_strand_bias_std (v : Float D) (s : Sample) : Sample :=
  {| sample_name := sample_name s; fastqs := fastqs s; _sams := _sams s;
     merged_bam := merged_bam s; repeat_indel_header := repeat_indel_header s;
     repeat_indel_fits := repeat_indel_fits s;
     strand_bias_std := Some v;
     repeat_indel_fits_dict := repeat_indel_fits_dict s |}.

Definition set_repeat_indel_fits_dict (v : Fits D) (s : Sample) : Sample :=
  {| sample_name := sample_name s; fastqs := fastqs s; _sams := _sams s;
     merged_bam := merged_bam s; repeat_indel_header := repeat_indel_header s;
     repeat_indel_fits := repeat_indel_fits s;
     strand_bias_std := strand_bias_std s;
     repeat_indel_fits_dict := Some v |}.

(** A reference to a sample object: its position in the list [samples].
    [control_sample] is an alias of one element of that list, not a copy. *)
Definition sample_ref := nat.

(** Every call that leaves the two files, with its arguments.  A method call
    on a sample carries the state of the object it is called on. *)
Inductive call :=
(* reference *)
| check_reference_indices (reference_assembly : string)
| create_reference_indices (reference_assembly : string)
| read_chrom_sizes_from_file (chrom_sizes : string)
| read_chrom_sizes (reference_assembly : string)
(* os.path, sys.stderr *)
| path_exists (path : string)
| stderr_write (text : string)
(* repeats, utils, repeat_indels *)
| create_repeat_file (reference_assembly repeat_file : string)
| read_repeats (repeat_file : string)
| read_fits (repeat_indel_fits : string)
| fit_repeat_indel_rates (repeats : Repeats D) (merged_bam repeat_indel_fits : ifile)
    (repeat_indel_header : string)
(* sample *)
| read_samples_from_text (sample_list : string) (exp_dir : option string)
| generate_experiment_directory (experiment_directory : string)
| generate_intermediate_files (self : Sample)
| get_intermediate_file_names (self : Sample)
| clear_temp_file_indices (self : Sample)
| write_sample_info_file (samples : list Sample) (sample_info_file : string)
(* variant_list *)
| VariantList (input_vcf : string) (samples : list Sample)
    (excluded_regions : option string) (repeat_file : string)
    (control_sample : option sample_ref) (chrom_sizes : ChromSizes D)
| write_output_table (self : Variants D) (text_output : string)
| write_output_vcf (self : Variants D) (vcf_output : string)
(* wrappers, read_processing *)
| bowtie2_align (fastq_1 reference_assembly sam : string) (fastq_2 : option string) (p : Z)
| remove_diff_chr_pairs (in_sam out_sam : ifile)
| mapq_filter (in_sam out_sam : ifile)
| add_read_groups (in_sam out_bam : ifile) (sample_name : string)
| deduplicate (in_bam out_bam metrics : ifile)
| realigner_target_creator (reference_assembly : string) (in_bam intervals : ifile)
| indel_realigner (reference_assembly : string) (log in_bam intervals out_bam : ifile)
| fix_mate_information (in_bam out_bam : ifile)
| merge_bams (in_bams out_bam : ifile)
| run_haplotype_caller (bams : list string) (reference_assembly vcf log : string) (nct : Z)
| run_mpileup (bam : ifile) (reference_assembly : string) (mpileup_out : ifile)
| get_mpileup_depths (bam : ifile) (reference_assembly : string) (bedgraph : ifile)
(* bias_distribution, depth_distribution *)
| calculate_bias_distribution_mpileup (mpileup_out : ifile) (reference_assembly : string)
    (output : ifile)
| calculate_depth_distribution_mpileup (mpileup_out output : ifile)
| filter_regions_by_depth_mpileup (mpileup_out : ifile) (chrom_sizes : ChromSizes D)
    (mu sigma : Float D) (filtered_sites : ifile).

(** What a call answers when it does not raise. *)
Definition ret (c : call) : Type :=
  match c with
  | check_reference_indices _ => bool
  | path_exists _ => bool
  | read_chrom_sizes_from_file _ => ChromSizes D
  | read_chrom_sizes _ => ChromSizes D
  | read_repeats _ => Repeats D
  | read_fits _ => Fits D
  | read_samples_from_text _ _ => list Sample
  | generate_intermediate_files _ => Sample
  | clear_temp_file_indices _ => Sample
  | get_intermediate_file_names _ => gmap string ifile
  | VariantList _ _ _ _ _ _ => Variants D
  | calculate_bias_distribution_mpileup _ _ _ => (Float D * Float D)%type
  | calculate_depth_distribution_mpileup _ _ => (Float D * Float D)%type
  | _ => unit
  end.

(** One entry of a trace: a collaborator call with its answer, or the
    return of [pool.map] to the main process, with the results of all tasks
    ([None]) or re-raising the exception of a task ([Some e]). *)
Inductive event :=
| Ev (c : call) (r : result (ret c))
| Mapped (raised : option exn).

Definition ev_call (e : event) : option call :=
  match e with
  | Ev c _ => Some c
  | Mapped _ => None
  end.

Definition calls (tr : list event) : list call := omap ev_call tr.

(** *** Straight-line code: a tree of calls

    The body of a function that only makes collaborator calls, as the tree
    of the calls it makes and what it does with each answer.  A worker task
    is kept in this form so that a pool can run several of them step by
    step. *)
Inductive prog (A : Type) : Type :=
| Ret (a : A)
| Raise (e : exn)
| Call (c : call) (k : ret c → prog A).
Arguments Ret {A} a.
Arguments Raise {A} e.
Arguments Call {A} c k.

Fixpoint prog_bind {A B} (f : A → prog B) (m : prog A) : prog B :=
  match m with
  | Ret a => f a
  | Raise e => Raise e
  | Call c k => Call c (λ x, prog_bind f (k x))
  end.

#[export] Instance prog_ret : MRet prog := @Ret.
#[export] Instance prog_mbind : MBind prog := @prog_bind.

Definition callp (c : call) : prog (ret c) := Call c Ret.

(** [d[key]] on a dict with string keys. *)
Definition dict_get (d : gmap string ifile) (key : string) : prog ifile :=
  match d !! key with
  | Some v => Ret v
  | None => Raise (KeyError key)
  end.

(** [len(v)] and [v[i]] on a list of names or on a name. *)
Definition py_len (v : ifile) : nat :=
  match v with
  | Path s => String.length s
  | Paths l => length l
  end.

Definition seq_get (v : ifile) (i : nat) : prog ifile :=
  match v with
  | Path s =>
      match String.get i s with
      | Some c => Ret (Path (String c ""))
      | None => Raise IndexError
      end
  | Paths l =>
      match l !! i with
      | Some x => Ret (Path x)
      | None => Raise IndexError
      end
  end.

Definition list_get {A} (l : list A) (i : nat) : prog A :=
  match l !! i with
  | Some x => Ret x
  | None => Raise IndexError
  end.

(** [for x in l: body(x)] *)
Fixpoint for_ {A} (l : list A) (body : A → prog unit) : prog unit :=
  match l with
  | [] => Ret tt
  | x :: l' => _ ← body x; for_ l' body
  end.

(** [enumerate(l)] *)
Definition enumerate {A} (l : list A) : list (nat * A) := imap pair l.

(** *** The handler and the main process *)

Variable ext : ∀ c : call, World D → result (ret c) * World D.

(** [picks] are the decisions the scheduler of the worker pool still has to
    take (see [pool_run]). *)
Record state := State {
  world : World D;
  trace : list event;
  picks : list nat;
}.

Definition perform (c : call) (s : state) : result (ret c) * state :=
  let (r, w) := ext c (world s) in
  (r, {| world := w; trace := trace s ++ [Ev c r]; picks := picks s |}).

(** Code of the main process: it can fail, and it changes the world. *)
Definition M (A : Type) : Type := state → result A * state.

Definition M_ret {A} (a : A) : M A := λ s, (Ok a, s).

Definition M_bind {A B} (f : A → M B) (m : M A) : M B :=
  λ s, match m s with
       | (Ok a, s') => f a s'
       | (Err e, s') => (Err e, s')
       end.

#[export] Instance M_mret : MRet M := @M_ret.
#[export] Instance M_mbind : MBind M := @M_bind.

Definition raise {A} (e : exn) : M A := λ s, (Err e, s).

(** Run straight-line code to its end, call after call. *)
Fixpoint exec {A} (p : prog A) : M A :=
  match p with
  | Ret a => M_ret a
  | Raise e => raise e
  | Call c k => λ s,
      match perform c s with
      | (Ok x, s') => exec (k x) s'
      | (Err e, s') => (Err e, s')
      end
  end.

Definition call_ (c : call) : M (ret c) := exec (callp c).

(** *** The worker pool

    [Pool(p)] and [pool.map(f, args)] of [multiprocessing].  [pool.map]
    blocks the main process until every task has returned and hands back the
    results in the order of [args]; when a task raises, [pool.map] raises
    that exception in the main process.  The tasks run in other processes,
    so between two calls of one task any number of calls of the other tasks
    may happen: the scheduler decides, one pick at a time, which task makes
    its next call.  When the scheduler has no decision left, the unfinished
    tasks run one after the other, which is also what a pool of one worker
    does. *)

Definition Pool (p : Z) : M unit :=
  if (p <? 1)%Z then raise ValueError else M_ret tt.

Fixpoint failed {B} (tasks : list (prog B)) : option exn :=
  match tasks with
  | [] => None
  | Raise e :: _ => Some e
  | _ :: rest => failed rest
  end.

Fixpoint finished {B} (tasks : list (prog B)) : option (list B) :=
  match tasks with
  | [] => Some []
  | Ret b :: rest => (b ::.) <$> finished rest
  | _ :: _ => None
  end.

(** The next call of one task. *)
Definition task_step {B} (t : prog B) (s : state) : prog B * state :=
  match t with
  | Call c k =>
      match perform c s with
      | (Ok x, s') => (k x, s')
      | (Err e, s') => (Raise e, s')
      end
  | _ => (t, s)
  end.

Definition joined {B} (ps : list nat) (r : result (list B)) (s : state)
  : result (list B) * state :=
  (r, {| world := world s;
         trace := trace s ++ [Mapped (raised r)];
         picks := ps |}).

(** The unfinished tasks, one after the other. *)
Fixpoint drain {B} (tasks : list (prog B)) : M (list B) :=
  match tasks with
  | [] => M_ret []
  | t :: rest => b ← exec t; bs ← drain rest; M_ret (b :: bs)
  end.

Fixpoint pool_run {B} (ps : list nat) (tasks : list (prog B)) (s : state)
  : result (list B) * state :=
  match failed tasks with
  | Some e => joined ps (Err e) s
  | None =>
      match finished tasks with
      | Some results => joined ps (Ok results) s
      | None =>
          match ps with
          | [] => let (r, s') := drain tasks s in joined [] r s'
          | i :: ps' =>
              match tasks !! i with
              | Some t =>
                  let (t', s') := task_step t s in
                  pool_run ps' (<[i := t']> tasks) s'
              | None => pool_run ps' tasks s
              end
          end
      end
  end.

Definition pool_map {A B} (f : A → prog B) (args : list A) : M (list B) :=
  λ s, pool_run (picks s) (f <$> args) s.

(** ** muver/pipeline.py *)

(** [intermediate_files[key][i]] *)
Definition item (d : gmap string ifile) (key : string) (i : nat) : prog ifile :=
  v ← dict_get d key; seq_get v i.

Definition process_sams (args : string * gmap string ifile * string) : prog unit :=
  let '(sample_name, intermediate_files, reference_assembly) := args in
  sams ← dict_get intermediate_files "_sams";
  _ ← for_ (seq 0 (py_len sams)) (λ i,
    a ← item intermediate_files "_sams" i;
    b ← item intermediate_files "_same_chr_sams" i;
    _ ← callp (remove_diff_chr_pairs a b);
    a ← item intermediate_files "_same_chr_sams" i;
    b ← item intermediate_files "_mapq_filtered_sams" i;
    _ ← callp (mapq_filter a b);
    a ← item intermediate_files "_mapq_filtered_sams" i;
    b ← item intermediate_files "_read_group_bams" i;
    _ ← callp (add_read_groups a b sample_name);
    a ← item intermediate_files "_read_group_bams" i;
    b ← item intermediate_files "_deduplicated_bams" i;
    c ← item intermediate_files "_deduplication_metrics" i;
    _ ← callp (deduplicate a b c);
    a ← item intermediate_files "_deduplicated_bams" i;
    b ← item intermediate_files "_interval_files" i;
    _ ← callp (realigner_target_creator reference_assembly a b);
    l ← item intermediate_files "realignment_logs" i;
    a ← item intermediate_files "_deduplicated_bams" i;
    b ← item intermediate_files "_interval_files" i;
    c ← item intermediate_files "_realigned_bams" i;
    _ ← callp (indel_realigner reference_assembly l a b c);
    a ← item intermediate_files "_realigned_bams" i;
    b ← item intermediate_files "_fixed_mates_bams" i;
    callp (fix_mate_information a b));
  a ← dict_get intermediate_files "_fixed_mates_bams";
  b ← dict_get intermediate_files "merged_bam";
  callp (merge_bams a b).

Definition characterize_repeat_indel_rates
    (args : gmap string ifile * Repeats D * string) : prog unit :=
  let '(intermediate_files, repeats, repeat_indel_header) := args in
  a ← dict_get intermediate_files "merged_bam";
  b ← dict_get intermediate_files "repeat_indel_fits";
  callp (fit_repeat_indel_rates repeats a b repeat_indel_header).

Definition analyze_depth_distribution
    (args : nat * gmap string ifile * string * ChromSizes D) : prog (nat * Float D) :=
  let '(index, intermediate_files, reference_assembly, chrom_sizes) := args in
  a ← dict_get intermediate_files "merged_bam";
  b ← dict_get intermediate_files "_mpileup_out";
  _ ← callp (run_mpileup a reference_assembly b);
  a ← dict_get intermediate_files "_mpileup_out";
  b ← dict_get intermediate_files "strand_bias_distribution";
  '(_, strand_bias_std) ← callp (calculate_bias_distribution_mpileup a reference_assembly b);
  a ← dict_get intermediate_files "merged_bam";
  b ← dict_get intermediate_files "depth_bedgraph";
  _ ← callp (get_mpileup_depths a reference_assembly b);
  a ← dict_get intermediate_files "_mpileup_out";
  b ← dict_get intermediate_files "depth_distribution";
  '(mu, sigma) ← callp (calculate_depth_distribution_mpileup a b);
  a ← dict_get intermediate_files "_mpileup_out";
  b ← dict_get intermediate_files "filtered_sites";
  _ ← callp (filter_regions_by_depth_mpileup a chrom_sizes mu sigma b);
  Ret (index, strand_bias_std).

Definition not_indexed_message : string :=
  "Reference assembly not indexed. Run " +:+ dquote +:+ "muver index_reference"
    +:+ dquote +:+ "." +:+ newline.

(** [next((x for x in samples if x.sample_name == control_sample), None)]:
    the first sample of that name, [None] when there is none. *)
Definition find_control (samples : list Sample) (control_sample : string)
  : option sample_ref :=
  fst <$> list_find (λ x, sample_name x = control_sample) samples.

(** The body of the loop under [# Align], for one FASTQ group. *)
Definition align_group (reference_assembly : string) (p : Z) (sample : Sample)
    (i : nat) (fastqs : list string) : prog unit :=
  '(f1, f2) ← match fastqs with
              | [f1; f2] => Ret (f1, Some f2)              (* len(fastqs) == 2 *)
              | _ => f1 ← list_get fastqs 0; Ret (f1, None)
              end;
  sam ← list_get (_sams sample) i;
  callp (bowtie2_align f1 reference_assembly (name sam) f2 p).

Definition align_all (reference_assembly : string) (p : Z) (samples : list Sample)
  : prog unit :=
  for_ samples (λ sample,
    for_ (enumerate (fastqs sample)) (λ '(i, fastqs),
      align_group reference_assembly p sample i fastqs)).

(** [for index, strand_bias_std in values: samples[index].strand_bias_std = ...] *)
Fixpoint assign_strand_bias_std (values : list (nat * Float D)) (samples : list Sample)
  : prog (list Sample) :=
  match values with
  | [] => Ret samples
  | (index, strand_bias_std) :: rest =>
      sample ← list_get samples index;
      assign_strand_bias_std rest
        (<[index := set_strand_bias_std strand_bias_std sample]> samples)
  end.

Definition intermediate_file_names (samples : list Sample)
  : prog (list (gmap string ifile)) :=
  mapM (λ s, callp (get_intermediate_file_names s)) samples.

Definition run_pipeline (reference_assembly fastq_list control_sample
    experiment_directory : string) (p : Z) (excluded_regions : option string)
  : M unit :=
  indexed ← call_ (check_reference_indices reference_assembly);
  _ ← (if negb indexed
       then _ ← call_ (stderr_write not_indexed_message); raise SystemExit
       else mret tt);

  _ ← Pool p;

  _ ← call_ (generate_experiment_directory experiment_directory);
  samples ← call_ (read_samples_from_text fastq_list (Some experiment_directory));
  let control_sample := find_control samples control_sample in

  samples ← exec (mapM (λ sample, callp (generate_intermediate_files sample)) samples);

  (* Align *)
  _ ← exec (align_all reference_assembly p samples);

  (* Process output SAM files *)
  names ← exec (intermediate_file_names samples);
  _ ← pool_map process_sams
        ((λ '(n, d), (n, d, reference_assembly)) <$> zip (sample_name <$> samples) names);

  (* Run HaplotypeCaller *)
  let haplotype_caller_vcf :=
    join experiment_directory ["gatk_output"; "haplotype_caller_output.vcf"] in
  let haplotype_caller_log :=
    join experiment_directory ["logs"; "haplotype_caller.log"] in
  let bams := merged_bam <$> samples in
  _ ← call_ (run_haplotype_caller bams reference_assembly haplotype_caller_vcf
               haplotype_caller_log p);

  chrom_sizes ← call_ (read_chrom_sizes reference_assembly);

  names ← exec (intermediate_file_names samples);
  strand_bias_std_values ← pool_map analyze_depth_distribution
        ((λ '(i, d), (i, d, reference_assembly, chrom_sizes))
           <$> zip (seq 0 (length samples)) names);
  samples ← exec (assign_strand_bias_std strand_bias_std_values samples);

  (* Characterize repeats *)
  let repeat_file := format1 ".repeats" (splitext reference_assembly).1 in
  repeats ← call_ (read_repeats repeat_file);

  names ← exec (intermediate_file_names samples);
  _ ← pool_map characterize_repeat_indel_rates
        ((λ '(d, h), (d, repeats, h)) <$> zip names (repeat_indel_header <$> samples));
  samples ← exec (mapM (λ sample,
               fits ← callp (read_fits (repeat_indel_fits sample));
               Ret (set_repeat_indel_fits_dict fits sample)) samples);

  variants ← call_ (VariantList haplotype_caller_vcf samples excluded_regions
                      repeat_file control_sample chrom_sizes);

  let text_output := join experiment_directory ["output"; "mutations.txt"] in
  let vcf_output := join experiment_directory ["output"; "mutations.vcf"] in
  _ ← call_ (write_output_table variants text_output);
  _ ← call_ (write_output_vcf variants vcf_output);

  samples ← exec (mapM (λ sample, callp (clear_temp_file_indices sample)) samples);

  let sample_info_file := join experiment_directory ["sample_info.txt"] in
  call_ (write_sample_info_file samples sample_info_file).

(** *** The two phases of [run_pipeline]

    The statements of [run_pipeline] again, cut in two where the
    [VariantList] is constructed: what characterizes the samples, and what
    aggregates and writes.  [run_pipeline_phases] below shows that running
    one after the other is [run_pipeline]. *)

Definition characterization (reference_assembly fastq_list control_sample
    experiment_directory : string) (p : Z)
  : M (option sample_ref * list Sample * ChromSizes D) :=
  indexed ← call_ (check_reference_indices reference_assembly);
  _ ← (if negb indexed
       then _ ← call_ (stderr_write not_indexed_message); raise SystemExit
       else mret tt);
  _ ← Pool p;
  _ ← call_ (generate_experiment_directory experiment_directory);
  samples ← call_ (read_samples_from_text fastq_list (Some experiment_directory));
  let control_sample := find_control samples control_sample in
  samples ← exec (mapM (λ sample, callp (generate_intermediate_files sample)) samples);
  _ ← exec (align_all reference_assembly p samples);
  names ← exec (intermediate_file_names samples);
  _ ← pool_map process_sams
        ((λ '(n, d), (n, d, reference_assembly)) <$> zip (sample_name <$> samples) names);
  let haplotype_caller_vcf :=
    join experiment_directory ["gatk_output"; "haplotype_caller_output.vcf"] in
  let haplotype_caller_log :=
    join experiment_directory ["logs"; "haplotype_caller.log"] in
  let bams := merged_bam <$> samples in
  _ ← call_ (run_haplotype_caller bams reference_assembly haplotype_caller_vcf
               haplotype_caller_log p);
  chrom_sizes ← call_ (read_chrom_sizes reference_assembly);
  names ← exec (intermediate_file_names samples);
  strand_bias_std_values ← pool_map analyze_depth_distribution
        ((λ '(i, d), (i, d, reference_assembly, chrom_sizes))
           <$> zip (seq 0 (length samples)) names);
  samples ← exec (assign_strand_bias_std strand_bias_std_values samples);
  let repeat_file := format1 ".repeats" (splitext reference_assembly).1 in
  repeats ← call_ (read_repeats repeat_file);
  names ← exec (intermediate_file_names samples);
  _ ← pool_map characterize_repeat_indel_rates
        ((λ '(d, h), (d, repeats, h)) <$> zip names (repeat_indel_header <$> samples));
  samples ← exec (mapM (λ sample,
               fits ← callp (read_fits (repeat_indel_fits sample));
               Ret (set_repeat_indel_fits_dict fits sample)) samples);
  mret (control_sample, samples, chrom_sizes).

Definition aggregation (reference_assembly experiment_directory : string)
    (excluded_regions : option string)
    (characterized : option sample_ref * list Sample * ChromSizes D) : M unit :=
  let '(control_sample, samples, chrom_sizes) := characterized in
  let haplotype_caller_vcf :=
    join experiment_directory ["gatk_output"; "haplotype_caller_output.vcf"] in
  let repeat_file := format1 ".repeats" (splitext reference_assembly).1 in
  variants ← call_ (VariantList haplotype_caller_vcf samples excluded_regions
                      repeat_file control_sample chrom_sizes);
  let text_output := join experiment_directory ["output"; "mutations.txt"] in
  let vcf_output := join experiment_directory ["output"; "mutations.vcf"] in
  _ ← call_ (write_output_table variants text_output);
  _ ← call_ (write_output_vcf variants vcf_output);
  samples ← exec (mapM (λ sample, callp (clear_temp_file_indices sample)) samples);
  let sample_info_file := join experiment_directory ["sample_info.txt"] in
  call_ (write_sample_info_file samples sample_info_file).

(** ** muver/call_variants.py *)

(** The names bound at the top level of [call_variants.py]: its imports and
    the function it defines. *)
Definition call_variants_globals : list string :=
  ["os"; "argparse"; "tempfile"; "reference"; "sample"; "variant_list";
   "read_from_distribution"; "call_variants"].

(** Looking up a global name when the call that uses it is reached. *)
Definition global {A} (globals : list string) (name : string) (m : M A) : M A :=
  if bool_decide (name ∈ globals) then m else raise (NameError name).

Definition call_variants (reference_assembly control_sample sample_list input_vcf
    output_header : string) (chrom_sizes excluded_regions : option string)
  : M unit :=
  samples ← call_ (read_samples_from_text sample_list None);
  let control_sample := find_control samples control_sample in

  _ ← call_ (create_reference_indices reference_assembly);
  let repeat_file := format1 ".repeats" (splitext reference_assembly).1 in
  present ← call_ (path_exists repeat_file);
  _ ← (if negb present
       then global call_variants_globals "create_repeat_file"
              (call_ (create_repeat_file reference_assembly repeat_file))
       else mret tt);

  chrom_sizes ← (if truthy chrom_sizes
                 then call_ (read_chrom_sizes_from_file (default "" chrom_sizes))
                 else call_ (read_chrom_sizes reference_assembly));

  variants ← call_ (VariantList input_vcf samples excluded_regions repeat_file
                      control_sample chrom_sizes);

  let text_output := format1 ".variants.txt" output_header in
  let vcf_output := format1 ".variants.vcf" output_header in

  _ ← call_ (write_output_table variants text_output);
  call_ (write_output_vcf variants vcf_output).

(** *** The two phases of [call_variants]

    Cut where the [VariantList] is constructed, as for [run_pipeline]. *)

Definition preparation (reference_assembly control_sample sample_list : string)
    (chrom_sizes : option string)
  : M (option sample_ref * list Sample * ChromSizes D) :=
  samples ← call_ (read_samples_from_text sample_list None);
  let control_sample := find_control samples control_sample in
  _ ← call_ (create_reference_indices reference_assembly);
  let repeat_file := format1 ".repeats" (splitext reference_assembly).1 in
  present ← call_ (path_exists repeat_file);
  _ ← (if negb present
       then global call_variants_globals "create_repeat_file"
              (call_ (create_repeat_file reference_assembly repeat_file))
       else mret tt);
  chrom_sizes ← (if truthy chrom_sizes
                 then call_ (read_chrom_sizes_from_file (default "" chrom_sizes))
                 else call_ (read_chrom_sizes reference_assembly));
  mret (control_sample, samples, chrom_sizes).

Definition reporting (reference_assembly input_vcf output_header : string)
    (excluded_regions : option string)
    (prepared : option sample_ref * list Sample * ChromSizes D) : M unit :=
  let '(control_sample, samples, chrom_sizes) := prepared in
  let repeat_file := format1 ".repeats" (splitext reference_assembly).1 in
  variants ← call_ (VariantList input_vcf samples excluded_regions repeat_file
                      control_sample chrom_sizes);
  let text_output := format1 ".variants.txt" output_header in
  let vcf_output := format1 ".variants.vcf" output_header in
  _ ← call_ (write_output_table variants text_output);
  call_ (write_output_vcf variants vcf_output).

End Collaborators.

Arguments Sample : clear implicits.
Arguments call : clear implicits.
Arguments event : clear implicits.
Arguments state : clear implicits.
Arguments prog : clear implicits.
Arguments M : clear implicits.
Arguments Ret {D A} a.
Arguments Raise {D A} e.
Arguments Call {D A} c k.

(** ** A small world to run the code in

    A file system reduced to what the two entry points look at: whether the
    reference is indexed, which files exist, and the samples the manifest
    lists.  Reading a repeat file that does not exist fails, and so does
    processing a SAM file that is malformed; everything else succeeds. *)

Module Lab.

Record lab_world := {
  indexed : bool;
  files : list string;
  manifest : list (string * list (list string));   (* sample name, FASTQ groups *)
  malformed : list string;
  stderr : list string;
}.

Definition lab : Domain := {|
  World := lab_world;
  Float := Z;
  ChromSizes := list (string * Z);
  Repeats := string;
  Fits := string;
  Variants := option string;     (* the name of the control sample *)
|}.

Definition new_sample (row : string * list (list string)) : Sample lab :=
  {| sample_name := row.1; fastqs := row.2; _sams := [];
     merged_bam := row.1 +:+ ".bam";
     repeat_indel_header := row.1;
     repeat_indel_fits := row.1 +:+ ".fits";
     strand_bias_std := None; repeat_indel_fits_dict := None |}.

Definition with_sams (l : list TempFile) (s : Sample lab) : Sample lab :=
  {| sample_name := sample_name s; fastqs := fastqs s; _sams := l;
     merged_bam := merged_bam s; repeat_indel_header := repeat_indel_header s;
     repeat_indel_fits := repeat_indel_fits s;
     strand_bias_std := strand_bias_std s;
     repeat_indel_fits_dict := repeat_indel_fits_dict s |}.

Definition temp_files (s : Sample lab) : list TempFile :=
  imap (λ i _, {| name := sample_name s +:+ "." +:+ pretty i +:+ ".sam" |}) (fastqs s).

Definition per_group (s : Sample lab) (suffix : string) : ifile :=
  Paths (imap (λ i _, sample_name s +:+ "." +:+ pretty i +:+ suffix) (fastqs s)).

Definition file_names (s : Sample lab) : gmap string ifile :=
  list_to_map
    [("_sams", Paths (name <$> _sams s));
     ("_same_chr_sams", per_group s ".same_chr.sam");
     ("_mapq_filtered_sams", per_group s ".mapq.sam");
     ("_read_group_bams", per_group s ".rg.bam");
     ("_deduplicated_bams", per_group s ".dedup.bam");
     ("_deduplication_metrics", per_group s ".dedup.txt");
     ("_interval_files", per_group s ".intervals");
     ("realignment_logs", per_group s ".realign.log");
     ("_realigned_bams", per_group s ".realigned.bam");
     ("_fixed_mates_bams", per_group s ".fixed.bam");
     ("merged_bam", Path (merged_bam s));
     ("repeat_indel_fits", Path (repeat_indel_fits s));
     ("_mpileup_out", Path (sample_name s +:+ ".mpileup"));
     ("strand_bias_distribution", Path (sample_name s +:+ ".bias"));
     ("depth_bedgraph", Path (sample_name s +:+ ".bedgraph"));
     ("depth_distribution", Path (sample_name s +:+ ".depth"));
     ("filtered_sites", Path (sample_name s +:+ ".sites"))].

Definition touch (f : string) (w : lab_world) : lab_world :=
  {| indexed := indexed w; files := f :: files w; manifest := manifest w;
     malformed := malformed w; stderr := stderr w |}.

Definition index (w : lab_world) : lab_world :=
  {| indexed := true; files := files w; manifest := manifest w;
     malformed := malformed w; stderr := stderr w |}.

Definition print (text : string) (w : lab_world) : lab_world :=
  {| indexed := indexed w; files := files w; manifest := manifest w;
     malformed := malformed w; stderr := stderr w ++ [text] |}.

Definition is_malformed (f : ifile) (w : lab_world) : bool :=
  match f with
  | Path s => bool_decide (s ∈ malformed w)
  | Paths _ => false
  end.

Definition path_length (f : ifile) : Z :=
  match f with
  | Path s => Z.of_nat (String.length s)
  | Paths l => Z.of_nat (length l)
  end.

(** The chromosome sizes file on disk lists what the reference has. *)
Definition chromosomes : list (string * Z) := [("chrI", 230218%Z); ("chrM", 85779%Z)].

Definition ext (c : call lab) : lab_world → result (ret c) * lab_world :=
  match c return lab_world → result (ret c) * lab_world with
  | check_reference_indices _ => λ w, (Ok (indexed w), w)
  | create_reference_indices _ => λ w, (Ok tt, index w)
  | read_chrom_sizes_from_file _ => λ w, (Ok chromosomes, w)
  | read_chrom_sizes _ => λ w, (Ok chromosomes, w)
  | path_exists f => λ w, (Ok (bool_decide (f ∈ files w)), w)
  | stderr_write text => λ w, (Ok tt, print text w)
  | create_repeat_file _ f => λ w, (Ok tt, touch f w)
  | read_repeats f => λ w,
      if bool_decide (f ∈ files w) then (Ok ("repeats of " +:+ f), w)
      else (Err (Failure "IOError"), w)
  | read_fits f => λ w, (Ok ("fits of " +:+ f), w)
  | fit_repeat_indel_rates _ _ _ _ => λ w, (Ok tt, w)
  | read_samples_from_text _ _ => λ w, (Ok (new_sample <$> manifest w), w)
  | generate_experiment_directory _ => λ w, (Ok tt, w)
  | generate_intermediate_files s => λ w, (Ok (with_sams (temp_files s) s), w)
  | get_intermediate_file_names s => λ w, (Ok (file_names s), w)
  | clear_temp_file_indices s => λ w, (Ok (with_sams [] s), w)
  | write_sample_info_file _ f => λ w, (Ok tt, touch f w)
  | VariantList _ samples _ _ control _ => λ w,
      (Ok (sample_name <$> (control ≫= (samples !!.))), w)
  | write_output_table _ f => λ w, (Ok tt, touch f w)
  | write_output_vcf _ f => λ w, (Ok tt, touch f w)
  | bowtie2_align _ _ _ _ _ => λ w, (Ok tt, w)
  | remove_diff_chr_pairs sam _ => λ w,
    if is_malformed sam w then (Err (Failure "malformed SAM"), w) else (Ok tt, w)
  | mapq_filter _ _ => λ w, (Ok tt, w)
  | add_read_groups _ _ _ => λ w, (Ok tt, w)
  | deduplicate _ _ _ => λ w, (Ok tt, w)
  | realigner_target_creator _ _ _ => λ w, (Ok tt, w)
  | indel_realigner _ _ _ _ _ => λ w, (Ok tt, w)
  | fix_mate_information _ _ => λ w, (Ok tt, w)
  | merge_bams _ _ => λ w, (Ok tt, w)
  | run_haplotype_caller _ _ _ _ _ => λ w, (Ok tt, w)
  | run_mpileup _ _ _ => λ w, (Ok tt, w)
  | get_mpileup_depths _ _ _ => λ w, (Ok tt, w)
  | calculate_bias_distribution_mpileup f _ _ => λ w, (Ok (0%Z, path_length f), w)
  | calculate_depth_distribution_mpileup _ _ => λ w, (Ok (30%Z, 5%Z), w)
  | filter_regions_by_depth_mpileup _ _ _ _ _ => λ w, (Ok tt, w)
  end.

(** A control and one case, the case sequenced paired-end. *)
Definition cohort : list (string * list (list string)) :=
  [("ctl", [["ctl.fq"]]); ("line7", [["line7_1.fq"; "line7_2.fq"]])].

Definition disk (indexed : bool) (files : list string) : lab_world :=
  {| indexed := indexed; files := files; manifest := cohort; malformed := [];
     stderr := [] |}.


End Lab.


(** ** Vocabulary of the statements *)

Section Vocabulary.

Context {D : Domain}.

(** The name under which the source calls a collaborator. *)
Definition callee (c : call D) : string :=
  match c with
  | check_reference_indices _ => "reference.check_reference_indices"
  | create_reference_indices _ => "reference.create_reference_indices"
  | read_chrom_sizes_from_file _ => "reference.read_chrom_sizes_from_file"
  | read_chrom_sizes _ => "reference.read_chrom_sizes"
  | path_exists _ => "os.path.exists"
  | stderr_write _ => "sys.stderr.write"
  | create_repeat_file _ _ => "create_repeat_file"
  | read_repeats _ => "read_repeats"
  | read_fits _ => "read_fits"
  | fit_repeat_indel_rates _ _ _ _ => "fit_repeat_indel_rates"
  | read_samples_from_text _ _ => "read_samples_from_text"
  | generate_experiment_directory _ => "generate_experiment_directory"
  | generate_intermediate_files _ => "Sample.generate_intermediate_files"
  | get_intermediate_file_names _ => "Sample.get_intermediate_file_names"
  | clear_temp_file_indices _ => "Sample.clear_temp_file_indices"
  | write_sample_info_file _ _ => "write_sample_info_file"
  | VariantList _ _ _ _ _ _ => "VariantList"
  | write_output_table _ _ => "VariantList.write_output_table"
  | write_output_vcf _ _ => "VariantList.write_output_vcf"
  | bowtie2_align _ _ _ _ _ => "bowtie2.align"
  | remove_diff_chr_pairs _ _ => "read_processing.remove_diff_chr_pairs"
  | mapq_filter _ _ => "samtools.mapq_filter"
  | add_read_groups _ _ _ => "picard.add_read_groups"
  | deduplicate _ _ _ => "picard.deduplicate"
  | realigner_target_creator _ _ _ => "gatk.realigner_target_creator"
  | indel_realigner _ _ _ _ _ => "gatk.indel_realigner"
  | fix_mate_information _ _ => "picard.fix_mate_information"
  | merge_bams _ _ => "samtools.merge_bams"
  | run_haplotype_caller _ _ _ _ _ => "gatk.run_haplotype_caller"
  | run_mpileup _ _ _ => "samtools.run_mpileup"
  | get_mpileup_depths _ _ _ => "samtools.get_mpileup_depths"
  | calculate_bias_distribution_mpileup _ _ _ =>
      "bias_dist.calculate_bias_distribution_mpileup"
  | calculate_depth_distribution_mpileup _ _ =>
      "depth_dist.calculate_depth_distribution_mpileup"
  | filter_regions_by_depth_mpileup _ _ _ _ _ =>
      "depth_dist.filter_regions_by_depth_mpileup"
  end.

Definition ev_name (e : event D) : string :=
  match e with
  | Ev c _ => callee c
  | Mapped _ => "pool.map"
  end.

(** The event is a call of one of the listed names. *)
Definition named (names : list string) (e : event D) : Prop := ev_name e ∈ names.

(** The calls of the three kinds of worker task. *)
Definition sam_processing : list string :=
  ["read_processing.remove_diff_chr_pairs"; "samtools.mapq_filter";
   "picard.add_read_groups"; "picard.deduplicate"; "gatk.realigner_target_creator";
   "gatk.indel_realigner"; "picard.fix_mate_information"; "samtools.merge_bams"].

Definition depth_analysis : list string :=
  ["samtools.run_mpileup"; "bias_dist.calculate_bias_distribution_mpileup";
   "samtools.get_mpileup_depths"; "depth_dist.calculate_depth_distribution_mpileup";
   "depth_dist.filter_regions_by_depth_mpileup"].

Definition repeat_fitting : list string := ["fit_repeat_indel_rates"].

Definition worker_calls : list string :=
  sam_processing ++ depth_analysis ++ repeat_fitting.

(** The calls that write an output artifact. *)
Definition output_artifacts : list string :=
  ["VariantList.write_output_table"; "VariantList.write_output_vcf";
   "write_sample_info_file"].

(** The files a trace shows written by [write_output_table] and by
    [write_output_vcf] calls that returned. *)
Definition table_written (e : event D) : option string :=
  match e with
  | Ev c r =>
      if is_ok r
      then match c with write_output_table _ text_output => Some text_output | _ => None end
      else None
  | Mapped _ => None
  end.

Definition vcf_written (e : event D) : option string :=
  match e with
  | Ev c r =>
      if is_ok r
      then match c with write_output_vcf _ vcf_output => Some vcf_output | _ => None end
      else None
  | Mapped _ => None
  end.





(** The manifests a trace shows read by [read_samples_from_text]. *)
Definition manifest_read (e : event D) : option (list (Sample D)) :=
  match e with
  | Ev c r =>
      match c return result (ret c) → option (list (Sample D)) with
      | read_samples_from_text _ _ => λ r, match r with Ok m => Some m | Err _ => None end
      | _ => λ _, None
      end r
  | Mapped _ => None
  end.

Definition manifests_read (tr : list (event D)) : list (list (Sample D)) :=
  omap manifest_read tr.

(** The control samples a trace shows passed to the [VariantList]
    constructor. *)
Definition control_passed (e : event D) : option (option sample_ref) :=
  match e with
  | Ev (VariantList _ _ _ _ control_sample _) _ => Some control_sample
  | _ => None
  end.

Definition controls_passed (tr : list (event D)) : list (option sample_ref) :=
  omap control_passed tr.

Definition written_tables (tr : list (event D)) : list string := omap table_written tr.
Definition written_vcfs (tr : list (event D)) : list string := omap vcf_written tr.

(** A way straight-line code can go: the calls it makes, the answers it gets,
    and how it ends.  The answers are arbitrary: the relation does not depend
    on a handler. *)
Inductive run_of {A} : prog D A → list (event D) → result A → Prop :=
| run_ret a : run_of (Ret a) [] (Ok a)
| run_raise e : run_of (Raise e) [] (Err e)
| run_call_ok c k x evs r :
    run_of (k x) evs r → run_of (Call c k) (Ev c (Ok x) :: evs) r
| run_call_err c k e : run_of (Call c k) [Ev c (Err e)] (Err e).

(** Straight-line code that calls nothing but the listed names, whatever the
    answers. *)
Fixpoint calls_only {A} (names : list string) (p : prog D A) : Prop :=
  match p with
  | Call c k => callee c ∈ names ∧ ∀ x, calls_only names (k x)
  | _ => True
  end.

(** The task has run to its end, returning [b], within the events [evs]
    (which may hold the events of other tasks in between). *)
Definition completed_in {B} (evs : list (event D)) (t : prog D B) (b : B) : Prop :=
  ∃ tevs, run_of t tevs (Ok b) ∧ tevs `sublist_of` evs.

(** Code of the main process that only appends to the trace, only events of
    the listed names, and that does not survive a task that raised: when
    [pool.map] re-raises, the code ends there, with that exception. *)
Definition confined {A} (names : list string) (m : M D A) : Prop :=
  ∀ s r s', m s = (r, s') →
    ∃ evs, trace s' = trace s ++ evs ∧ Forall (named names) evs ∧
      ∀ e, Mapped (Some e) ∈ evs → r = Err e ∧ last evs = Some (Mapped (Some e)).

(** Everything [run_pipeline] and [call_variants] call. *)
Definition run_pipeline_callees : list string :=
  ["reference.check_reference_indices"; "sys.stderr.write";
   "generate_experiment_directory"; "read_samples_from_text";
   "Sample.generate_intermediate_files"; "bowtie2.align";
   "Sample.get_intermediate_file_names"; "pool.map";
   "gatk.run_haplotype_caller"; "reference.read_chrom_sizes"; "read_repeats";
   "read_fits"; "VariantList"; "VariantList.write_output_table";
   "VariantList.write_output_vcf"; "Sample.clear_temp_file_indices";
   "write_sample_info_file"] ++ worker_calls.

(** What [run_pipeline] calls before it constructs the [VariantList], and
    from there on. *)
Definition characterization_callees : list string :=
  ["reference.check_reference_indices"; "sys.stderr.write";
   "generate_experiment_directory"; "read_samples_from_text";
   "Sample.generate_intermediate_files"; "bowtie2.align";
   "Sample.get_intermediate_file_names"; "pool.map";
   "gatk.run_haplotype_caller"; "reference.read_chrom_sizes"; "read_repeats";
   "read_fits"] ++ worker_calls.


Definition preparation_callees : list string :=
  ["read_samples_from_text"; "reference.create_reference_indices"; "os.path.exists";
   "reference.read_chrom_sizes_from_file"; "reference.read_chrom_sizes"].

Definition reporting_callees : list string :=
  ["VariantList"; "VariantList.write_output_table"; "VariantList.write_output_vcf"].

Definition call_variants_callees : list string :=
  ["read_samples_from_text"; "reference.create_reference_indices"; "os.path.exists";
   "reference.read_chrom_sizes_from_file"; "reference.read_chrom_sizes";
   "VariantList"; "VariantList.write_output_table"; "VariantList.write_output_vcf"].

(** *** What a trace of an entry point shows *)

(** The run made two calls and no more: the check of the indices, answered
    false, and the directive on the standard error stream; it ended with the
    exit raised after the directive, or with what writing the directive
    raised. *)
Definition aborted_with_directive (reference_assembly : string)
    (run : result unit * list (event D)) : Prop :=
  ∃ r e,
    run = (Err e, [Ev (check_reference_indices reference_assembly) (Ok false);
                   Ev (stderr_write not_indexed_message) r]) ∧
    (is_ok r = true → e = SystemExit).

(** The trace shows neither a check of the indices nor the directive, and
    once the manifest is read the next call creates the indices. *)
Definition indexes_by_itself (reference_assembly sample_list : string)
    (tr : list (event D)) : Prop :=
  Forall (λ e, ¬ named ["reference.check_reference_indices"; "sys.stderr.write"] e) tr ∧
  ((∃ e, tr = [Ev (read_samples_from_text sample_list None) (Err e)]) ∨
   (∃ samples r rest,
      tr = Ev (read_samples_from_text sample_list None) (Ok samples)
           :: Ev (create_reference_indices reference_assembly) r :: rest)).

(** The trace ends with the sample info file written in the experiment
    directory; before that, in this order, the [VariantList] was constructed,
    the table and the VCF were written, and the temporary file indices of
    every sample were cleared; nothing earlier writes an output artifact. *)
Definition sample_info_written_last (experiment_directory : string)
    (excluded_regions : option string) (tr : list (event D)) : Prop :=
  ∃ before input_vcf samples repeat_file control chrom_sizes variants clears cleared,
    tr =
      before
      ++ [Ev (VariantList input_vcf samples excluded_regions repeat_file control
                chrom_sizes) (Ok variants);
          Ev (write_output_table variants
                (join experiment_directory ["output"; "mutations.txt"])) (Ok ());
          Ev (write_output_vcf variants
                (join experiment_directory ["output"; "mutations.vcf"])) (Ok ())]
      ++ clears
      ++ [Ev (write_sample_info_file cleared
                (join experiment_directory ["sample_info.txt"])) (Ok ())] ∧
    Forall (λ e, ¬ named output_artifacts e) before ∧
    Forall2 (λ sample e, ∃ x, e = Ev (clear_temp_file_indices sample) (Ok x))
      samples clears ∧
    length cleared = length samples.

(** The trace shows the [VariantList] constructed once, after the depth
    analysis task and the repeat indel fitting task of every sample passed
    to it have run to their end, with their results in the fields of the
    sample, and with no call of a worker task from the constructor on. *)
Definition characterized_before_aggregation (reference_assembly : string)
    (excluded_regions : option string) (tr : list (event D)) : Prop :=
  ∃ before input_vcf samples repeat_file control chrom_sizes answer after,
    tr =
      before
      ++ Ev (VariantList input_vcf samples excluded_regions repeat_file control
               chrom_sizes) answer
      :: after ∧
    Forall (λ e, ¬ named ["VariantList"] e) before ∧
    Forall (λ e, ¬ named worker_calls e) after ∧
    ∀ i sample, samples !! i = Some sample →
      (∃ names std,
         completed_in before
           (analyze_depth_distribution (i, names, reference_assembly, chrom_sizes))
           (i, std) ∧
         strand_bias_std sample = Some std) ∧
      (∃ names repeats,
         completed_in before
           (characterize_repeat_indel_rates (names, repeats, repeat_indel_header sample))
           () ∧
         is_Some (repeat_indel_fits_dict sample)).


(** Two runs are the same run up to the construction of the [VariantList]:
    either both end before it, the same way after the same calls, or both
    reach it, the first with no control sample. *)
Definition same_until_constructed (excluded_regions : option string)
    (run run' : result unit * list (event D)) : Prop :=
  (run = run' ∧ "VariantList" ∉ ev_name <$> run.2) ∨
  (∃ before vcf samples repeat_file sizes control' answer answer' after after',
     run.2 = before
             ++ Ev (VariantList vcf samples excluded_regions repeat_file None sizes) answer
             :: after ∧
     run'.2 = before
              ++ Ev (VariantList vcf samples excluded_regions repeat_file control' sizes)
                   answer'
              :: after' ∧
     Forall (λ e, ¬ named ["VariantList"] e) before).



(** Two results that differ at most in the control sample they hold. *)
Definition same_but_control {A B}
    (x y : result (option sample_ref * A * B) * state D) : Prop :=
  x.2 = y.2 ∧
  match x.1, y.1 with
  | Ok (_, a, b), Ok (_, a', b') => a = a' ∧ b = b'
  | Err e, Err e' => e = e'
  | _, _ => False
  end.




(** The exception an event shows raised by a call. *)
Definition ev_raised (e : event D) : option exn :=
  match e with
  | Ev _ r => raised r
  | Mapped _ => None
  end.



(** A run of the main process from a fresh trace: how it ends and what
    happened. *)
Definition launch {A} (m : M D A) (w : World D) (ps : list nat)
  : result A * list (event D) :=
  let (r, s) := m (State w [] ps) in (r, trace s).

(** *** Worker tasks, call by call *)

(** [d[key][i]] when the key and the position are there. *)
Definition entry (d : gmap string ifile) (key : string) (i : nat) : option ifile :=
  v ← d !! key;
  match v with
  | Path s => (λ c, Path (String c "")) <$> String.get i s
  | Paths l => Path <$> l !! i
  end.

(** The seven steps [process_sams] takes on the SAM file of position [i], on
    the files of that position in the lists of the dict; an entry is [None]
    where the dict lacks the key or the position. *)
Definition sam_steps (sample_name reference_assembly : string) (d : gmap string ifile)
    (i : nat) : list (option (call D)) :=
  [ (a ← entry d "_sams" i; b ← entry d "_same_chr_sams" i;
     Some (remove_diff_chr_pairs a b));
    (a ← entry d "_same_chr_sams" i; b ← entry d "_mapq_filtered_sams" i;
     Some (mapq_filter a b));
    (a ← entry d "_mapq_filtered_sams" i; b ← entry d "_read_group_bams" i;
     Some (add_read_groups a b sample_name));
    (a ← entry d "_read_group_bams" i; b ← entry d "_deduplicated_bams" i;
     c ← entry d "_deduplication_metrics" i;
     Some (deduplicate a b c));
    (a ← entry d "_deduplicated_bams" i; b ← entry d "_interval_files" i;
     Some (realigner_target_creator reference_assembly a b));
    (l ← entry d "realignment_logs" i; a ← entry d "_deduplicated_bams" i;
     b ← entry d "_interval_files" i; c ← entry d "_realigned_bams" i;
     Some (indel_realigner reference_assembly l a b c));
    (a ← entry d "_realigned_bams" i; b ← entry d "_fixed_mates_bams" i;
     Some (fix_mate_information a b)) ].

(** All the calls of [process_sams]: the seven steps for every SAM file in
    turn, then the merge. *)
Definition sam_calls (sample_name reference_assembly : string) (d : gmap string ifile)
  : list (option (call D)) :=
  (i ← seq 0 (from_option py_len 0 (d !! "_sams"));
   sam_steps sample_name reference_assembly d i)
  ++ [a ← d !! "_fixed_mates_bams"; b ← d !! "merged_bam"; Some (merge_bams a b)].

(** The calls of a run are the expected ones as far as the run went, all of
    them when it returned. *)
Definition tracks {A} (evs : list (event D)) (r : result A)
    (expected : list (option (call D))) : Prop :=
  Some <$> calls evs `prefix_of` expected ∧
  (is_ok r = true → Some <$> calls evs = expected).

(** How the loop under [# Align] aligns a FASTQ group, whatever its size:
    the first file against the reference into the SAM file of the position,
    with the second file as mate when the group has exactly two files and
    with no mate otherwise; [None] when the group is empty or the sample has
    no SAM file at the position. *)
Definition aligned (reference_assembly : string) (p : Z) (sample : Sample D)
    (i : nat) (group : list string) : option (call D) :=
  fastq_1 ← head group;
  sam ← _sams sample !! i;
  Some (bowtie2_align fastq_1 reference_assembly (name sam)
          (if decide (length group = 2) then group !! 1 else None) p).

(** *** What a run of [run_pipeline] that returned shows *)

(** The names of the calls of a run of [run_pipeline] that returned, on [n]
    samples with [k] alignments: stage after stage, each [pool.map] after
    the calls of its tasks. *)
Definition stage_names (n k : nat) (sams depths fitting : list string) : list string :=
  ["reference.check_reference_indices"; "generate_experiment_directory";
   "read_samples_from_text"]
  ++ replicate n "Sample.generate_intermediate_files"
  ++ replicate k "bowtie2.align"
  ++ replicate n "Sample.get_intermediate_file_names" ++ sams
  ++ ["pool.map"; "gatk.run_haplotype_caller"; "reference.read_chrom_sizes"]
  ++ replicate n "Sample.get_intermediate_file_names" ++ depths
  ++ ["pool.map"; "read_repeats"]
  ++ replicate n "Sample.get_intermediate_file_names" ++ fitting
  ++ ["pool.map"]
  ++ replicate n "read_fits"
  ++ ["VariantList"; "VariantList.write_output_table"; "VariantList.write_output_vcf"]
  ++ replicate n "Sample.clear_temp_file_indices"
  ++ ["write_sample_info_file"].

(** The trace shows the haplotype caller run once, on the merged BAM of every
    sample of the manifest in the order of the manifest, after the SAM
    processing task of each of these samples ran to its end and with no SAM
    processing left to do; the VCF it is told to write is the one the
    [VariantList] is constructed from. *)
Definition caller_after_sam_processing (reference_assembly fastq_list
    experiment_directory : string) (p : Z) (tr : list (event D)) : Prop :=
  ∃ before manifest prepared after samples excluded_regions repeat_file control
    chrom_sizes answer,
    tr =
      before
      ++ Ev (run_haplotype_caller (merged_bam <$> prepared) reference_assembly
               (join experiment_directory ["gatk_output"; "haplotype_caller_output.vcf"])
               (join experiment_directory ["logs"; "haplotype_caller.log"]) p) (Ok ())
      :: after ∧
    Forall (λ e, ¬ named ["gatk.run_haplotype_caller"] e) before ∧
    Ev (read_samples_from_text fastq_list (Some experiment_directory)) (Ok manifest)
      ∈ before ∧
    Forall2 (λ x y, Ev (generate_intermediate_files x) (Ok y) ∈ before)
      manifest prepared ∧
    Forall (λ x, ∃ d, Ev (get_intermediate_file_names x) (Ok d) ∈ before ∧
                   completed_in before
                     (process_sams (sample_name x, d, reference_assembly)) ())
      prepared ∧
    Forall (λ e, ¬ named ("gatk.run_haplotype_caller" :: "bowtie2.align" :: sam_processing) e)
      after ∧
    Ev (VariantList
          (join experiment_directory ["gatk_output"; "haplotype_caller_output.vcf"])
          samples excluded_regions repeat_file control chrom_sizes) answer ∈ after.

(** The trace shows every sample of the manifest carried through, in the
    order of the manifest: the [VariantList] is constructed on as many samples
    as the manifest lists, each the sample of that position as
    [generate_intermediate_files] left it with its two fields assigned; the
    control is the first sample of the manifest that bears the control's
    name; and the sample info file is written from these samples as
    [clear_temp_file_indices] left them. *)
Definition manifest_carried_through (fastq_list experiment_directory control_name : string)
    (tr : list (event D)) : Prop :=
  ∃ manifest samples input_vcf excluded_regions repeat_file chrom_sizes answer cleared
    sample_info_file,
    Ev (read_samples_from_text fastq_list (Some experiment_directory)) (Ok manifest) ∈ tr ∧
    Ev (VariantList input_vcf samples excluded_regions repeat_file
          (find_control manifest control_name) chrom_sizes) answer ∈ tr ∧
    Ev (write_sample_info_file cleared sample_info_file) (Ok ()) ∈ tr ∧
    Forall2 (λ x y, ∃ prepared std fits,
               Ev (generate_intermediate_files x) (Ok prepared) ∈ tr ∧
               y = set_repeat_indel_fits_dict fits (set_strand_bias_std std prepared))
      manifest samples ∧
    Forall2 (λ y z, Ev (clear_temp_file_indices y) (Ok z) ∈ tr) samples cleared.

(** *** What holds of every event of a run *)

(** Code of the main process all of whose events satisfy [P], however it
    ends. *)
Definition throughout {A} (P : event D → Prop) (m : M D A) : Prop :=
  ∀ s r s', m s = (r, s') → ∃ evs, trace s' = trace s ++ evs ∧ Forall P evs.

(** What the loops of [run_pipeline] and its worker tasks call. *)
Definition loop_callees : list string :=
  ["Sample.generate_intermediate_files"; "bowtie2.align";
   "Sample.get_intermediate_file_names"; "pool.map"; "read_fits";
   "Sample.clear_temp_file_indices"] ++ worker_calls.

(** The paths [run_pipeline] builds by itself with [os.path.join] and hands
    to a call: the experiment directory to generate, the VCF and the log of
    the haplotype caller, the VCF the [VariantList] is constructed from, the
    two output files and the sample info file. *)
Definition pipeline_paths (e : event D) : list string :=
  match e with
  | Ev (generate_experiment_directory experiment_directory) _ => [experiment_directory]
  | Ev (run_haplotype_caller _ _ vcf log _) _ => [vcf; log]
  | Ev (VariantList input_vcf _ _ _ _ _) _ => [input_vcf]
  | Ev (write_output_table _ text_output) _ => [text_output]
  | Ev (write_output_vcf _ vcf_output) _ => [vcf_output]
  | Ev (write_sample_info_file _ sample_info_file) _ => [sample_info_file]
  | _ => []
  end.

(** The repeat file a call is handed. *)
Definition repeat_files (e : event D) : list string :=
  match e with
  | Ev (path_exists path) _ => [path]
  | Ev (create_repeat_file _ repeat_file) _ => [repeat_file]
  | Ev (read_repeats repeat_file) _ => [repeat_file]
  | Ev (VariantList _ _ _ repeat_file _ _) _ => [repeat_file]
  | _ => []
  end.


(** What [os.path.exists] answered, when the event is such a call that
    returned. *)
Definition exists_answer (e : event D) : option bool :=
  match e with
  | Ev c r =>
      match c return result (ret c) → option bool with
      | path_exists _ => λ r, match r with Ok b => Some b | Err _ => None end
      | _ => λ _, None
      end r
  | Mapped _ => None
  end.

(** The trace of [call_variants] up to the construction of the
    [VariantList]: the manifest is read, the indices of the reference are
    created, the repeat file is found on disk, the chromosome sizes are read,
    and the [VariantList] is constructed on the manifest as it was read, with
    the first sample of the control's name as control. *)
Definition manifest_passed_on (reference_assembly control_name sample_list input_vcf : string)
    (excluded_regions : option string) (tr : list (event D)) : Prop :=
  ∃ samples read_sizes sizes answer after,
    tr =
      [Ev (read_samples_from_text sample_list None) (Ok samples);
       Ev (create_reference_indices reference_assembly) (Ok ());
       Ev (path_exists (format1 ".repeats" (splitext reference_assembly).1)) (Ok true);
       read_sizes;
       Ev (VariantList input_vcf samples excluded_regions
             (format1 ".repeats" (splitext reference_assembly).1)
             (find_control samples control_name) sizes) answer]
      ++ after ∧
    (read_sizes = Ev (read_chrom_sizes reference_assembly) (Ok sizes) ∨
     ∃ f, read_sizes = Ev (read_chrom_sizes_from_file f) (Ok sizes)) ∧
    Forall (named ["VariantList.write_output_table"; "VariantList.write_output_vcf"])
      after.

(** The names of the calls a trace shows returned. *)
Definition returned_call (e : event D) : option string :=
  match e, ev_raised e with
  | Ev c _, None => Some (callee c)
  | _, _ => None
  end.

Definition returned_calls (tr : list (event D)) : list string := omap returned_call tr.

End Vocabulary.

(** ** Reasoning about runs *)

Section Reasoning.

Context {D : Domain}.
Variable ext : ∀ c : call D, World D → result (ret c) * World D.

Implicit Types (s : state D) (evs : list (event D)).

(** *** Straight-line code *)

Lemma run_of_inv {A} (p : prog D A) evs r :
  run_of p evs r →
  match p with
  | Ret a => evs = [] ∧ r = Ok a
  | Raise e => evs = [] ∧ r = Err e
  | Call c k =>
      (∃ x evs', evs = Ev c (Ok x) :: evs' ∧ run_of (k x) evs' r) ∨
      (∃ e, evs = [Ev c (Err e)] ∧ r = Err e)
  end.
Proof. destruct 1; eauto. Qed.

Lemma run_of_bind {A B} (m : prog D A) (f : A → prog D B) evs r :
  run_of (m ≫= f) evs r →
  (∃ e, r = Err e ∧ run_of m evs (Err e)) ∨
  (∃ a evs1 evs2, evs = evs1 ++ evs2 ∧ run_of m evs1 (Ok a) ∧ run_of (f a) evs2 r).
Proof.
  revert evs. induction m as [a|e|c k IH]; intros evs H.
  - right. exists a, [], evs. split; [done|]. split; [constructor | exact H].
  - apply run_of_inv in H as [-> ->]. left. exists e. split; [done | constructor].
  - apply (run_of_inv (Call c _)) in H as [(x & evs' & -> & H) | (e & -> & ->)].
    + apply IH in H as [(e & -> & H) | (a & e1 & e2 & -> & H1 & H2)].
      * left. exists e. split; [done | by constructor].
      * right. exists a, (Ev c (Ok x) :: e1), e2.
        split; [done|]. split; [by constructor | done].
    + left. exists e. split; [done | constructor].
Qed.

Lemma run_of_bind_intro {A B} (m : prog D A) (f : A → prog D B) a evs1 evs2 r :
  run_of m evs1 (Ok a) → run_of (f a) evs2 r → run_of (m ≫= f) (evs1 ++ evs2) r.
Proof.
  revert evs1. induction m as [b|e|c k IH]; intros evs1 H1 H2.
  - apply run_of_inv in H1 as [-> [= ->]]. exact H2.
  - apply run_of_inv in H1 as [_ [=]].
  - apply (run_of_inv (Call c _)) in H1 as [(x & evs' & -> & H) | (e & _ & [=])].
    simpl. constructor. by apply IH.
Qed.

Lemma run_of_names {A} names (p : prog D A) evs r :
  calls_only names p → run_of p evs r → Forall (named names) evs.
Proof.
  intros Hp H. induction H as [| |c k x evs r H IH|]; simpl in Hp.
  - constructor.
  - constructor.
  - destruct Hp as [Hc Hk]. constructor; [exact Hc | by apply IH].
  - destruct Hp as [Hc _]. by repeat constructor.
Qed.

Lemma calls_only_bind {A B} names (m : prog D A) (f : A → prog D B) :
  calls_only names m → (∀ a, calls_only names (f a)) → calls_only names (m ≫= f).
Proof.
  intros Hm Hf. induction m as [a|e|c k IH]; simpl in *; [by apply Hf | done |].
  destruct Hm as [Hc Hk]. split; [done|]. intros x. by apply IH.
Qed.

Lemma calls_only_for {A} names (l : list A) (body : A → prog D unit) :
  (∀ x, calls_only names (body x)) → calls_only names (for_ l body).
Proof.
  intros Hb. induction l as [|x l IH]; simpl; [done|].
  apply calls_only_bind; [apply Hb | by intros _].
Qed.

Lemma calls_only_mapM {A B} names (f : A → prog D B) (l : list A) :
  (∀ x, calls_only names (f x)) → calls_only names (mapM f l).
Proof.
  intros Hf. induction l as [|x l IH]; simpl; [done|].
  apply calls_only_bind; [apply Hf|]. intros b.
  apply calls_only_bind; [apply IH | done].
Qed.

(** *** The main process *)

Lemma bind_inv {A B} (m : M D A) (f : A → M D B) s r s' :
  (m ≫= f) s = (r, s') →
  (∃ a s1, m s = (Ok a, s1) ∧ f a s1 = (r, s')) ∨
  (∃ e, m s = (Err e, s') ∧ r = Err e).
Proof.
  unfold mbind, M_mbind, M_bind. destruct (m s) as [[a|e] s1]; intros H.
  - left. eauto.
  - right. exists e. by injection H as <- <-.
Qed.

Lemma bind_cut {A B C} (m : M D A) (f : A → M D B) (g : B → M D C) s :
  (m ≫= λ a, f a ≫= g) s = ((m ≫= f) ≫= g) s.
Proof. unfold mbind, M_mbind, M_bind. by destruct (m s) as [[a|e] s1]. Qed.

Lemma bind_ext {A B} (m : M D A) (f f' : A → M D B) s :
  (∀ a s1, f a s1 = f' a s1) → (m ≫= f) s = (m ≫= f') s.
Proof.
  intros Hf. unfold mbind, M_mbind, M_bind. destruct (m s) as [[a|e] s1]; [apply Hf | done].
Qed.

Lemma perform_inv c s r s' :
  perform ext c s = (r, s') → trace s' = trace s ++ [Ev c r] ∧ picks s' = picks s.
Proof.
  unfold perform. destruct (ext c (world s)) as [r0 w]. by intros [= <- <-].
Qed.

Lemma exec_inv {A} (p : prog D A) s r s' :
  exec ext p s = (r, s') →
  ∃ evs, trace s' = trace s ++ evs ∧ picks s' = picks s ∧ run_of p evs r.
Proof.
  revert s. induction p as [a|e|c k IH]; intros s; simpl.
  - intros [= <- <-]. exists []. rewrite app_nil_r. repeat split. constructor.
  - intros [= <- <-]. exists []. rewrite app_nil_r. repeat split. constructor.
  - destruct (perform ext c s) as [[x|e] s1] eqn:Hc;
      apply perform_inv in Hc as [Ht Hp]; intros H.
    + apply IH in H as (evs & Ht' & Hp' & H).
      exists (Ev c (Ok x) :: evs). rewrite Ht', Ht, <- app_assoc.
      repeat split; [congruence | by constructor].
    + injection H as <- <-. exists [Ev c (Err e)]. repeat split; [done.. | constructor].
Qed.

Lemma call_inv c s r s' :
  call_ ext c s = (r, s') → trace s' = trace s ++ [Ev c r] ∧ picks s' = picks s.
Proof.
  intros H. apply exec_inv in H as (evs & Ht & Hp & H). split; [|done].
  apply (run_of_inv (Call c _)) in H as [(x & evs' & -> & H) | (e & -> & ->)]; [|done].
  apply run_of_inv in H as [-> ->]. done.
Qed.

(** *** The pool *)

Lemma completed_in_mono {B} evs evs' (t : prog D B) b :
  evs `sublist_of` evs' → completed_in evs t b → completed_in evs' t b.
Proof. intros Hs (tevs & H & Hsub). exists tevs. split; [done | by etrans]. Qed.

Lemma failed_never_completes {B} (tasks : list (prog D B)) e evs bs :
  failed tasks = Some e → ¬ Forall2 (completed_in evs) tasks bs.
Proof.
  intros Hf H. induction H as [|t b tasks bs Ht _ IH]; [done|].
  destruct t as [a|e'|c k]; simpl in Hf; [by apply IH| |by apply IH].
  destruct Ht as (tevs & Ht & _). by apply run_of_inv in Ht as [_ [=]].
Qed.

Lemma finished_completed {B} (tasks : list (prog D B)) bs evs :
  finished tasks = Some bs → Forall2 (completed_in evs) tasks bs.
Proof.
  revert bs. induction tasks as [|t tasks IH]; intros bs; simpl.
  - intros [= <-]. constructor.
  - destruct t as [b| |]; [|done..].
    destruct (finished tasks) as [bs'|]; [|done]. intros [= <-].
    constructor; [|by apply IH].
    exists []. split; [constructor | apply sublist_nil_l].
Qed.

Lemma drain_inv {B} (tasks : list (prog D B)) s r s' :
  drain ext tasks s = (r, s') →
  ∃ evs, trace s' = trace s ++ evs ∧ picks s' = picks s ∧
    (∀ names, Forall (calls_only names) tasks → Forall (named names) evs) ∧
    (∀ bs, r = Ok bs → Forall2 (completed_in evs) tasks bs).
Proof.
  revert s r s'. induction tasks as [|t tasks IH]; intros s r s'; simpl.
  - intros [= <- <-]. exists []. rewrite app_nil_r.
    repeat split; [by constructor|]. intros bs [= <-]. constructor.
  - intros H. apply bind_inv in H as [(b & s1 & Ht & H) | (e & Ht & ->)];
      apply exec_inv in Ht as (tevs & Htr & Hp & Ht).
    + apply bind_inv in H as [(bs' & s2 & Hd & H) | (e & Hd & ->)];
        apply IH in Hd as (evs & Htr' & Hp' & Hn & Hc).
      * injection H as <- <-. exists (tevs ++ evs).
        rewrite Htr', Htr, <- app_assoc. repeat split; [congruence| |].
        -- intros names [Hn1 Hn2]%Forall_cons. apply Forall_app. split; [|by apply Hn].
           by eapply run_of_names.
        -- intros bs [= <-]. constructor.
           ++ exists tevs. split; [done | by apply sublist_inserts_r].
           ++ eapply Forall2_impl; [by apply Hc|]. intros t' b'.
              apply completed_in_mono. by apply sublist_inserts_l.
      * exists (tevs ++ evs). rewrite Htr', Htr, <- app_assoc.
        repeat split; [congruence| |done].
        intros names [Hn1 Hn2]%Forall_cons. apply Forall_app. split; [|by apply Hn].
        by eapply run_of_names.
    + exists tevs. repeat split; [done..| |done].
      intros names [Hn1 Hn2]%Forall_cons. by eapply run_of_names.
Qed.

Lemma pool_run_inv {B} ps (tasks : list (prog D B)) s r s' :
  pool_run ext ps tasks s = (r, s') →
  ∃ evs, trace s' = trace s ++ evs ++ [Mapped (raised r)] ∧
    (∀ names, Forall (calls_only names) tasks → Forall (named names) evs) ∧
    (∀ bs, r = Ok bs → Forall2 (completed_in evs) tasks bs).
Proof.
  revert tasks s r s'. induction ps as [|i ps IH]; intros tasks s r s'; simpl.
  - destruct (failed tasks) as [e|] eqn:Hf.
    { intros [= <- <-]. exists []. repeat split; [by constructor | done]. }
    destruct (finished tasks) as [bs|] eqn:Hfin.
    { intros [= <- <-]. exists []. repeat split; [by constructor|].
      intros bs' [= <-]. by apply finished_completed. }
    destruct (drain ext tasks s) as [r1 s1] eqn:Hd. intros [= <- <-].
    apply drain_inv in Hd as (evs & Htr & _ & Hn & Hc).
    exists evs. simpl. rewrite Htr, <- app_assoc. done.
  - destruct (failed tasks) as [e|] eqn:Hf.
    { intros [= <- <-]. exists []. repeat split; [by constructor | done]. }
    destruct (finished tasks) as [bs|] eqn:Hfin.
    { intros [= <- <-]. exists []. repeat split; [by constructor|].
      intros bs' [= <-]. by apply finished_completed. }
    destruct (tasks !! i) as [t|] eqn:Hi; [|by apply IH].
    destruct t as [b|e|c k]; simpl.
    + rewrite list_insert_id by done. apply IH.
    + rewrite list_insert_id by done. apply IH.
    + destruct (perform ext c s) as [[x|e] s1] eqn:Hc;
        apply perform_inv in Hc as [Htr _]; intros H;
        apply IH in H as (evs & Htr' & Hn & Hcomp).
      * exists (Ev c (Ok x) :: evs). rewrite Htr', Htr, <- !app_assoc.
        split; [reflexivity|]. split.
        -- intros names Hall. constructor.
           ++ eapply Forall_lookup_1 in Hall; [|exact Hi]. by destruct Hall.
           ++ apply Hn. apply Forall_insert; [done|].
              eapply Forall_lookup_1 in Hall; [|exact Hi]. destruct Hall as [_ Hk]. apply Hk.
        -- intros bs Hr. specialize (Hcomp bs Hr).
           apply Forall2_same_length_lookup. split.
           { apply Forall2_length in Hcomp. by rewrite length_insert in Hcomp. }
           intros j t b Hj Hb.
           destruct (decide (i = j)) as [<-|Hne].
           ++ assert (t = Call c k) as -> by congruence.
              eapply Forall2_lookup_lr in Hcomp as (tevs & Ht & Hsub);
                [| apply list_lookup_insert_eq; by eapply lookup_lt_Some | exact Hb].
              exists (Ev c (Ok x) :: tevs). split; [by constructor | by apply sublist_skip].
           ++ eapply Forall2_lookup_lr in Hcomp as (tevs & Ht & Hsub);
                [| rewrite list_lookup_insert_ne by done; exact Hj | exact Hb].
              exists tevs. split; [done | by apply sublist_cons].
      * exists (Ev c (Err e) :: evs). rewrite Htr', Htr, <- !app_assoc.
        split; [reflexivity|]. split.
        -- intros names Hall. constructor.
           ++ eapply Forall_lookup_1 in Hall; [|exact Hi]. by destruct Hall.
           ++ apply Hn. apply Forall_insert; [done|]. done.
        -- intros bs Hr. specialize (Hcomp bs Hr). exfalso.
           eapply Forall2_lookup_l in Hcomp as (b & _ & (tevs & Ht & _));
             [| apply list_lookup_insert_eq; by eapply lookup_lt_Some].
           by apply run_of_inv in Ht as [_ [=]].
Qed.

Lemma pool_map_inv {A B} (f : A → prog D B) (args : list A) s r s' :
  pool_map ext f args s = (r, s') →
  ∃ evs, trace s' = trace s ++ evs ++ [Mapped (raised r)] ∧
    (∀ names, (∀ a, calls_only names (f a)) → Forall (named names) evs) ∧
    (∀ bs, r = Ok bs → Forall2 (λ a b, completed_in evs (f a) b) args bs).
Proof.
  intros H. apply pool_run_inv in H as (evs & Htr & Hn & Hc).
  exists evs. split; [done|]. split.
  - intros names Hf. apply Hn. apply Forall_fmap, Forall_forall. intros a _. apply Hf.
  - intros bs Hr. specialize (Hc bs Hr).
    by apply (proj1 (Forall2_fmap_l f (completed_in evs) args bs)) in Hc.
Qed.

(** *** Loops of the main process *)

(** [[g(x, call(x)) for x in l]]: one call per element, in order. *)
Lemma run_of_mapM_call {A B} (c : A → call D) (g : ∀ a, ret (c a) → B)
    (l : list A) evs r :
  run_of (mapM (λ a, Call (c a) (λ x, Ret (g a x))) l) evs r →
  ∀ bs, r = Ok bs →
    Forall2 (λ a e, ∃ x, e = Ev (c a) (Ok x)) l evs ∧
    Forall2 (λ a b, ∃ x, b = g a x ∧ Ev (c a) (Ok x) ∈ evs) l bs.
Proof.
  revert evs r. induction l as [|a l IH]; intros evs r H bs ->.
  - apply run_of_inv in H as [-> [= ->]]. split; constructor.
  - simpl in H.
    apply (run_of_inv (Call (c a) _)) in H as [(x & evs' & -> & H) | (e & _ & [=])].
    apply run_of_bind in H as [(e & [=] & _) | (bs' & e1 & e2 & -> & H1 & H2)].
    apply run_of_inv in H2 as [-> [= ->]]. rewrite app_nil_r.
    destruct (IH _ _ H1 bs' eq_refl) as [Hc Hall]. split.
    + constructor; [by exists x | done].
    + constructor.
      * exists x. split; [done | apply list_elem_of_here].
      * eapply Forall2_impl; [exact Hall|]. intros a' b' (x' & -> & Hin).
        exists x'. split; [done | by apply list_elem_of_further].
Qed.

Lemma intermediate_file_names_inv (samples : list (Sample D)) evs r :
  run_of (intermediate_file_names samples) evs r →
  Forall (named ["Sample.get_intermediate_file_names"]) evs ∧
  ∀ names, r = Ok names →
    Forall2 (λ x d, Ev (get_intermediate_file_names x) (Ok d) ∈ evs) samples names.
Proof.
  intros H. split.
  - eapply run_of_names; [|exact H]. apply calls_only_mapM. intros x. simpl.
    split; [apply list_elem_of_here | done].
  - intros names ->.
    apply (run_of_mapM_call get_intermediate_file_names (λ _ d, d)) with (bs := names) in H
      as [_ H]; [|done].
    eapply Forall2_impl; [exact H|]. by intros y d (x & -> & Hin).
Qed.

(** *** Assigning the strand bias values *)

Lemma assign_strand_bias_std_inv (values : list (nat * Float D))
    (samples : list (Sample D)) evs r :
  run_of (assign_strand_bias_std values samples) evs r →
  NoDup values.*1 →
  Forall (λ iv, iv.1 < length samples) values →
  evs = [] ∧
  ∃ samples', r = Ok samples' ∧ length samples' = length samples ∧
    (∀ i v, (i, v) ∈ values →
       samples' !! i = set_strand_bias_std v <$> samples !! i) ∧
    (∀ i, i ∉ values.*1 → samples' !! i = samples !! i).
Proof.
  revert samples evs. induction values as [|[i v] values IH]; intros samples evs H Hnd Hlt.
  - apply run_of_inv in H as [-> ->]. split; [done|]. exists samples.
    split; [done|]. split; [done|]. split; [|done].
    intros i v Hin. by apply elem_of_nil in Hin.
  - apply NoDup_cons in Hnd as [Hi Hnd]. apply Forall_cons in Hlt as [Hlt1 Hlt].
    simpl in Hlt1. destruct (lookup_lt_is_Some_2 _ _ Hlt1) as [s Hs].
    simpl in H. unfold list_get in H. rewrite Hs in H. simpl in H.
    apply IH in H as (-> & samples' & -> & Hlen & Hin & Hout); [|done|].
    2:{ eapply Forall_impl; [exact Hlt|]. intros iv. by rewrite length_insert. }
    split; [done|]. exists samples'. rewrite length_insert in Hlen.
    split; [done|]. split; [done|]. split.
    + intros j u [[= -> ->]|Hju]%elem_of_cons.
      * rewrite Hout by done. rewrite list_lookup_insert_eq by done. by rewrite Hs.
      * rewrite (Hin _ _ Hju). rewrite list_lookup_insert_ne; [done|].
        intros ->. apply Hi. apply list_elem_of_fmap. by exists (j, u).
    + intros j Hj. simpl in Hj. apply not_elem_of_cons in Hj as [Hne Hj].
      rewrite Hout by done. by rewrite list_lookup_insert_ne.
Qed.

(** *** Code that makes no call *)

Lemma dict_get_calls names (d : gmap string ifile) key :
  calls_only (D := D) names (dict_get d key).
Proof. unfold dict_get. by destruct (d !! key). Qed.

Lemma seq_get_calls names v i : calls_only (D := D) names (seq_get v i).
Proof.
  unfold seq_get. destruct v as [s|l]; [by destruct (String.get i s) | by destruct (l !! i)].
Qed.

Lemma list_get_calls {A} names (l : list A) i : calls_only (D := D) names (list_get l i).
Proof. unfold list_get. by destruct (l !! i). Qed.

Lemma item_calls names (d : gmap string ifile) key i :
  calls_only (D := D) names (item d key i).
Proof. apply calls_only_bind; [apply dict_get_calls | intros v; apply seq_get_calls]. Qed.

(** *** Which calls an entry point can make *)

Lemma calls_only_mono {A} names names' (p : prog D A) :
  names ⊆ names' → calls_only names p → calls_only names' p.
Proof.
  intros Hsub. induction p as [| |c k IH]; simpl; [done..|].
  intros [Hc Hk]. split; [by apply Hsub | intros x; by apply IH].
Qed.

Lemma callee_not_pool_map (c : call D) : callee c ≠ "pool.map".
Proof. by destruct c. Qed.

Lemma run_of_not_mapped {A} (p : prog D A) evs r x : run_of p evs r → Mapped x ∉ evs.
Proof.
  intros H. induction H as [| |c k y evs r H IH|].
  - by intros ?%elem_of_nil.
  - by intros ?%elem_of_nil.
  - by intros [?|?]%elem_of_cons.
  - by intros [?|?%elem_of_nil]%elem_of_cons.
Qed.

Lemma confined_ret {A} names (a : A) : confined (D := D) names (mret a).
Proof.
  intros s r s' [= <- <-]. exists []. rewrite app_nil_r.
  split; [done|]. split; [done|]. by intros e ?%elem_of_nil.
Qed.

Lemma confined_raise {A} names e : confined (D := D) (A := A) names (raise e).
Proof.
  intros s r s' [= <- <-]. exists []. rewrite app_nil_r.
  split; [done|]. split; [done|]. by intros e' ?%elem_of_nil.
Qed.

Lemma confined_bind {A B} names (m : M D A) (f : A → M D B) :
  confined names m → (∀ a, confined names (f a)) → confined names (m ≫= f).
Proof.
  intros Hm Hf s r s' H. apply bind_inv in H as [(a & s1 & Hm' & Hf') | (e & Hm' & ->)].
  - apply Hm in Hm' as (evs1 & Ht1 & H1 & Hx1).
    apply Hf in Hf' as (evs2 & Ht2 & H2 & Hx2).
    exists (evs1 ++ evs2). rewrite Ht2, Ht1, <- app_assoc. split; [done|].
    split; [by apply Forall_app|].
    intros e [Hin|Hin]%elem_of_app; [by apply Hx1 in Hin as [[=] _]|].
    apply Hx2 in Hin as [-> Hlast]. split; [done|]. by rewrite last_app, Hlast.
  - apply Hm in Hm' as (evs & Ht & Hn & Hx). exists evs.
    split; [done|]. split; [done|]. intros e0 Hin.
    by apply Hx in Hin as [[= ->] Hlast].
Qed.

Lemma confined_exec {A} names (p : prog D A) :
  calls_only names p → confined names (exec ext p).
Proof.
  intros Hp s r s' H. apply exec_inv in H as (evs & Ht & _ & H).
  exists evs. split; [done|]. split; [by eapply run_of_names|].
  intros e Hin. by apply (run_of_not_mapped _ _ _ _ H) in Hin.
Qed.

Lemma confined_call names c : callee c ∈ names → confined names (call_ ext c).
Proof. intros Hc. apply confined_exec. by split. Qed.

Lemma confined_Pool names p : confined (D := D) names (Pool p).
Proof.
  unfold Pool. destruct (p <? 1)%Z; [apply confined_raise | apply (confined_ret _ ())].
Qed.

Lemma calls_only_not_pool_map {A} names (p : prog D A) :
  calls_only names p → calls_only (filter (λ n, n ≠ "pool.map") names) p.
Proof.
  induction p as [| |c k IH]; simpl; [done..|]. intros [Hc Hk]. split.
  - apply list_elem_of_filter. split; [apply callee_not_pool_map | done].
  - intros x. by apply IH.
Qed.

Lemma confined_pool_map {A B} names (f : A → prog D B) (args : list A) :
  "pool.map" ∈ names → (∀ a, calls_only names (f a)) →
  confined names (pool_map ext f args).
Proof.
  intros Hmap Hf s r s' H. apply pool_map_inv in H as (evs & Ht & Hn & _).
  exists (evs ++ [Mapped (raised r)]). split; [done|]. split.
  - apply Forall_app. split; [by apply Hn | by repeat constructor].
  - intros e [Hin|Hin]%elem_of_app.
    + specialize (Hn _ (λ a, calls_only_not_pool_map _ _ (Hf a))).
      eapply Forall_forall in Hn; [|exact Hin].
      apply list_elem_of_filter in Hn as [Hn _]. by destruct Hn.
    + apply list_elem_of_singleton in Hin. rewrite last_snoc.
      destruct r; by inversion Hin.
Qed.

Lemma confined_global {A} names globals name (m : M D A) :
  (name ∈ globals → confined names m) → confined names (global globals name m).
Proof. intros Hm. unfold global. case_bool_decide; [by apply Hm | apply confined_raise]. Qed.

(** *** Stepping through the main process *)

Lemma Pool_inv p s r s' :
  Pool (D := D) p s = (r, s') → s' = s ∧ (r = Ok () ∨ r = Err ValueError).
Proof. unfold Pool. destruct (p <? 1)%Z; intros [= <- <-]; auto. Qed.

Lemma ret_inv {A} (a : A) s r s' : mret (M := M D) a s = (r, s') → r = Ok a ∧ s' = s.
Proof. by intros [= <- <-]. Qed.

Lemma raise_inv {A} e s (r : result A) s' : raise (D := D) e s = (r, s') → r = Err e ∧ s' = s.
Proof. by intros [= <- <-]. Qed.

Lemma launch_inv {A} (m : M D A) w ps r tr :
  launch m w ps = (r, tr) → ∃ s', m (State w [] ps) = (r, s') ∧ trace s' = tr.
Proof.
  unfold launch. destruct (m _) as [r0 s0]. intros [= <- <-]. by exists s0.
Qed.

End Reasoning.

(** Membership in, and inclusion of, explicit lists of names. *)
Ltac listed := apply list_elem_of_In; simpl; tauto.

Ltac unlisted H := exfalso; apply list_elem_of_In in H; simpl in H; intuition discriminate.

Ltac sublisted := intros ?; rewrite !list_elem_of_In; simpl; tauto.

(** One step in showing which calls a piece of code can make. *)
Ltac confined_step :=
  lazymatch goal with
  | |- confined ?names (call_ _ ?c) => apply (confined_call _ names c); listed
  | |- confined _ (Pool _) => apply confined_Pool
  | |- confined _ (mret _) => apply confined_ret
  | |- confined _ (raise _) => apply confined_raise
  | |- confined _ (global _ _ _) =>
      let H := fresh in apply confined_global; intros H; try unlisted H
  | |- confined _ (pool_map _ _ _) => apply confined_pool_map; [listed | intros ?]
  | |- confined _ (exec _ _) => apply confined_exec
  | |- confined _ (if ?b then _ else _) => destruct b
  | |- confined _ (_ ≫= _) => apply confined_bind; [|intros ?]
  end.

Ltac calls_only_step :=
  first
    [ apply item_calls | apply dict_get_calls | apply seq_get_calls | apply list_get_calls
    | apply calls_only_bind; [|intros ?]
    | apply calls_only_for; intros ?
    | apply calls_only_mapM; intros ?
    | progress simpl; split; [listed | intros ?]
    | match goal with |- calls_only _ (let '(_, _) := ?p in _) => destruct p end
    | exact I ].

Section Tasks.

Context {D : Domain}.
Variable ext : ∀ c : call D, World D → result (ret c) * World D.

Lemma process_sams_calls args :
  calls_only (D := D) sam_processing (process_sams args).
Proof.
  destruct args as [[sample_name intermediate_files] reference_assembly].
  unfold process_sams. repeat calls_only_step.
Qed.

Lemma analyze_depth_distribution_calls args :
  calls_only (D := D) depth_analysis (analyze_depth_distribution args).
Proof.
  destruct args as [[[index intermediate_files] reference_assembly] chrom_sizes].
  unfold analyze_depth_distribution. repeat calls_only_step.
Qed.

Lemma characterize_repeat_indel_rates_calls args :
  calls_only (D := D) repeat_fitting (characterize_repeat_indel_rates args).
Proof.
  destruct args as [[intermediate_files repeats] repeat_indel_header].
  unfold characterize_repeat_indel_rates. repeat calls_only_step.
Qed.

Lemma assign_strand_bias_std_calls names values (samples : list (Sample D)) :
  calls_only names (assign_strand_bias_std values samples).
Proof.
  revert samples. induction values as [|[i v] values IH]; intros samples; simpl; [done|].
  apply calls_only_bind; [apply list_get_calls | intros x; apply IH].
Qed.

Lemma align_all_calls reference_assembly p (samples : list (Sample D)) :
  calls_only ["bowtie2.align"] (align_all reference_assembly p samples).
Proof.
  apply calls_only_for. intros x. apply calls_only_for. intros [i fq].
  unfold align_group.
  destruct fq as [|f1 fq]; [|destruct fq as [|f2 fq]; [|destruct fq as [|f3 fq]]];
    repeat calls_only_step.
Qed.

End Tasks.

Ltac solve_confined :=
  repeat confined_step;
  first
    [ apply assign_strand_bias_std_calls
    | eapply calls_only_mono; [|apply align_all_calls]; sublisted
    | eapply calls_only_mono; [|apply process_sams_calls]; sublisted
    | eapply calls_only_mono; [|apply analyze_depth_distribution_calls]; sublisted
    | eapply calls_only_mono; [|apply characterize_repeat_indel_rates_calls]; sublisted
    | apply calls_only_mapM; intros ?; repeat calls_only_step ].

Section EntryPoints.

Context {D : Domain}.
Variable ext : ∀ c : call D, World D → result (ret c) * World D.

Lemma run_pipeline_confined reference_assembly fastq_list control_sample
    experiment_directory p excluded_regions :
  confined run_pipeline_callees
    (run_pipeline ext reference_assembly fastq_list control_sample
       experiment_directory p excluded_regions).
Proof.
  unfold run_pipeline. solve_confined.
Qed.

Lemma run_pipeline_phases reference_assembly fastq_list control_sample
    experiment_directory p excluded_regions s :
  run_pipeline ext reference_assembly fastq_list control_sample
    experiment_directory p excluded_regions s
  = (characterization ext reference_assembly fastq_list control_sample
       experiment_directory p
     ≫= aggregation ext reference_assembly experiment_directory excluded_regions) s.
Proof.
  unfold run_pipeline, characterization. cbv zeta.
  repeat
    match goal with
    | |- _ = ((?m ≫= ?f) ≫= ?g) ?s =>
        transitivity ((m ≫= λ a, f a ≫= g) s); [|apply bind_cut];
        apply bind_ext; intros ? ?
    end.
  reflexivity.
Qed.

Lemma characterization_confined reference_assembly fastq_list control_sample
    experiment_directory p :
  confined characterization_callees
    (characterization ext reference_assembly fastq_list control_sample
       experiment_directory p).
Proof. unfold characterization. solve_confined. Qed.


Lemma call_variants_confined reference_assembly control_sample sample_list input_vcf
    output_header chrom_sizes excluded_regions :
  confined call_variants_callees
    (call_variants ext reference_assembly control_sample sample_list input_vcf
       output_header chrom_sizes excluded_regions).
Proof. unfold call_variants. solve_confined. Qed.


Lemma call_variants_phases reference_assembly control_sample sample_list input_vcf
    output_header chrom_sizes excluded_regions s :
  call_variants ext reference_assembly control_sample sample_list input_vcf
    output_header chrom_sizes excluded_regions s
  = (preparation ext reference_assembly control_sample sample_list chrom_sizes
     ≫= reporting ext reference_assembly input_vcf output_header excluded_regions) s.
Proof.
  unfold call_variants, preparation. cbv zeta.
  repeat
    match goal with
    | |- _ = ((?m ≫= ?f) ≫= ?g) ?s =>
        transitivity ((m ≫= λ a, f a ≫= g) s); [|apply bind_cut];
        apply bind_ext; intros ? ?
    end.
  reflexivity.
Qed.

Lemma preparation_confined reference_assembly control_sample sample_list chrom_sizes :
  confined preparation_callees
    (preparation ext reference_assembly control_sample sample_list chrom_sizes).
Proof. unfold preparation. solve_confined. Qed.

Lemma reporting_confined reference_assembly input_vcf output_header excluded_regions
    prepared :
  confined reporting_callees
    (reporting ext reference_assembly input_vcf output_header excluded_regions prepared).
Proof.
  destruct prepared as [[control_sample samples] chrom_sizes].
  unfold reporting. solve_confined.
Qed.

End EntryPoints.

(** One statement of the main process: split [(x ← m; k) s = (r, s')] into what
    [m] did and, when [m] returned, what the rest did. *)
Ltac invert_prim E :=
  lazymatch type of E with
  | call_ _ ?c _ = _ =>
      let Ht := fresh "Ht" in
      apply (call_inv _ c) in E as [Ht _]
  | exec _ _ _ = _ =>
      let evs := fresh "evs" in let Ht := fresh "Ht" in let Hr := fresh "Hr" in
      apply exec_inv in E as (evs & Ht & _ & Hr)
  | pool_map _ _ _ _ = _ =>
      let evs := fresh "evs" in let Ht := fresh "Ht" in
      let Hn := fresh "Hn" in let Hc := fresh "Hc" in
      apply pool_map_inv in E as (evs & Ht & Hn & Hc)
  | Pool _ _ = _ =>
      let Hp := fresh "Hp" in
      apply Pool_inv in E as [-> Hp]
  | mret _ _ = _ => apply ret_inv in E as [? ->]
  | raise _ _ = _ => apply raise_inv in E as [? ->]
  | _ => idtac
  end.

(** What is left of an entry point only appends events of the given names. *)
Ltac rest_confined names H :=
  lazymatch type of H with
  | ?m _ = _ =>
      let Hc := fresh "Hc" in
      let evs := fresh "rest" in let Ht := fresh "Ht" in let Hn := fresh "Hn" in
      assert (Hc : confined names m) by solve_confined;
      apply Hc in H as (evs & Ht & Hn & _); clear Hc
  end.

Ltac invert_prim_as E a :=
  lazymatch type of E with
  | call_ _ ?c _ = _ =>
      let Ht := fresh "Ht_" a in
      apply (call_inv _ c) in E as [Ht _]
  | exec _ _ _ = _ =>
      let evs := fresh "evs_" a in let Ht := fresh "Ht_" a in let Hr := fresh "Hr_" a in
      apply exec_inv in E as (evs & Ht & _ & Hr)
  | pool_map _ _ _ _ = _ =>
      let evs := fresh "evs_" a in let Ht := fresh "Ht_" a in
      let Hn := fresh "Hn_" a in let Hc := fresh "Hc_" a in
      apply pool_map_inv in E as (evs & Ht & Hn & Hc)
  | Pool _ _ = _ =>
      let Hp := fresh "Hp" in
      apply Pool_inv in E as [-> Hp]
  | mret _ _ = _ => apply ret_inv in E as [? ->]
  | raise _ _ = _ => apply raise_inv in E as [? ->]
  | _ => idtac
  end.

Tactic Notation "forward" hyp(H) "as" ident(a) :=
  let E := fresh "E_" a in
  let s1 := fresh "s" in let e := fresh "e" in
  let Hr := fresh "Hr" in
  apply bind_inv in H as [(a & s1 & E & H) | (e & E & Hr)];
  [|first [discriminate Hr | subst]];
  invert_prim_as E a.

(** Where an event, or the events of a task, lie in a trace given as a
    concatenation. *)
Ltac in_app :=
  first
    [ eassumption
    | apply list_elem_of_here
    | apply elem_of_app; left; in_app
    | apply elem_of_app; right; in_app
    | apply list_elem_of_further; in_app ].

Ltac sub_app :=
  first
    [ reflexivity
    | apply sublist_inserts_r; sub_app
    | apply sublist_inserts_l; sub_app
    | apply sublist_cons; sub_app ].

(** Express the final trace from the initial one. *)
Ltac chain :=
  repeat
    match goal with
    | H : trace ?x = _ |- context [trace ?x] => rewrite H; clear H
    end;
  rewrite <- ?app_assoc.

Tactic Notation "forward" hyp(H) :=
  let E := fresh "E" in
  let a := fresh "a" in let s1 := fresh "s" in let e := fresh "e" in
  let Hr := fresh "Hr" in
  apply bind_inv in H as [(a & s1 & E & H) | (e & E & Hr)];
  [|first [discriminate Hr | subst]];
  invert_prim E.


Section Phases.

Context {D : Domain}.
Variable ext : ∀ c : call D, World D → result (ret c) * World D.

Implicit Types (s : state D) (evs : list (event D)).

Lemma dict_get_inv (d : gmap string ifile) key evs v :
  run_of (D := D) (dict_get d key) evs (Ok v) → evs = [] ∧ d !! key = Some v.
Proof.
  unfold dict_get. destruct (d !! key) as [v'|]; intros H; apply run_of_inv in H;
    [by destruct H as [-> [= ->]] | by destruct H as [_ [=]]].
Qed.

Lemma callp_inv (c : call D) evs x :
  run_of (callp c) evs (Ok x) → evs = [Ev c (Ok x)].
Proof.
  intros H. apply (run_of_inv (Call c _)) in H as [(y & evs' & -> & H) | (e & _ & [=])].
  by apply run_of_inv in H as [-> [= ->]].
Qed.

(** One statement of straight-line code that returned: [a] names what it
    returned. *)
Tactic Notation "returned" hyp(H) "as" simple_intropattern(a) :=
  let e1 := fresh "evs" in let e2 := fresh "evs" in
  let H1 := fresh "H" in
  apply run_of_bind in H as [(? & [=] & _) | (a & e1 & e2 & -> & H1 & H)];
  lazymatch type of H1 with
  | run_of (dict_get _ _) _ _ => apply dict_get_inv in H1 as [-> H1]
  | run_of (callp ?c) _ _ => apply (callp_inv c) in H1 as ->
  | _ => idtac
  end.

(** A depth analysis task that returns hands back the index it was given,
    with the standard deviation [calculate_bias_distribution_mpileup] answered
    on the files of its own dict. *)
Lemma analyze_depth_distribution_returns index (intermediate_files : gmap string ifile)
    reference_assembly (chrom_sizes : ChromSizes D) evs result :
  run_of (analyze_depth_distribution
            (index, intermediate_files, reference_assembly, chrom_sizes)) evs (Ok result) →
  result.1 = index ∧
  ∃ mpileup_out output other,
    intermediate_files !! "_mpileup_out" = Some mpileup_out ∧
    intermediate_files !! "strand_bias_distribution" = Some output ∧
    Ev (calculate_bias_distribution_mpileup mpileup_out reference_assembly output)
       (Ok (other, result.2)) ∈ evs.
Proof.
  unfold analyze_depth_distribution. intros H.
  returned H as bam. returned H as mpileup. returned H as [].
  returned H as mpileup2. returned H as output.
  returned H as [other strand_bias_std].
  returned H as bam2. returned H as bedgraph. returned H as [].
  returned H as mpileup3. returned H as depths.
  returned H as [mu sigma].
  returned H as mpileup4. returned H as sites. returned H as [].
  apply run_of_inv in H as [-> [= ->]]. split; [done|].
  exists mpileup2, output, other. simpl. split; [done|]. split; [done|].
  set_solver.
Qed.

(** Values that come back in the order of the samples, each with its index,
    are assigned each to its own sample. *)
Lemma assign_by_index (values : list (nat * Float D)) (samples : list (Sample D)) evs r :
  run_of (assign_strand_bias_std values samples) evs r →
  length values = length samples →
  (∀ i value, values !! i = Some value → value.1 = i) →
  evs = [] ∧
  ∃ samples', r = Ok samples' ∧ length samples' = length samples ∧
    ∀ i value, values !! i = Some value →
      samples' !! i = set_strand_bias_std value.2 <$> samples !! i.
Proof.
  intros H Hlen Hidx.
  assert (values.*1 = seq 0 (length samples)) as Hfst.
  { apply list_eq. intros i. rewrite list_lookup_fmap.
    destruct (values !! i) as [value|] eqn:Hi; simpl.
    - rewrite (Hidx _ _ Hi). symmetry. apply lookup_seq. split; [done|].
      rewrite <- Hlen. by eapply lookup_lt_Some.
    - symmetry. apply lookup_ge_None. rewrite length_seq, <- Hlen.
      by apply lookup_ge_None. }
  apply assign_strand_bias_std_inv in H as (-> & samples' & -> & Hl & Hin & _).
  - split; [done|]. exists samples'. repeat split; [done|].
    intros i [j v] Hi. apply Hin. apply list_elem_of_lookup. exists i.
    rewrite Hi. by rewrite <- (Hidx _ _ Hi).
  - rewrite Hfst. apply NoDup_seq.
  - apply Forall_forall. intros value [i Hi]%list_elem_of_lookup.
    rewrite (Hidx _ _ Hi), <- Hlen. by eapply lookup_lt_Some.
Qed.

(** What the characterization phase hands over when it returns: the control
    found in the manifest as it was read, and for every sample the fields
    assigned from the task that analysed this sample's files and from this
    sample's fits file. *)
Lemma characterization_inv reference_assembly fastq_list control_name
    experiment_directory p s control_sample samples chrom_sizes s' :
  characterization ext reference_assembly fastq_list control_name
    experiment_directory p s = (Ok (control_sample, samples, chrom_sizes), s') →
  ∃ evs, trace s' = trace s ++ evs ∧
    (∃ manifest,
       Ev (read_samples_from_text fastq_list (Some experiment_directory)) (Ok manifest) ∈ evs ∧
       control_sample = find_control manifest control_name) ∧
    ∀ i sample, samples !! i = Some sample →
      ∃ before names names' std repeats fits,
        sample = set_repeat_indel_fits_dict fits (set_strand_bias_std std before) ∧
        Ev (get_intermediate_file_names before) (Ok names) ∈ evs ∧
        completed_in evs
          (analyze_depth_distribution (i, names, reference_assembly, chrom_sizes))
          (i, std) ∧
        Ev (get_intermediate_file_names (set_strand_bias_std std before)) (Ok names') ∈ evs ∧
        completed_in evs
          (characterize_repeat_indel_rates (names', repeats, repeat_indel_header before))
          () ∧
        Ev (read_fits (repeat_indel_fits before)) (Ok fits) ∈ evs.
Proof.
  unfold characterization. intros H.
  forward H as indexed. forward H as u0.
  destruct indexed; simpl in E_u0.
  2:{ forward E_u0 as u. by apply raise_inv in E_u0 as [[=] _]. }
  apply ret_inv in E_u0 as [_ ->].
  forward H as u1. forward H as u2. forward H as manifest.
  forward H as ss1. forward H as u3. forward H as names1. forward H as u4.
  forward H as u5. forward H as sizes. forward H as names2. forward H as values.
  forward H as ss2. forward H as repeats. forward H as names3. forward H as u6.
  forward H as ss3.
  apply ret_inv in H as [[= -> -> ->] ->].
  chain. eexists. split; [reflexivity|]. split.
  { exists manifest. split; [in_app | done]. }
  intros i sample Hi.
  (* the loop over the fits files *)
  apply (run_of_mapM_call (λ x, read_fits (repeat_indel_fits x))
           (λ x f, set_repeat_indel_fits_dict f x)) with (bs := ss3) in Hr_ss3
    as [_ Hfits]; [|done].
  destruct (Forall2_lookup_r _ _ _ _ _ Hfits Hi) as (smp2 & Hs2 & fits & -> & Hfit).
  (* the third pool *)
  apply intermediate_file_names_inv in Hr_names3 as [_ Hn3].
  specialize (Hn3 _ eq_refl).
  destruct (Forall2_lookup_l _ _ _ _ _ Hn3 Hs2) as (names' & Hnames' & Hev3).
  specialize (Hc_u6 _ eq_refl).
  assert (((λ '(d, h), (d, repeats, h)) <$> zip names3 (repeat_indel_header <$> ss2)) !! i
          = Some (names', repeats, repeat_indel_header smp2)) as Hargs3.
  { rewrite list_lookup_fmap, lookup_zip_with, Hnames', list_lookup_fmap, Hs2. done. }
  destruct (Forall2_lookup_l _ _ _ _ _ Hc_u6 Hargs3) as ([] & _ & Hdone3).
  (* the second pool *)
  apply intermediate_file_names_inv in Hr_names2 as [_ Hn2].
  specialize (Hn2 _ eq_refl). specialize (Hc_values _ eq_refl).
  pose proof (Forall2_length _ _ _ Hn2) as Hlen_names.
  pose proof (Forall2_length _ _ _ Hc_values) as Hlen_values.
  rewrite length_fmap, length_zip_with, length_seq, <- Hlen_names, Nat.min_id
    in Hlen_values.
  assert (∀ j value, values !! j = Some value →
            ∃ names, names2 !! j = Some names ∧ value.1 = j ∧
              completed_in evs_values
                (analyze_depth_distribution (j, names, reference_assembly, sizes))
                value) as Hvalues.
  { intros j value Hj.
    destruct (Forall2_lookup_r _ _ _ _ _ Hc_values Hj) as (args & Hargs & Hdone).
    rewrite list_lookup_fmap, lookup_zip_with in Hargs.
    destruct (seq 0 (length ss1) !! j) as [j'|] eqn:Hseq; [|done].
    apply lookup_seq in Hseq as [-> _]. simpl in Hargs.
    destruct (names2 !! j) as [names|]; [|done]. injection Hargs as <-.
    exists names. split; [done|]. split; [|done].
    destruct Hdone as (tevs & Hrun & _).
    by apply analyze_depth_distribution_returns in Hrun as [-> _]. }
  apply assign_by_index in Hr_ss2 as (-> & ss2' & [= <-] & Hlen2 & Hassign);
    [|done|intros j value Hj; by destruct (Hvalues _ _ Hj) as (? & _ & ? & _)].
  assert (i < length values) as Hlt.
  { rewrite <- Hlen_values, <- Hlen2. by eapply lookup_lt_Some. }
  destruct (lookup_lt_is_Some_2 _ _ Hlt) as [[j std] Hvalue].
  destruct (Hvalues _ _ Hvalue) as (names & Hnames & Hj & Hdone2). simpl in Hj. subst j.
  specialize (Hassign _ _ Hvalue). rewrite Hs2 in Hassign. simpl in Hassign.
  destruct (ss1 !! i) as [before|] eqn:Hbefore; [|done]. injection Hassign as ->.
  destruct (Forall2_lookup_l _ _ _ _ _ Hn2 Hbefore) as (names_ & Hnames_ & Hev2).
  assert (names_ = names) as -> by congruence.
  exists before, names, names', std, repeats, fits. simpl in *.
  split; [done|]. split; [in_app|]. split.
  { eapply completed_in_mono; [|exact Hdone2]. sub_app. }
  split; [in_app|]. split; [|in_app].
  eapply completed_in_mono; [|exact Hdone3]. sub_app.
Qed.


(** What [call_variants] has done when it comes to construct the
    [VariantList]: it has read the manifest, created the indices, found the
    repeat file in place, and read the chromosome sizes from the file it was
    given or else from the reference. *)
Lemma preparation_inv reference_assembly control_name sample_list chrom_sizes
    s control_sample samples sizes s' :
  preparation ext reference_assembly control_name sample_list chrom_sizes s
  = (Ok (control_sample, samples, sizes), s') →
  control_sample = find_control samples control_name ∧
  ∃ read_sizes,
    trace s' = trace s ++
      [Ev (read_samples_from_text sample_list None) (Ok samples);
       Ev (create_reference_indices reference_assembly) (Ok ());
       Ev (path_exists (format1 ".repeats" (splitext reference_assembly).1)) (Ok true);
       read_sizes] ∧
    read_sizes =
      if truthy chrom_sizes
      then Ev (read_chrom_sizes_from_file (default "" chrom_sizes)) (Ok sizes)
      else Ev (read_chrom_sizes reference_assembly) (Ok sizes).
Proof.
  unfold preparation. intros H.
  forward H as manifest. forward H as u0. forward H as present. forward H as u1.
  destruct present; simpl in E_u1.
  2:{ unfold global in E_u1. case_bool_decide as Hin; [unlisted Hin|].
      by apply raise_inv in E_u1 as [[=] _]. }
  apply ret_inv in E_u1 as [_ ->].
  forward H as cs. apply ret_inv in H as [[= -> -> ->] ->].
  split; [done|]. destruct u0.
  destruct (truthy chrom_sizes); invert_prim_as E_cs cs;
    chain; eexists; (split; [reflexivity|done]).
Qed.

(** From the construction of the [VariantList] on, in [call_variants]. *)
Lemma reporting_inv reference_assembly input_vcf output_header excluded_regions
    control_sample samples chrom_sizes s r s' :
  reporting ext reference_assembly input_vcf output_header excluded_regions
    (control_sample, samples, chrom_sizes) s = (r, s') →
  ∃ rv post,
    trace s' = trace s ++
      Ev (VariantList input_vcf samples excluded_regions
            (format1 ".repeats" (splitext reference_assembly).1)
            control_sample chrom_sizes) rv :: post ∧
    Forall (named ["VariantList.write_output_table"; "VariantList.write_output_vcf"]) post ∧
    (r = Ok () →
     ∃ variants,
       rv = Ok variants ∧
       post =
         [Ev (write_output_table variants (format1 ".variants.txt" output_header)) (Ok ());
          Ev (write_output_vcf variants (format1 ".variants.vcf" output_header)) (Ok ())]).
Proof.
  unfold reporting. intros H. forward H as variants.
  - pose proof H as H'.
    rest_confined ["VariantList.write_output_table"; "VariantList.write_output_vcf"] H'.
    exists (Ok variants), rest. rewrite Ht, Ht_variants, <- app_assoc.
    split; [done|]. split; [done|].
    intros ->. forward H as u.
    apply (call_inv _ (write_output_vcf _ _)) in H as [Ht2 _].
    rewrite Ht2, Ht_u, Ht_variants, <- !app_assoc in Ht.
    apply app_inv_head in Ht as [= <-]. destruct u. by exists variants.
  - exists (Err e), []. rewrite Ht_variants. repeat split; [constructor | done].
Qed.

(** Two runs of one statement followed by different continuations. *)
Lemma bind_rel {A B} (R : result B * state D → result B * state D → Prop)
    (m : M D A) (f f' : A → M D B) s :
  (∀ e s1, R (Err e, s1) (Err e, s1)) →
  (∀ a s1, R (f a s1) (f' a s1)) →
  R ((m ≫= f) s) ((m ≫= f') s).
Proof.
  intros He Hf. unfold mbind, M_mbind, M_bind. destruct (m s) as [[a|e] s1]; auto.
Qed.

(** The name of the control sample has no part in the characterization phase
    other than in the control sample it hands over. *)
Lemma characterization_control reference_assembly fastq_list name name'
    experiment_directory p s :
  same_but_control
    (characterization ext reference_assembly fastq_list name experiment_directory p s)
    (characterization ext reference_assembly fastq_list name' experiment_directory p s).
Proof.
  unfold characterization. cbv zeta.
  repeat (apply bind_rel; [by intros; split | intros ? ?]).
  by split.
Qed.

Lemma preparation_control reference_assembly name name' sample_list chrom_sizes s :
  same_but_control
    (preparation ext reference_assembly name sample_list chrom_sizes s)
    (preparation ext reference_assembly name' sample_list chrom_sizes s).
Proof.
  unfold preparation. cbv zeta.
  repeat (apply bind_rel; [by intros; split | intros ? ?]).
  by split.
Qed.

Lemma find_control_absent (samples : list (Sample D)) name :
  name ∉ sample_name <$> samples → find_control samples name = None.
Proof.
  intros Hnot. unfold find_control.
  destruct (list_find _ samples) as [[i x]|] eqn:Hfind; [|done].
  apply list_find_Some in Hfind as (Hi & Hname & _). destruct Hnot.
  apply list_elem_of_fmap. exists x. split; [done | by eapply list_elem_of_lookup_2].
Qed.

Lemma manifest_read_elem sample_list exp_dir (manifest : list (Sample D)) evs :
  Ev (read_samples_from_text sample_list exp_dir) (Ok manifest) ∈ evs →
  manifest ∈ manifests_read evs.
Proof.
  intros Hin. apply list_elem_of_omap.
  by exists (Ev (read_samples_from_text sample_list exp_dir) (Ok manifest)).
Qed.

(** *** The alignment loop *)

Lemma calls_app evs1 evs2 : calls (evs1 ++ evs2) = calls evs1 ++ calls evs2.
Proof. apply omap_app. Qed.





(** *** Reading the chromosome sizes from a file or from the reference *)







(** From the construction of the [VariantList] on: the constructor call comes
    first, and when the phase returns, what follows is the table, the VCF,
    one call per sample that clears its temporary files, and the sample info
    file. *)
Lemma aggregation_inv reference_assembly experiment_directory excluded_regions
    control_sample samples chrom_sizes s r s' :
  aggregation ext reference_assembly experiment_directory excluded_regions
    (control_sample, samples, chrom_sizes) s = (r, s') →
  ∃ rv post,
    trace s' = trace s ++
      Ev (VariantList
            (join experiment_directory ["gatk_output"; "haplotype_caller_output.vcf"])
            samples excluded_regions
            (format1 ".repeats" (splitext reference_assembly).1)
            control_sample chrom_sizes) rv :: post ∧
    Forall (named ["VariantList.write_output_table"; "VariantList.write_output_vcf";
                   "Sample.clear_temp_file_indices"; "write_sample_info_file"]) post ∧
    (r = Ok () →
     ∃ variants clears cleared,
       rv = Ok variants ∧
       post =
         Ev (write_output_table variants
               (join experiment_directory ["output"; "mutations.txt"])) (Ok ())
         :: Ev (write_output_vcf variants
                  (join experiment_directory ["output"; "mutations.vcf"])) (Ok ())
         :: clears ++
            [Ev (write_sample_info_file cleared
                   (join experiment_directory ["sample_info.txt"])) (Ok ())] ∧
       Forall2 (λ sample e, ∃ x, e = Ev (clear_temp_file_indices sample) (Ok x))
         samples clears ∧
       length cleared = length samples).
Proof.
  unfold aggregation. intros H. forward H.
  - pose proof H as H'.
    rest_confined ["VariantList.write_output_table"; "VariantList.write_output_vcf";
                   "Sample.clear_temp_file_indices"; "write_sample_info_file"] H'.
    exists (Ok a), rest. rewrite Ht0, Ht, <- app_assoc. split; [done|]. split; [done|].
    intros ->. forward H. forward H. forward H.
    apply (call_inv _ (write_sample_info_file _ _)) in H as [Ht4 _].
    rewrite Ht4, Ht3, Ht2, Ht1, Ht, <- !app_assoc in Ht0.
    apply app_inv_head in Ht0 as [= <-].
    destruct a0, a1.
    apply (run_of_mapM_call clear_temp_file_indices (λ _ x, x)) with (bs := a2) in Hr
      as [Hcalls Hall]; [|done].
    exists a, evs, a2. repeat split; [done|]. symmetry. by eapply Forall2_length.
  - exists (Err e), []. rewrite Ht. repeat split; [constructor | done].
Qed.

End Phases.

(** Names that exclude each other. *)
Ltac disjoint_names :=
  let e := fresh "e" in let He := fresh "He" in let Hbad := fresh "Hbad" in
  intros e He Hbad; unfold named in He, Hbad;
  apply list_elem_of_In in He; apply list_elem_of_In in Hbad;
  simpl in He, Hbad;
  repeat (destruct Hbad as [Hbad|Hbad]; [rewrite <- Hbad in He; intuition discriminate|]);
  exact Hbad.

Section Observations.

Context {D : Domain}.

Implicit Types (evs : list (event D)).

Lemma no_table_written names evs :
  Forall (named names) evs → "VariantList.write_output_table" ∉ names →
  written_tables evs = [].
Proof.
  intros Hall Hnot. induction Hall as [|e evs He _ IH]; [done|].
  unfold written_tables in *. change (e :: evs) with ([e] ++ evs).
  rewrite omap_app, IH, app_nil_r.
  destruct e as [c r|]; [|done]. simpl. destruct (is_ok r); [|done].
  by destruct c.
Qed.

Lemma no_vcf_written names evs :
  Forall (named names) evs → "VariantList.write_output_vcf" ∉ names →
  written_vcfs evs = [].
Proof.
  intros Hall Hnot. induction Hall as [|e evs He _ IH]; [done|].
  unfold written_vcfs in *. change (e :: evs) with ([e] ++ evs).
  rewrite omap_app, IH, app_nil_r.
  destruct e as [c r|]; [|done]. simpl. destruct (is_ok r); [|done].
  by destruct c.
Qed.

Lemma written_tables_cons e evs :
  written_tables (e :: evs) = option_list (table_written e) ++ written_tables evs.
Proof. unfold written_tables. simpl. by destruct (table_written e). Qed.

Lemma written_vcfs_cons e evs :
  written_vcfs (e :: evs) = option_list (vcf_written e) ++ written_vcfs evs.
Proof. unfold written_vcfs. simpl. by destruct (vcf_written e). Qed.

Lemma written_tables_app evs1 evs2 :
  written_tables (evs1 ++ evs2) = written_tables evs1 ++ written_tables evs2.
Proof. apply omap_app. Qed.

Lemma written_vcfs_app evs1 evs2 :
  written_vcfs (evs1 ++ evs2) = written_vcfs evs1 ++ written_vcfs evs2.
Proof. apply omap_app. Qed.

Lemma substring_all (s : string) : String.substring 0 (String.length s) s = s.
Proof. induction s as [|a s IH]; simpl; [done | by rewrite IH]. Qed.

Lemma substring_skip (x s : string) n :
  String.substring (String.length x) n (x +:+ s) = String.substring 0 n s.
Proof. induction x as [|a x IH]; simpl; [done | apply IH]. Qed.

Lemma length_append (x s : string) :
  String.length (x +:+ s) = (String.length x + String.length s)%nat.
Proof. induction x as [|a x IH]; simpl; [done | by rewrite IH]. Qed.

(** ['{}<suffix>'.format(x)] ends in the suffix. *)
Lemma endswith_format1 (suffix x : string) : endswith (format1 suffix x) suffix = true.
Proof.
  unfold endswith, format1. rewrite length_append.
  replace (String.length x + String.length suffix - String.length suffix)%nat
    with (String.length x) by lia.
  rewrite substring_skip, substring_all, String.eqb_refl.
  rewrite andb_true_r. apply Nat.leb_le. lia.
Qed.

End Observations.

(** ** Exceptions are not handled

    Neither file has a [try]: whatever a call raises ends the run, and what a
    call of a worker task raises reaches the main process through
    [pool.map]. *)

Section Unhandled.

Context {D : Domain}.
Variable ext : ∀ c : call D, World D → result (ret c) * World D.

Implicit Types (s : state D) (evs : list (event D)).












End Unhandled.


Section Propagation.

Context {D : Domain}.
Variable ext : ∀ c : call D, World D → result (ret c) * World D.


End Propagation.

(** * The claims *)

Section Claims.

Context {D : Domain}.
Variable ext : ∀ c : call D, World D → result (ret c) * World D.

Variables reference_assembly control_sample : string.

(** C2 (as amended).  On a reference that lacks its indices
    ([check_reference_indices] answers false), [run_pipeline] makes two calls
    and no more: the check, and the directive to run "muver index_reference"
    on the standard error stream; it ends with the exit raised after the
    directive (or with what writing the directive raised).  [call_variants]
    neither checks nor prints the directive: once the manifest is read it
    calls [create_reference_indices] itself and goes on. *)
Theorem C2_reference_not_indexed fastq_list experiment_directory p
    sample_list input_vcf output_header chrom_sizes excluded_regions w ps :
  (ext (check_reference_indices reference_assembly) w).1 = Ok false →
  aborted_with_directive reference_assembly
    (launch (run_pipeline ext reference_assembly fastq_list control_sample
               experiment_directory p excluded_regions) w ps) ∧
  indexes_by_itself reference_assembly sample_list
    (launch (call_variants ext reference_assembly control_sample sample_list
               input_vcf output_header chrom_sizes excluded_regions) w ps).2.
Proof.
  unfold aborted_with_directive, indexes_by_itself. intros Hcheck. split.
  - unfold launch, run_pipeline, mbind, M_mbind, M_bind, call_. simpl.
    unfold perform. simpl.
    destruct (ext (check_reference_indices reference_assembly) w) as [r0 w0].
    simpl in Hcheck. subst r0. simpl.
    destruct (ext (stderr_write not_indexed_message) w0) as [[[]|e] w1]; simpl.
    + exists (Ok ()), SystemExit. done.
    + exists (Err e), e. done.
  - destruct (launch _ w ps) as [r tr] eqn:H. simpl.
    apply launch_inv in H as (s' & H & <-). split.
    + apply call_variants_confined in H as (evs & -> & Hn & _). simpl.
      eapply Forall_impl; [exact Hn|]. intros e He Hbad.
      apply list_elem_of_In in He, Hbad. simpl in He, Hbad.
      destruct Hbad as [Hbad|[Hbad|[]]]; rewrite <- Hbad in He; intuition discriminate.
    + unfold call_variants in H. forward H.
      * forward H.
        -- rest_confined call_variants_callees H.
           right. rewrite Ht1, Ht0, Ht. simpl. eauto.
        -- right. rewrite Ht0, Ht. simpl. eauto.
      * left. exists e. by rewrite Ht.
Qed.

(** C9.  When [run_pipeline] returns, the last thing it did was to write the
    sample info file, [sample_info.txt] in the experiment directory.  Before
    that, in this order: the [VariantList] was constructed, the table and the
    VCF were written, and [clear_temp_file_indices] was called once on every
    sample.  Nothing earlier in the run writes an output artifact. *)
Theorem C9_sample_info_file_written_last fastq_list experiment_directory p
    excluded_regions w ps :
  let run := launch (run_pipeline ext reference_assembly fastq_list control_sample
                       experiment_directory p excluded_regions) w ps in
  run.1 = Ok () →
  sample_info_written_last experiment_directory excluded_regions run.2.
Proof.
  unfold sample_info_written_last.
  destruct (launch _ w ps) as [r tr] eqn:H. simpl. intros ->.
  apply launch_inv in H as (s' & H & <-). rewrite run_pipeline_phases in H.
  apply bind_inv in H as [([[control samples] sizes] & s1 & Hc & Ha) | (e & _ & [=])].
  apply characterization_confined in Hc as (before & Ht1 & Hn1 & _).
  apply aggregation_inv in Ha as (rv & post & Ht2 & _ & Hok).
  destruct (Hok eq_refl) as (variants & clears & cleared & -> & -> & Hcalls & Hlen).
  exists before. do 5 eexists. exists variants, clears, cleared.
  rewrite Ht2, Ht1. simpl. split; [reflexivity|]. split; [|done].
  eapply Forall_impl; [exact Hn1|]. disjoint_names.
Qed.

(** C4 (as amended).  When [call_variants] returns it has written exactly one
    table, [<output_header>.variants.txt], and exactly one VCF,
    [<output_header>.variants.vcf].  When [run_pipeline] returns it has written
    exactly one table, [output/mutations.txt] in the experiment directory, and
    exactly one VCF, [output/mutations.vcf] there. *)
Theorem C4_output_file_names fastq_list experiment_directory p sample_list input_vcf
    output_header chrom_sizes excluded_regions w ps :
  (let run := launch (call_variants ext reference_assembly control_sample sample_list
                        input_vcf output_header chrom_sizes excluded_regions) w ps in
   run.1 = Ok () →
   written_tables run.2 = [output_header +:+ ".variants.txt"] ∧
   written_vcfs run.2 = [output_header +:+ ".variants.vcf"] ∧
   endswith (output_header +:+ ".variants.txt") ".variants.txt" = true ∧
   endswith (output_header +:+ ".variants.vcf") ".variants.vcf" = true) ∧
  (let run := launch (run_pipeline ext reference_assembly fastq_list control_sample
                        experiment_directory p excluded_regions) w ps in
   run.1 = Ok () →
   written_tables run.2 = [join experiment_directory ["output"; "mutations.txt"]] ∧
   written_vcfs run.2 = [join experiment_directory ["output"; "mutations.vcf"]]).
Proof.
  split.
  - destruct (launch _ w ps) as [r tr] eqn:H. simpl. intros ->.
    apply launch_inv in H as (s' & H & <-). rewrite call_variants_phases in H.
    apply bind_inv in H as [([[control samples] sizes] & s1 & Hc & Ha) | (e & _ & [=])].
    apply preparation_confined in Hc as (before & Ht1 & Hn1 & _).
    apply reporting_inv in Ha as (rv & post & Ht2 & _ & Hok).
    destruct (Hok eq_refl) as (variants & -> & ->).
    rewrite Ht2, Ht1. simpl.
    rewrite written_tables_app, written_vcfs_app.
    rewrite (no_table_written _ _ Hn1), (no_vcf_written _ _ Hn1)
      by (intros Hin; unlisted Hin).
    split; [done|]. split; [done|].
    split; [apply (endswith_format1 ".variants.txt")
                  |apply (endswith_format1 ".variants.vcf")].
  - destruct (launch _ w ps) as [r tr] eqn:H. simpl. intros ->.
    apply launch_inv in H as (s' & H & <-). rewrite run_pipeline_phases in H.
    apply bind_inv in H as [([[control samples] sizes] & s1 & Hc & Ha) | (e & _ & [=])].
    apply characterization_confined in Hc as (before & Ht1 & Hn1 & _).
    apply aggregation_inv in Ha as (rv & post & Ht2 & Hn2 & Hok).
    destruct (Hok eq_refl) as (variants & clears & cleared & -> & -> & Hcalls & Hlen).
    apply Forall_cons in Hn2 as [_ Hn2]. apply Forall_cons in Hn2 as [_ Hn2].
    apply Forall_app in Hn2 as [Hn2 _].
    assert (Forall (named ["Sample.clear_temp_file_indices"]) clears) as Hclears.
    { clear -Hcalls. induction Hcalls as [|x e samples clears [y ->] _ IH];
        constructor; [listed | done]. }
    rewrite Ht2, Ht1. simpl.
    rewrite ?written_tables_app, ?written_tables_cons, ?written_tables_app.
    rewrite ?written_vcfs_app, ?written_vcfs_cons, ?written_vcfs_app.
    rewrite (no_table_written _ _ Hn1), (no_vcf_written _ _ Hn1)
      by (intros Hin; unlisted Hin).
    rewrite (no_table_written _ _ Hclears), (no_vcf_written _ _ Hclears)
      by (intros Hin; unlisted Hin).
    done.
Qed.


(** The run of [run_pipeline] up to the construction of the [VariantList],
    when the trace shows one: the characterization phase returned, and the
    constructor call is what came next. *)
Lemma reaches_aggregation fastq_list experiment_directory p excluded_regions w ps :
  let run := launch (run_pipeline ext reference_assembly fastq_list control_sample
                       experiment_directory p excluded_regions) w ps in
  "VariantList" ∈ ev_name <$> run.2 →
  ∃ s1 control samples chrom_sizes answer after,
    characterization ext reference_assembly fastq_list control_sample
      experiment_directory p (State w [] ps)
    = (Ok (control, samples, chrom_sizes), s1) ∧
    run.2 =
      trace s1
      ++ Ev (VariantList
               (join experiment_directory ["gatk_output"; "haplotype_caller_output.vcf"])
               samples excluded_regions
               (format1 ".repeats" (splitext reference_assembly).1)
               control chrom_sizes) answer
      :: after ∧
    Forall (λ e, ¬ named ["VariantList"] e) (trace s1) ∧
    Forall (λ e, ¬ named worker_calls e) after.
Proof.
  destruct (launch _ w ps) as [r tr] eqn:H. simpl.
  apply launch_inv in H as (s' & H & <-). rewrite run_pipeline_phases in H.
  apply bind_inv in H as [([[control samples] sizes] & s1 & Hc & Ha) | (e' & Hc & ->)].
  - intros _. exists s1, control, samples, sizes.
    pose proof Hc as Hc'.
    apply characterization_confined in Hc' as (before & Ht1 & Hn1 & _).
    apply aggregation_inv in Ha as (rv & post & Ht2 & Hn2 & _).
    exists rv, post. split; [done|]. split; [done|]. split.
    + rewrite Ht1. simpl. eapply Forall_impl; [exact Hn1|]. disjoint_names.
    + eapply Forall_impl; [exact Hn2|]. disjoint_names.
  - apply characterization_confined in Hc as (before & Ht1 & Hn1 & _).
    rewrite Ht1. simpl. intros (ev & Hname & Hin)%list_elem_of_fmap.
    eapply Forall_forall in Hn1; [|exact Hin]. unfold named in Hn1.
    rewrite <- Hname in Hn1. unlisted Hn1.
Qed.

(** C6.  When [run_pipeline] comes to construct the [VariantList], every
    sample it passes has had its depth analysis task and its repeat indel
    fitting task run to their end, and has the results in its fields; the
    tasks lie entirely before the constructor call in the trace.  No call of a
    worker task happens from the constructor call on. *)
Theorem C6_barrier_before_aggregation fastq_list experiment_directory p
    excluded_regions w ps :
  let run := launch (run_pipeline ext reference_assembly fastq_list control_sample
                       experiment_directory p excluded_regions) w ps in
  "VariantList" ∈ ev_name <$> run.2 →
  characterized_before_aggregation reference_assembly excluded_regions run.2.
Proof.
  intros run Hreach. unfold characterized_before_aggregation.
  destruct (reaches_aggregation _ _ _ _ _ _ Hreach)
    as (s1 & control & samples & sizes & rv & post & Hc & Hrun & Hbefore & Hafter).
  apply characterization_inv in Hc as (evs & Ht & _ & Hsamples). simpl in Ht.
  exists (trace s1). do 2 eexists. exists (format1 ".repeats" (splitext reference_assembly).1).
  exists control, sizes, rv, post.
  split; [exact Hrun|]. split; [done|]. split; [done|].
  intros i sample Hi.
  destruct (Hsamples _ _ Hi)
    as (own & names & names' & std & repeats & fits & -> & _ & Hdone2 & _ & Hdone3 & _).
  rewrite Ht. split.
  - by exists names, std.
  - exists names', repeats. split; [exact Hdone3 | by eexists].
Qed.


(** C3 (as amended).  The name of the control sample decides nothing but the
    control sample handed to the [VariantList] constructor.  When the name is
    not in the manifest that was read, the run and the run with any other
    control name are the same run up to the constructor call: either both end
    before it, with the same exception after the same calls, or both reach
    it, and the constructor is passed [None] as control sample. *)
Theorem C3_missing_control_is_passed_as_None other_name fastq_list
    experiment_directory p sample_list input_vcf output_header chrom_sizes
    excluded_regions w ps :
  (let run := launch (call_variants ext reference_assembly control_sample sample_list
                        input_vcf output_header chrom_sizes excluded_regions) w ps in
   let run' := launch (call_variants ext reference_assembly other_name sample_list
                         input_vcf output_header chrom_sizes excluded_regions) w ps in
   Forall (λ manifest, control_sample ∉ sample_name <$> manifest) (manifests_read run.2) →
   same_until_constructed excluded_regions run run') ∧
  (let run := launch (run_pipeline ext reference_assembly fastq_list control_sample
                        experiment_directory p excluded_regions) w ps in
   let run' := launch (run_pipeline ext reference_assembly fastq_list other_name
                         experiment_directory p excluded_regions) w ps in
   Forall (λ manifest, control_sample ∉ sample_name <$> manifest) (manifests_read run.2) →
   same_until_constructed excluded_regions run run').
Proof.
  split.
  - destruct (launch (call_variants _ _ control_sample _ _ _ _ _) w ps)
      as [r tr] eqn:H1.
    destruct (launch (call_variants _ _ other_name _ _ _ _ _) w ps) as [r' tr'] eqn:H2.
    unfold same_until_constructed. simpl. intros Habsent.
    apply launch_inv in H1 as (s1' & H1 & <-). apply launch_inv in H2 as (s2' & H2 & <-).
    rewrite call_variants_phases in H1, H2.
    pose proof (preparation_control ext reference_assembly control_sample other_name
                  sample_list chrom_sizes (State w [] ps)) as [Hs Hr].
    apply bind_inv in H1 as [([[c ss] cs] & s1 & Hc & Ha) | (e & Hc & ->)];
      apply bind_inv in H2 as [([[c' ss'] cs'] & s2 & Hc' & Ha') | (e' & Hc' & ->)];
      rewrite Hc, Hc' in Hs, Hr; simpl in Hs, Hr; try done.
    + destruct Hr as [<- <-]. subst s2. right.
      pose proof Hc as Hconf.
      apply preparation_confined in Hconf as (before & Ht & Hn & _). simpl in Ht.
      apply preparation_inv in Hc as [-> (read_sizes & Ht' & _)]. simpl in Ht'.
      apply reporting_inv in Ha as (rv & post & Hta & _).
      apply reporting_inv in Ha' as (rv' & post' & Hta' & _).
      rewrite find_control_absent in Hta.
      2:{ eapply Forall_forall in Habsent; [exact Habsent|].
          apply (manifest_read_elem sample_list None). rewrite Hta, Ht'. in_app. }
      exists (trace s1). do 4 eexists. exists c', rv, rv', post, post'.
      split; [exact Hta|]. split; [exact Hta'|].
      rewrite Ht. eapply Forall_impl; [exact Hn|]. disjoint_names.
    + subst e' s2'. left. split; [done|].
      apply preparation_confined in Hc as (before & -> & Hn & _). simpl.
      intros (ev & Hname & Hin)%list_elem_of_fmap.
      eapply Forall_forall in Hn; [|exact Hin]. unfold named in Hn.
      rewrite <- Hname in Hn. unlisted Hn.
  - destruct (launch (run_pipeline _ _ _ control_sample _ _ _) w ps) as [r tr] eqn:H1.
    destruct (launch (run_pipeline _ _ _ other_name _ _ _) w ps) as [r' tr'] eqn:H2.
    unfold same_until_constructed. simpl. intros Habsent.
    apply launch_inv in H1 as (s1' & H1 & <-). apply launch_inv in H2 as (s2' & H2 & <-).
    rewrite run_pipeline_phases in H1, H2.
    pose proof (characterization_control ext reference_assembly fastq_list control_sample
                  other_name experiment_directory p (State w [] ps)) as [Hs Hr].
    apply bind_inv in H1 as [([[c ss] cs] & s1 & Hc & Ha) | (e & Hc & ->)];
      apply bind_inv in H2 as [([[c' ss'] cs'] & s2 & Hc' & Ha') | (e' & Hc' & ->)];
      rewrite Hc, Hc' in Hs, Hr; simpl in Hs, Hr; try done.
    + destruct Hr as [<- <-]. subst s2. right.
      pose proof Hc as Hconf.
      apply characterization_confined in Hconf as (before & Ht & Hn & _). simpl in Ht.
      apply characterization_inv in Hc as (evs & Ht' & (manifest & Hread & ->) & _).
      simpl in Ht'.
      apply aggregation_inv in Ha as (rv & post & Hta & _).
      apply aggregation_inv in Ha' as (rv' & post' & Hta' & _).
      rewrite find_control_absent in Hta.
      2:{ eapply Forall_forall in Habsent; [exact Habsent|].
          apply (manifest_read_elem fastq_list (Some experiment_directory)).
          rewrite Hta, Ht'. in_app. }
      exists (trace s1). do 4 eexists. exists c', rv, rv', post, post'.
      split; [exact Hta|]. split; [exact Hta'|].
      rewrite Ht. eapply Forall_impl; [exact Hn|]. disjoint_names.
    + subst e' s2'. left. split; [done|].
      apply characterization_confined in Hc as (before & -> & Hn & _). simpl.
      intros (ev & Hname & Hin)%list_elem_of_fmap.
      eapply Forall_forall in Hn; [|exact Hin]. unfold named in Hn.
      rewrite <- Hname in Hn. unlisted Hn.
Qed.




(** [run_pipeline] never looks for the repeat file and never builds it, and
    [call_variants] never builds it either: where it would, the name
    [create_repeat_file] is not bound in its module. *)
Lemma repeat_file_never_built fastq_list experiment_directory p sample_list input_vcf
    output_header chrom_sizes excluded_regions w ps :
  Forall (λ e, ¬ named ["os.path.exists"; "create_repeat_file"] e)
    (launch (run_pipeline ext reference_assembly fastq_list control_sample
               experiment_directory p excluded_regions) w ps).2 ∧
  Forall (λ e, ¬ named ["create_repeat_file"] e)
    (launch (call_variants ext reference_assembly control_sample sample_list
               input_vcf output_header chrom_sizes excluded_regions) w ps).2.
Proof.
  split.
  - destruct (launch _ w ps) as [r tr] eqn:H. simpl.
    apply launch_inv in H as (s' & H & <-).
    apply run_pipeline_confined in H as (evs & -> & Hn & _). simpl.
    eapply Forall_impl; [exact Hn|]. disjoint_names.
  - destruct (launch _ w ps) as [r tr] eqn:H. simpl.
    apply launch_inv in H as (s' & H & <-).
    apply call_variants_confined in H as (evs & -> & Hn & _). simpl.
    eapply Forall_impl; [exact Hn|]. disjoint_names.
Qed.

End Claims.

(** * The claims in the small world *)

(** A position of a concrete trace, by its name. *)
Ltac at_position := repeat (first [left; reflexivity | right]).
Ltac shown := apply list_elem_of_In; vm_compute; at_position.
Ltac not_shown :=
  let H := fresh in
  vm_compute; intros H; apply list_elem_of_In in H; simpl in H; intuition discriminate.

(** C1 (the code does not do it).  With the reference indexed and no repeat
    file on disk, [run_pipeline] goes all the way to [read_repeats], which
    fails on the missing file: it has not looked for the file nor built it.
    In the same situation [call_variants] looks for the file, finds none, and
    stops on the unbound name [create_repeat_file]. *)
Theorem C1_repeat_file_not_ensured :
  let run := launch (run_pipeline Lab.ext "ref.fa" "fastqs.txt" "ctl" "exp" 1 None)
               (Lab.disk true []) [] in
  let run' := launch (call_variants Lab.ext "ref.fa" "ctl" "samples.txt" "calls.vcf"
                        "out" None None)
                (Lab.disk true []) [] in
  (run.1 = Err (Failure "IOError") ∧
   last (ev_name <$> run.2) = Some "read_repeats" ∧
   ("os.path.exists" ∉ ev_name <$> run.2) ∧
   ("create_repeat_file" ∉ ev_name <$> run.2)) ∧
  (run'.1 = Err (NameError "create_repeat_file") ∧
   ev_name <$> run'.2 =
     ["read_samples_from_text"; "reference.create_reference_indices"; "os.path.exists"]).
Proof.
  intros run run'. split; [split; [|split; [|split]]|split].
  - by vm_compute.
  - by vm_compute.
  - not_shown.
  - not_shown.
  - by vm_compute.
  - by vm_compute.
Qed.

(** C2, the claim as stated fails for [call_variants]: on a reference that
    lacks its indices it does not abort; it creates the indices and runs to
    its end. *)
Lemma C2_call_variants_does_not_abort :
  let w := Lab.disk false ["ref.repeats"] in
  let run := launch (call_variants Lab.ext "ref.fa" "ctl" "samples.txt" "calls.vcf"
                       "out" None None) w [] in
  (Lab.ext (check_reference_indices "ref.fa") w).1 = Ok false ∧
  run.1 = Ok () ∧
  ev_name <$> run.2 =
    ["read_samples_from_text"; "reference.create_reference_indices"; "os.path.exists";
     "reference.read_chrom_sizes"; "VariantList"; "VariantList.write_output_table";
     "VariantList.write_output_vcf"].
Proof. by vm_compute. Qed.

Lemma C2_reference_not_indexed_witness :
  let w := Lab.disk false ["ref.repeats"] in
  (Lab.ext (check_reference_indices "ref.fa") w).1 = Ok false ∧
  aborted_with_directive "ref.fa"
    (launch (run_pipeline Lab.ext "ref.fa" "fastqs.txt" "ctl" "exp" 1 None) w []) ∧
  indexes_by_itself "ref.fa" "samples.txt"
    (launch (call_variants Lab.ext "ref.fa" "ctl" "samples.txt" "calls.vcf" "out"
               None None) w []).2.
Proof.
  intros w. split; [reflexivity|].
  apply (C2_reference_not_indexed Lab.ext "ref.fa" "ctl" "fastqs.txt" "exp" 1
           "samples.txt" "calls.vcf" "out" None None w []).
  reflexivity.
Defined.

(** C3, the claim as stated fails: with a control name that no sample of the
    manifest bears, [call_variants] runs to its end, and so does
    [run_pipeline]; the [VariantList] is constructed with no control
    sample. *)
Lemma C3_missing_control_does_not_abort :
  let w := Lab.disk true ["ref.repeats"] in
  let run := launch (call_variants Lab.ext "ref.fa" "nobody" "samples.txt" "calls.vcf"
                       "out" None None) w [] in
  let run' := launch (run_pipeline Lab.ext "ref.fa" "fastqs.txt" "nobody" "exp" 1 None)
                w [] in
  ("nobody" ∉ fst <$> Lab.cohort) ∧
  (run.1 = Ok () ∧ controls_passed run.2 = [None] ∧
   written_tables run.2 = ["out.variants.txt"]) ∧
  (run'.1 = Ok () ∧ controls_passed run'.2 = [None] ∧
   written_tables run'.2 = ["exp/output/mutations.txt"]).
Proof.
  intros w run run'. split; [not_shown|]. by vm_compute.
Qed.

Lemma C3_missing_control_witness :
  let w := Lab.disk true ["ref.repeats"] in
  let run := launch (call_variants Lab.ext "ref.fa" "nobody" "samples.txt" "calls.vcf"
                       "out" None None) w [] in
  let run' := launch (call_variants Lab.ext "ref.fa" "ctl" "samples.txt" "calls.vcf"
                        "out" None None) w [] in
  let run2 := launch (run_pipeline Lab.ext "ref.fa" "fastqs.txt" "nobody" "exp" 1 None)
                w [] in
  let run2' := launch (run_pipeline Lab.ext "ref.fa" "fastqs.txt" "ctl" "exp" 1 None)
                 w [] in
  (Forall (λ manifest, "nobody" ∉ sample_name <$> manifest) (manifests_read run.2) ∧
   same_until_constructed None run run') ∧
  (Forall (λ manifest, "nobody" ∉ sample_name <$> manifest) (manifests_read run2.2) ∧
   same_until_constructed None run2 run2').
Proof.
  intros w run run' run2 run2'.
  assert (Forall (λ manifest : list (Sample Lab.lab), "nobody" ∉ sample_name <$> manifest)
            (manifests_read run.2)) as H1.
  { vm_compute. repeat constructor. not_shown. }
  assert (Forall (λ manifest : list (Sample Lab.lab), "nobody" ∉ sample_name <$> manifest)
            (manifests_read run2.2)) as H2.
  { vm_compute. repeat constructor. not_shown. }
  split; (split; [assumption|]).
  - exact (proj1 (C3_missing_control_is_passed_as_None Lab.ext "ref.fa" "nobody" "ctl"
                    "fastqs.txt" "exp" 1 "samples.txt" "calls.vcf" "out" None None w [])
             H1).
  - exact (proj2 (C3_missing_control_is_passed_as_None Lab.ext "ref.fa" "nobody" "ctl"
                    "fastqs.txt" "exp" 1 "samples.txt" "calls.vcf" "out" None None w [])
             H2).
Defined.

(** C4, the claim as stated fails for [run_pipeline]: a run that returns has
    written its table to [exp/output/mutations.txt] and its VCF to
    [exp/output/mutations.vcf], names that do not end in [.variants.txt] and
    [.variants.vcf]. *)
Lemma C4_run_pipeline_writes_mutations_files :
  let run := launch (run_pipeline Lab.ext "ref.fa" "fastqs.txt" "ctl" "exp" 1 None)
               (Lab.disk true ["ref.repeats"]) [] in
  run.1 = Ok () ∧
  written_tables run.2 = ["exp/output/mutations.txt"] ∧
  written_vcfs run.2 = ["exp/output/mutations.vcf"] ∧
  endswith "exp/output/mutations.txt" ".variants.txt" = false ∧
  endswith "exp/output/mutations.vcf" ".variants.vcf" = false.
Proof. by vm_compute. Qed.

Lemma C4_output_file_names_witness :
  let w := Lab.disk true ["ref.repeats"] in
  let run := launch (call_variants Lab.ext "ref.fa" "ctl" "samples.txt" "calls.vcf"
                       "out" None None) w [] in
  let run' := launch (run_pipeline Lab.ext "ref.fa" "fastqs.txt" "ctl" "exp" 1 None)
                w [] in
  (run.1 = Ok () ∧
   written_tables run.2 = ["out" +:+ ".variants.txt"] ∧
   written_vcfs run.2 = ["out" +:+ ".variants.vcf"] ∧
   endswith ("out" +:+ ".variants.txt") ".variants.txt" = true ∧
   endswith ("out" +:+ ".variants.vcf") ".variants.vcf" = true) ∧
  (run'.1 = Ok () ∧
   written_tables run'.2 = [join "exp" ["output"; "mutations.txt"]] ∧
   written_vcfs run'.2 = [join "exp" ["output"; "mutations.vcf"]]).
Proof.
  intros w run run'.
  assert (run.1 = Ok ()) as H1 by (by vm_compute).
  assert (run'.1 = Ok ()) as H2 by (by vm_compute).
  split; (split; [assumption|]).
  - exact (proj1 (C4_output_file_names Lab.ext "ref.fa" "ctl" "fastqs.txt" "exp" 1
                    "samples.txt" "calls.vcf" "out" None None w []) H1).
  - exact (proj2 (C4_output_file_names Lab.ext "ref.fa" "ctl" "fastqs.txt" "exp" 1
                    "samples.txt" "calls.vcf" "out" None None w []) H2).
Defined.


Lemma C6_barrier_witness :
  let run := launch (run_pipeline Lab.ext "ref.fa" "fastqs.txt" "ctl" "exp" 2 None)
               (Lab.disk true ["ref.repeats"]) [1; 0; 1; 1; 0; 0; 1] in
  "VariantList" ∈ ev_name <$> run.2 ∧
  characterized_before_aggregation "ref.fa" None run.2.
Proof.
  intros run.
  assert ("VariantList" ∈ ev_name <$> run.2) as H by shown.
  split; [assumption|].
  exact (C6_barrier_before_aggregation Lab.ext "ref.fa" "ctl" "fastqs.txt" "exp" 2 None
           (Lab.disk true ["ref.repeats"]) [1; 0; 1; 1; 0; 0; 1] H).
Defined.



Lemma C9_sample_info_witness :
  let run := launch (run_pipeline Lab.ext "ref.fa" "fastqs.txt" "ctl" "exp" 1 None)
               (Lab.disk true ["ref.repeats"]) [] in
  run.1 = Ok () ∧ sample_info_written_last "exp" None run.2.
Proof.
  intros run.
  assert (run.1 = Ok ()) as H by (by vm_compute).
  split; [assumption|].
  exact (C9_sample_info_file_written_last Lab.ext "ref.fa" "ctl" "fastqs.txt" "exp" 1
           None (Lab.disk true ["ref.repeats"]) [] H).
Defined.


(** * Further properties of the two files *)

(** ** The worker tasks, call by call *)

Section Workers.

Context {D : Domain}.

Implicit Types (evs : list (event D)) (d : gmap string ifile).

Lemma item_inv {A} d key i (k : ifile → prog D A) evs r :
  run_of (item d key i ≫= k) evs r →
  match entry d key i with
  | Some a => run_of (k a) evs r
  | None => evs = [] ∧ ∃ e, r = Err e
  end.
Proof.
  unfold item, entry, dict_get, seq_get. destruct (d !! key) as [[s|l]|]; simpl.
  - destruct (String.get i s) as [c|]; simpl; [done|].
    intros H. apply run_of_inv in H as [-> ->]. eauto.
  - destruct (l !! i) as [x|]; simpl; [done|].
    intros H. apply run_of_inv in H as [-> ->]. eauto.
  - intros H. apply run_of_inv in H as [-> ->]. eauto.
Qed.

Lemma tracks_raised {A} e expected : tracks (D := D) (A := A) [] (Err e) expected.
Proof. split; [apply prefix_nil | done]. Qed.

Lemma tracks_step {A} c (k : ret c → prog D A) evs r expected :
  (∀ x evs', run_of (k x) evs' r → tracks evs' r expected) →
  run_of (callp c ≫= k) evs r → tracks evs r (Some c :: expected).
Proof.
  intros Hk H.
  apply (run_of_inv (Call c _)) in H as [(x & evs' & -> & H) | (e & -> & ->)].
  - apply Hk in H as [Hp Hok]. unfold tracks.
    change (calls (Ev c (Ok x) :: evs')) with (c :: calls evs'). rewrite fmap_cons.
    split; [by apply prefix_cons|]. intros Hr. by rewrite (Hok Hr).
  - split; [|done]. apply prefix_cons, prefix_nil.
Qed.

Lemma tracks_last c evs (r : result (ret c)) :
  run_of (callp c) evs r → tracks evs r [Some c].
Proof.
  intros H.
  apply (run_of_inv (Call c _)) in H as [(x & evs' & -> & H) | (e & -> & ->)].
  - by apply run_of_inv in H as [-> ->].
  - by split.
Qed.

Lemma tracks_app {A B} evs1 evs2 (r1 : result A) (r : result B) expected1 expected2 :
  is_ok r1 = true → tracks evs1 r1 expected1 → tracks evs2 r expected2 →
  tracks (evs1 ++ evs2) r (expected1 ++ expected2).
Proof.
  intros Hr1 [_ H1] [Hp Hok]. specialize (H1 Hr1).
  unfold tracks. rewrite calls_app, fmap_app, H1. split.
  - by apply prefix_app.
  - intros Hr. by rewrite (Hok Hr).
Qed.

Lemma tracks_more {A B} evs e (r : result A) expected1 expected2 :
  tracks evs r expected1 → tracks (A := B) evs (Err e) (expected1 ++ expected2).
Proof.
  intros [Hp _]. split; [|done]. etrans; [exact Hp|]. by apply prefix_app_r.
Qed.

Lemma for_tracks {A} (l : list A) (body : A → prog D unit)
    (expected : A → list (option (call D))) evs r :
  Forall (λ x, ∀ evs r, run_of (body x) evs r → tracks evs r (expected x)) l →
  run_of (for_ l body) evs r → tracks evs r (l ≫= expected).
Proof.
  intros Hall. revert evs. induction Hall as [|x l Hx _ IH]; intros evs H.
  - by apply run_of_inv in H as [-> ->].
  - simpl in H. apply run_of_bind in H as [(e & -> & H) | ([] & e1 & e2 & -> & H1 & H2)].
    + eapply tracks_more. by apply Hx.
    + eapply tracks_app; [|by apply Hx | by apply IH]. done.
Qed.

End Workers.

(** One statement of a worker task: a lookup in its dict, or a call. *)
Ltac track_item H :=
  apply item_inv in H;
  lazymatch type of H with
  | match entry ?d ?key ?i with _ => _ end =>
      first
        [ match goal with E : entry d key i = _ |- _ => rewrite E in H end
        | let E := fresh "E" in
          destruct (entry d key i) eqn:E;
          [| destruct H as [-> [? ->]]; apply tracks_raised] ]
  end.

Ltac track_call H :=
  simpl; revert H;
  first
    [ apply tracks_last
    | apply tracks_step; let x := fresh "x" in let evs := fresh "evs" in intros x evs H ].

Section WorkerSteps.

Context {D : Domain}.

Implicit Types (evs : list (event D)) (d : gmap string ifile).

Lemma sam_steps_tracks sample_name reference_assembly d i evs (r : result unit) :
  run_of (D := D)
    (a ← item d "_sams" i;
     b ← item d "_same_chr_sams" i;
     _ ← callp (remove_diff_chr_pairs a b);
     a ← item d "_same_chr_sams" i;
     b ← item d "_mapq_filtered_sams" i;
     _ ← callp (mapq_filter a b);
     a ← item d "_mapq_filtered_sams" i;
     b ← item d "_read_group_bams" i;
     _ ← callp (add_read_groups a b sample_name);
     a ← item d "_read_group_bams" i;
     b ← item d "_deduplicated_bams" i;
     c ← item d "_deduplication_metrics" i;
     _ ← callp (deduplicate a b c);
     a ← item d "_deduplicated_bams" i;
     b ← item d "_interval_files" i;
     _ ← callp (realigner_target_creator reference_assembly a b);
     l ← item d "realignment_logs" i;
     a ← item d "_deduplicated_bams" i;
     b ← item d "_interval_files" i;
     c ← item d "_realigned_bams" i;
     _ ← callp (indel_realigner reference_assembly l a b c);
     a ← item d "_realigned_bams" i;
     b ← item d "_fixed_mates_bams" i;
     callp (fix_mate_information a b)) evs r →
  tracks evs r (sam_steps sample_name reference_assembly d i).
Proof.
  intros H. unfold sam_steps.
  track_item H. track_item H. track_call H.
  track_item H. track_item H. track_call H.
  track_item H. track_item H. track_call H.
  track_item H. track_item H. track_item H. track_call H.
  track_item H. track_item H. track_call H.
  track_item H. track_item H. track_item H. track_item H. track_call H.
  track_item H. track_item H. track_call H.
  by apply run_of_inv in H as [-> ->].
Qed.

(** The calls of [process_sams], whatever the answers: the seven steps for
    each SAM file in turn, then the merge. *)
Lemma process_sams_tracks sample_name reference_assembly d evs r :
  run_of (D := D) (process_sams (sample_name, d, reference_assembly)) evs r →
  tracks evs r (sam_calls sample_name reference_assembly d).
Proof.
  unfold process_sams, sam_calls, dict_get. destruct (d !! "_sams") as [sams|]; simpl.
  2:{ intros H. apply run_of_inv in H as [-> ->]. apply tracks_raised. }
  intros H. apply run_of_bind in H as [(e & -> & H) | ([] & e1 & e2 & -> & H1 & H2)].
  - eapply tracks_more.
    eapply (for_tracks _ _ (sam_steps sample_name reference_assembly d)); [|exact H].
    apply Forall_forall. intros i _ evs' r'. apply sam_steps_tracks.
  - eapply tracks_app; [| |]; [|
      eapply (for_tracks _ _ (sam_steps sample_name reference_assembly d)); [|exact H1];
      apply Forall_forall; intros i _ evs' r'; apply sam_steps_tracks |]; [done|].
    destruct (d !! "_fixed_mates_bams") as [a|]; simpl in *.
    2:{ apply run_of_inv in H2 as [-> ->]. apply tracks_raised. }
    destruct (d !! "merged_bam") as [b|]; simpl in *.
    2:{ apply run_of_inv in H2 as [-> ->]. apply tracks_raised. }
    by apply (tracks_last (merge_bams a b)).
Qed.

End WorkerSteps.

(** One statement of straight-line code that returned: [a] names what it
    returned. *)
Tactic Notation "returned" hyp(H) "as" simple_intropattern(a) :=
  let e1 := fresh "evs" in let e2 := fresh "evs" in
  let H1 := fresh "H" in
  apply run_of_bind in H as [(? & [=] & _) | (a & e1 & e2 & -> & H1 & H)];
  lazymatch type of H1 with
  | run_of (dict_get _ _) _ _ => apply dict_get_inv in H1 as [-> H1]
  | run_of (callp ?c) _ _ => apply (callp_inv c) in H1 as ->
  | _ => idtac
  end.

Section WorkerTheorems.

Context {D : Domain}.

Implicit Types (evs : list (event D)) (d : gmap string ifile).

Lemma prefix_snoc_inv {A} (l k : list A) x :
  l `prefix_of` k ++ [x] → l = k ++ [x] ∨ l `prefix_of` k.
Proof.
  intros [m Hm]. destruct (decide (m = [])) as [->|Hne].
  - left. by rewrite app_nil_r in Hm.
  - right. destruct (exists_last Hne) as (m' & y & ->).
    rewrite app_assoc in Hm. apply app_inj_tail in Hm as [-> _]. by exists m'.
Qed.

Lemma sam_steps_no_merge sample_name reference_assembly d i :
  Forall (λ o, ∀ c : call D, o = Some c → callee c ≠ "samtools.merge_bams")
    (sam_steps sample_name reference_assembly d i).
Proof.
  unfold sam_steps.
  repeat match goal with
         | |- context [entry ?d ?k ?i] => destruct (entry d k i)
         end; simpl;
    repeat constructor; by intros c [= <-].
Qed.

(** X1.  The calls of [process_sams], whatever the answers: for each SAM file
    of the sample in turn the seven steps, each on the files of that position
    in the lists of the dict, and after the last file one [merge_bams] of all
    the mate-fixed BAMs into the merged BAM.  A run that stops early has made
    a beginning of these calls; a run that returned, or that reached
    [merge_bams], has made them all. *)
Theorem process_sams_in_order sample_name reference_assembly d evs r :
  run_of (D := D) (process_sams (sample_name, d, reference_assembly)) evs r →
  Some <$> calls evs `prefix_of` sam_calls sample_name reference_assembly d ∧
  (r = Ok () → Some <$> calls evs = sam_calls sample_name reference_assembly d) ∧
  ("samtools.merge_bams" ∈ ev_name <$> evs →
   Some <$> calls evs = sam_calls sample_name reference_assembly d).
Proof.
  intros H.
  assert (∀ x, Mapped x ∉ evs) as Hev by (intros x; by eapply run_of_not_mapped).
  apply process_sams_tracks in H as [Hp Hok].
  split; [done|]. split; [by intros ->; apply Hok|].
  intros (ev & Hname & Hin)%list_elem_of_fmap.
  unfold sam_calls in *.
  apply prefix_snoc_inv in Hp as [Hp|Hp]; [done|]. exfalso.
  destruct ev as [c answer|x]; [|by apply Hev in Hin]. simpl in Hname.
  assert (Some c ∈ Some <$> calls evs) as Hc.
  { apply list_elem_of_fmap. exists c. split; [done|].
    apply list_elem_of_omap. by exists (Ev c answer). }
  destruct Hp as [rest Hp]. 
  assert (Some c ∈ (Some <$> calls evs) ++ rest) as Hs by (apply elem_of_app; by left).
  rewrite <- Hp in Hs.
  apply list_elem_of_bind in Hs as (i & Hs & _).
  pose proof (sam_steps_no_merge sample_name reference_assembly d i) as Hno.
  eapply Forall_forall in Hno; [|exact Hs]. by apply (Hno c).
Qed.

(** X2.  A depth analysis task that returned found all six names in its dict
    and made five calls, in this order: the pileup, the strand bias fit on it,
    the depths, the depth fit on the pileup, and the filter, which got the
    mean and the standard deviation that the depth fit answered and the
    chromosome sizes the task was given.  It hands back its index with the
    standard deviation that the strand bias fit answered. *)
Theorem analyze_depth_distribution_flow index d reference_assembly
    (chrom_sizes : ChromSizes D) evs result :
  run_of (analyze_depth_distribution (index, d, reference_assembly, chrom_sizes))
    evs (Ok result) →
  ∃ bam mpileup bias bedgraph depths sites other mu sigma,
    d !! "merged_bam" = Some bam ∧ d !! "_mpileup_out" = Some mpileup ∧
    d !! "strand_bias_distribution" = Some bias ∧
    d !! "depth_bedgraph" = Some bedgraph ∧
    d !! "depth_distribution" = Some depths ∧
    d !! "filtered_sites" = Some sites ∧
    evs = [Ev (run_mpileup bam reference_assembly mpileup) (Ok ());
           Ev (calculate_bias_distribution_mpileup mpileup reference_assembly bias)
              (Ok (other, result.2));
           Ev (get_mpileup_depths bam reference_assembly bedgraph) (Ok ());
           Ev (calculate_depth_distribution_mpileup mpileup depths) (Ok (mu, sigma));
           Ev (filter_regions_by_depth_mpileup mpileup chrom_sizes mu sigma sites)
              (Ok ())] ∧
    result.1 = index.
Proof.
  unfold analyze_depth_distribution. intros H.
  returned H as bam. returned H as mpileup. returned H as [].
  returned H as mpileup2. returned H as bias.
  returned H as [other strand_bias_std].
  returned H as bam2. returned H as bedgraph. returned H as [].
  returned H as mpileup3. returned H as depths.
  returned H as [mu sigma].
  returned H as mpileup4. returned H as sites. returned H as [].
  apply run_of_inv in H as [-> [= ->]].
  assert (bam2 = bam) as -> by congruence.
  assert (mpileup2 = mpileup) as -> by congruence.
  assert (mpileup3 = mpileup) as -> by congruence.
  assert (mpileup4 = mpileup) as -> by congruence.
  by exists bam, mpileup, bias, bedgraph, depths, sites, other, mu, sigma.
Qed.

(** X3.  [characterize_repeat_indel_rates] makes one call,
    [fit_repeat_indel_rates] on the repeats it was given and the merged BAM
    and fits file of its dict, and ends as that call ends; when the dict lacks
    [merged_bam], or else [repeat_indel_fits], it raises [KeyError] for that
    key and calls nothing. *)
Theorem characterize_repeat_indel_rates_run d (repeats : Repeats D)
    repeat_indel_header evs r :
  run_of (characterize_repeat_indel_rates (d, repeats, repeat_indel_header)) evs r →
  match d !! "merged_bam", d !! "repeat_indel_fits" with
  | None, _ => evs = [] ∧ r = Err (KeyError "merged_bam")
  | Some _, None => evs = [] ∧ r = Err (KeyError "repeat_indel_fits")
  | Some bam, Some fits =>
      evs = [Ev (fit_repeat_indel_rates repeats bam fits repeat_indel_header) r]
  end.
Proof.
  unfold characterize_repeat_indel_rates, dict_get.
  destruct (d !! "merged_bam") as [bam|]; simpl.
  2:{ intros H. by apply run_of_inv in H. }
  destruct (d !! "repeat_indel_fits") as [fits|]; simpl.
  2:{ intros H. by apply run_of_inv in H. }
  intros H. apply (run_of_inv (Call _ _)) in H as [(x & evs' & -> & H) | (e & -> & ->)].
  - by apply run_of_inv in H as [-> ->].
  - done.
Qed.

(** *** The alignment loop on groups of any size *)

Lemma align_group_tracks reference_assembly p (sample : Sample D) i group evs r :
  run_of (align_group reference_assembly p sample i group) evs r →
  tracks evs r [aligned reference_assembly p sample i group].
Proof.
  unfold align_group, aligned, list_get.
  destruct group as [|f1 [|f2 [|f3 group]]]; simpl.
  - intros H. apply run_of_inv in H as [-> ->]. apply tracks_raised.
  - destruct (_sams sample !! i) as [sam|]; simpl.
    + apply (tracks_last (bowtie2_align _ _ _ _ _)).
    + intros H. apply run_of_inv in H as [-> ->]. apply tracks_raised.
  - destruct (_sams sample !! i) as [sam|]; simpl.
    + apply (tracks_last (bowtie2_align _ _ _ _ _)).
    + intros H. apply run_of_inv in H as [-> ->]. apply tracks_raised.
  - destruct (_sams sample !! i) as [sam|]; simpl.
    + apply (tracks_last (bowtie2_align _ _ _ _ _)).
    + intros H. apply run_of_inv in H as [-> ->]. apply tracks_raised.
Qed.

Lemma align_all_tracks reference_assembly p (samples : list (Sample D)) evs r :
  run_of (align_all reference_assembly p samples) evs r →
  tracks evs r
    (sample ← samples; '(i, group) ← enumerate (fastqs sample);
     [aligned reference_assembly p sample i group]).
Proof.
  intros H.
  apply (for_tracks _ _
           (λ sample, '(i, group) ← enumerate (fastqs sample);
                      [aligned reference_assembly p sample i group]))
    in H; [exact H|].
  apply Forall_forall. intros sample _ evs' r' H'.
  apply (for_tracks _ _ (λ '(i, group), [aligned reference_assembly p sample i group]))
    in H'; [exact H'|].
  apply Forall_forall. intros [i group] _ evs2 r2. apply align_group_tracks.
Qed.

(** X4.  When the alignment loop returned, every FASTQ group was non-empty
    and had its SAM file, and the loop made one [bowtie2.align] per group, in
    order, on the first file of the group: with the second file as mate when
    the group has exactly two files, with no mate otherwise (the files of a
    longer group after the first are not aligned). *)
Theorem align_all_returned reference_assembly p (samples : list (Sample D)) evs :
  run_of (align_all reference_assembly p samples) evs (Ok ()) →
  Some <$> calls evs
  = (sample ← samples; '(i, group) ← enumerate (fastqs sample);
     [aligned reference_assembly p sample i group]) ∧
  Forall (λ sample,
            Forall (λ group, group ≠ []) (fastqs sample) ∧
            (length (fastqs sample) ≤ length (_sams sample))%nat) samples.
Proof.
  intros H. apply align_all_tracks in H as [_ H]. specialize (H eq_refl).
  split; [done|].
  assert (∀ sample i group, sample ∈ samples → fastqs sample !! i = Some group →
            is_Some (aligned reference_assembly p sample i group)) as Hsome.
  { intros sample i group Hs Hg.
    assert (aligned reference_assembly p sample i group ∈ Some <$> calls evs) as Hin.
    { rewrite H. apply list_elem_of_bind. exists sample. split; [|done].
      apply list_elem_of_bind. exists (i, group). split; [by apply list_elem_of_here|].
      by apply (elem_of_lookup_imap_2 pair). }
    apply list_elem_of_fmap in Hin as (c & -> & _). by eexists. }
  apply Forall_forall. intros sample Hs. split.
  - apply Forall_lookup. intros i group Hg ->.
    by destruct (Hsome _ _ _ Hs Hg) as [c [=]].
  - destruct (decide (length (fastqs sample) ≤ length (_sams sample))%nat) as [|Hn]; [done|].
    exfalso. assert (length (_sams sample) < length (fastqs sample))%nat as Hlt by lia.
    destruct (lookup_lt_is_Some_2 _ _ Hlt) as [group Hg].
    destruct (Hsome _ _ _ Hs Hg) as [c Hc]. unfold aligned in Hc.
    rewrite (lookup_ge_None_2 (_sams sample) (length (_sams sample))) in Hc by lia.
    by destruct (head group).
Qed.

End WorkerTheorems.

(** ** A run of [run_pipeline] that returned, stage by stage *)

Section Stages.

Context {D : Domain}.
Variable ext : ∀ c : call D, World D → result (ret c) * World D.

Implicit Types (s : state D) (evs : list (event D)).

Lemma names_replicate name evs :
  Forall (named [name]) evs → ev_name <$> evs = replicate (length evs) name.
Proof.
  induction 1 as [|e evs He _ IH]; [done|].
  rewrite fmap_cons, IH. apply list_elem_of_singleton in He. by rewrite <- He.
Qed.

Lemma called_names {A} (c : A → call D) name (l : list A) evs :
  (∀ a, callee (c a) = name) →
  Forall2 (λ a e, ∃ x, e = Ev (c a) (Ok x)) l evs →
  ev_name <$> evs = replicate (length l) name.
Proof.
  intros Hc. induction 1 as [|a e l evs [x ->] _ IH]; [done|].
  rewrite fmap_cons, IH. simpl. by rewrite Hc.
Qed.

Lemma Pool_returned p s u s' : Pool (D := D) p s = (Ok u, s') → (1 ≤ p)%Z ∧ s' = s.
Proof.
  unfold Pool. destruct (Z.ltb_spec p 1); intros [= <- <-]. split; [lia | done].
Qed.

(** Up to the construction of the [VariantList], when all went well. *)
Lemma characterization_layout reference_assembly fastq_list control_name
    experiment_directory p s control_sample samples chrom_sizes s' :
  characterization ext reference_assembly fastq_list control_name
    experiment_directory p s = (Ok (control_sample, samples, chrom_sizes), s') →
  ∃ manifest prepared assigned repeats
    generated aligned names1 sams names2 depths names3 fitting fits,
    trace s' = trace s ++
      [Ev (check_reference_indices reference_assembly) (Ok true);
       Ev (generate_experiment_directory experiment_directory) (Ok ());
       Ev (read_samples_from_text fastq_list (Some experiment_directory)) (Ok manifest)]
      ++ generated ++ aligned ++ names1 ++ sams
      ++ [Mapped None;
          Ev (run_haplotype_caller (merged_bam <$> prepared) reference_assembly
                (join experiment_directory ["gatk_output"; "haplotype_caller_output.vcf"])
                (join experiment_directory ["logs"; "haplotype_caller.log"]) p) (Ok ());
          Ev (read_chrom_sizes reference_assembly) (Ok chrom_sizes)]
      ++ names2 ++ depths
      ++ [Mapped None;
          Ev (read_repeats (format1 ".repeats" (splitext reference_assembly).1))
             (Ok repeats)]
      ++ names3 ++ fitting ++ [Mapped None] ++ fits ∧
    control_sample = find_control manifest control_name ∧
    (1 ≤ p)%Z ∧
    Forall2 (λ x e, ∃ y, e = Ev (generate_intermediate_files x) (Ok y))
      manifest generated ∧
    Forall2 (λ x y, Ev (generate_intermediate_files x) (Ok y) ∈ generated)
      manifest prepared ∧
    run_of (align_all reference_assembly p prepared) aligned (Ok ()) ∧
    Forall2 (λ x e, ∃ y, e = Ev (get_intermediate_file_names x) (Ok y))
      prepared names1 ∧
    Forall (named sam_processing) sams ∧
    Forall (λ x, ∃ d, Ev (get_intermediate_file_names x) (Ok d) ∈ names1 ∧
                   completed_in sams (process_sams (sample_name x, d, reference_assembly)) ())
      prepared ∧
    Forall2 (λ x e, ∃ y, e = Ev (get_intermediate_file_names x) (Ok y))
      prepared names2 ∧
    Forall (named depth_analysis) depths ∧
    Forall2 (λ x y, ∃ std, y = set_strand_bias_std std x) prepared assigned ∧
    Forall2 (λ x e, ∃ y, e = Ev (get_intermediate_file_names x) (Ok y))
      assigned names3 ∧
    Forall (named repeat_fitting) fitting ∧
    Forall2 (λ x e, ∃ y, e = Ev (read_fits (repeat_indel_fits x)) (Ok y))
      assigned fits ∧
    Forall2 (λ x y, ∃ f, y = set_repeat_indel_fits_dict f x) assigned samples.
Proof.
  unfold characterization. intros H.
  forward H as indexed. forward H as u0.
  destruct indexed; simpl in E_u0.
  2:{ forward E_u0 as u. by apply raise_inv in E_u0 as [[=] _]. }
  apply ret_inv in E_u0 as [_ ->].
  apply bind_inv in H as [(u1 & s_pool & Hpool & H) | (e & _ & [=])].
  apply Pool_returned in Hpool as [Hp ->].
  forward H as u2. forward H as manifest.
  forward H as ss1. forward H as u3. forward H as names1. forward H as u4.
  forward H as u5. forward H as sizes. forward H as names2. forward H as values.
  forward H as ss2. forward H as repeats. forward H as names3. forward H as u6.
  forward H as ss3.
  apply ret_inv in H as [[= -> -> ->] ->].
  destruct u2, u3, u5.
  (* the loops of the main process *)
  apply (run_of_mapM_call generate_intermediate_files (λ _ x, x)) with (bs := ss1)
    in Hr_ss1 as [Hgen1 Hgen2]; [|done].
  apply (run_of_mapM_call get_intermediate_file_names (λ _ x, x)) with (bs := names1)
    in Hr_names1 as [Hn1 Hn1']; [|done].
  apply (run_of_mapM_call get_intermediate_file_names (λ _ x, x)) with (bs := names2)
    in Hr_names2 as [Hn2 Hn2']; [|done].
  apply (run_of_mapM_call get_intermediate_file_names (λ _ x, x)) with (bs := names3)
    in Hr_names3 as [Hn3 _]; [|done].
  apply (run_of_mapM_call (λ x, read_fits (repeat_indel_fits x))
           (λ x f, set_repeat_indel_fits_dict f x)) with (bs := ss3) in Hr_ss3
    as [Hfits1 Hfits2]; [|done].
  (* the values of the second pool, each with its index *)
  specialize (Hc_values _ eq_refl).
  pose proof (Forall2_length _ _ _ Hn2') as Hlen_names.
  pose proof (Forall2_length _ _ _ Hc_values) as Hlen_values.
  rewrite length_fmap, length_zip_with, length_seq, <- Hlen_names, Nat.min_id
    in Hlen_values.
  apply assign_by_index in Hr_ss2 as (-> & ss2' & [= <-] & Hlen2 & Hassign); [|done|].
  2:{ intros j value Hj.
      destruct (Forall2_lookup_r _ _ _ _ _ Hc_values Hj) as (args & Hargs & Hdone).
      rewrite list_lookup_fmap, lookup_zip_with in Hargs.
      destruct (seq 0 (length ss1) !! j) as [j'|] eqn:Hseq; [|done].
      apply lookup_seq in Hseq as [-> _]. simpl in Hargs.
      destruct (names2 !! j) as [names|]; [|done]. injection Hargs as <-.
      destruct Hdone as (tevs & Hrun & _).
      by apply analyze_depth_distribution_returns in Hrun as [-> _]. }
  exists manifest, ss1, ss2, repeats,
    evs_ss1, evs_u3, evs_names1, evs_u4, evs_names2, evs_values, evs_names3, evs_u6,
    evs_ss3.
  split. { chain. reflexivity. }
  split; [done|]. split; [done|]. split; [done|].
  split. { eapply Forall2_impl; [exact Hgen2|]. by intros x y (z & -> & Hin). }
  split; [done|]. split; [done|].
  split. { apply Hn_u4. intros a. apply process_sams_calls. }
  split.
  { apply Forall_lookup. intros i x Hi.
    destruct (Forall2_lookup_l _ _ _ _ _ Hn1' Hi) as (d & Hd & (y & -> & Hev)).
    exists y. split; [done|].
    specialize (Hc_u4 _ eq_refl).
    assert (((λ '(n, d), (n, d, reference_assembly)) <$> zip (sample_name <$> ss1) names1)
              !! i = Some (sample_name x, y, reference_assembly)) as Hargs.
    { by rewrite list_lookup_fmap, lookup_zip_with, list_lookup_fmap, Hi, Hd. }
    by destruct (Forall2_lookup_l _ _ _ _ _ Hc_u4 Hargs) as ([] & _ & Hdone). }
  split; [done|].
  split. { apply Hn_values. intros a. apply analyze_depth_distribution_calls. }
  split.
  { apply Forall2_same_length_lookup. split; [done|]. intros i x y Hx Hy.
    assert (i < length values) as Hlt.
    { rewrite <- Hlen_values. by eapply lookup_lt_Some. }
    destruct (lookup_lt_is_Some_2 _ _ Hlt) as [value Hvalue].
    specialize (Hassign _ _ Hvalue). rewrite Hx, Hy in Hassign.
    injection Hassign as ->. by eexists. }
  split; [done|].
  split. { apply Hn_u6. intros a. apply characterize_repeat_indel_rates_calls. }
  split; [done|].
  eapply Forall2_impl; [exact Hfits2|]. intros x y (f & -> & _). by eexists.
Qed.

(** From the construction of the [VariantList] on, when all went well. *)
Lemma aggregation_layout reference_assembly experiment_directory excluded_regions
    control_sample samples chrom_sizes s s' :
  aggregation ext reference_assembly experiment_directory excluded_regions
    (control_sample, samples, chrom_sizes) s = (Ok (), s') →
  ∃ variants clears cleared,
    trace s' = trace s ++
      [Ev (VariantList
             (join experiment_directory ["gatk_output"; "haplotype_caller_output.vcf"])
             samples excluded_regions
             (format1 ".repeats" (splitext reference_assembly).1)
             control_sample chrom_sizes) (Ok variants);
       Ev (write_output_table variants
             (join experiment_directory ["output"; "mutations.txt"])) (Ok ());
       Ev (write_output_vcf variants
             (join experiment_directory ["output"; "mutations.vcf"])) (Ok ())]
      ++ clears
      ++ [Ev (write_sample_info_file cleared
                (join experiment_directory ["sample_info.txt"])) (Ok ())] ∧
    Forall2 (λ x e, ∃ y, e = Ev (clear_temp_file_indices x) (Ok y)) samples clears ∧
    Forall2 (λ x y, Ev (clear_temp_file_indices x) (Ok y) ∈ clears) samples cleared.
Proof.
  unfold aggregation. intros H.
  forward H as variants. forward H as u1. forward H as u2. forward H as cleared.
  apply (call_inv _ (write_sample_info_file _ _)) in H as [Ht _].
  destruct u1, u2.
  apply (run_of_mapM_call clear_temp_file_indices (λ _ x, x)) with (bs := cleared)
    in Hr_cleared as [Hc1 Hc2]; [|done].
  exists variants, evs_cleared, cleared. split; [chain; reflexivity|]. split; [done|].
  eapply Forall2_impl; [exact Hc2|]. by intros x y (z & -> & Hin).
Qed.

End Stages.

(** ** [run_pipeline], beyond the claims *)

Ltac segments :=
  repeat first
    [ apply Forall_nil_2
    | apply Forall_app; split
    | apply Forall_cons; split ].

Section RunPipeline.

Context {D : Domain}.
Variable ext : ∀ c : call D, World D → result (ret c) * World D.

Variables reference_assembly fastq_list control_sample experiment_directory : string.
Variable p : Z.
Variable excluded_regions : option string.

Implicit Types (s : state D) (evs : list (event D)).

Lemma called_named {A} (c : A → call D) name (l : list A) evs :
  (∀ a, callee (c a) = name) →
  Forall2 (λ a e, ∃ x, e = Ev (c a) (Ok x)) l evs → Forall (named [name]) evs.
Proof.
  intros Hc. induction 1 as [|a e l evs [x ->] _ IH]; constructor; [|done].
  unfold named. simpl. rewrite Hc. apply list_elem_of_here.
Qed.

Lemma run_pipeline_returned w ps tr :
  launch (run_pipeline ext reference_assembly fastq_list control_sample
            experiment_directory p excluded_regions) w ps = (Ok (), tr) →
  ∃ control samples chrom_sizes s1 s',
    characterization ext reference_assembly fastq_list control_sample
      experiment_directory p (State w [] ps) = (Ok (control, samples, chrom_sizes), s1) ∧
    aggregation ext reference_assembly experiment_directory excluded_regions
      (control, samples, chrom_sizes) s1 = (Ok (), s') ∧
    tr = trace s'.
Proof.
  intros H. apply launch_inv in H as (s' & H & <-). rewrite run_pipeline_phases in H.
  apply bind_inv in H as [([[control samples] sizes] & s1 & Hc & Ha) | (e & _ & [=])].
  by exists control, samples, sizes, s1, s'.
Qed.

(** X5.  With [p] below 1 and the reference indexed, [run_pipeline] ends with
    [ValueError] from [Pool(p)] right after the check of the indices: no
    directory is generated and no manifest read. *)
Theorem run_pipeline_pool_size w ps :
  (p < 1)%Z →
  (ext (check_reference_indices reference_assembly) w).1 = Ok true →
  launch (run_pipeline ext reference_assembly fastq_list control_sample
            experiment_directory p excluded_regions) w ps
  = (Err ValueError, [Ev (check_reference_indices reference_assembly) (Ok true)]).
Proof.
  intros Hp Hcheck.
  unfold launch, run_pipeline, mbind, M_mbind, M_bind, call_. simpl.
  unfold perform. simpl.
  destruct (ext (check_reference_indices reference_assembly) w) as [r0 w0].
  simpl in Hcheck. subst r0. simpl. unfold Pool.
  by destruct (Z.ltb_spec p 1); [|lia].
Qed.

(** X6.  The calls of a run of [run_pipeline] that returned, by name: the
    check, the experiment directory, the manifest; then, for the [n] samples
    of the manifest, [n] times [generate_intermediate_files]; the alignments;
    the file names of the [n] samples, the SAM processing calls of the tasks
    and the return of [pool.map]; the haplotype caller and the chromosome
    sizes; file names, depth analysis calls, [pool.map]; [read_repeats]; file
    names, repeat fitting calls, [pool.map]; [n] times [read_fits]; the
    [VariantList], the table, the VCF; [n] times [clear_temp_file_indices];
    the sample info file. *)
Theorem run_pipeline_stage_order w ps :
  let run := launch (run_pipeline ext reference_assembly fastq_list control_sample
                       experiment_directory p excluded_regions) w ps in
  run.1 = Ok () →
  ∃ manifest k sams depths fitting,
    Ev (read_samples_from_text fastq_list (Some experiment_directory)) (Ok manifest)
      ∈ run.2 ∧
    ev_name <$> run.2 = stage_names (length manifest) k sams depths fitting ∧
    Forall (.∈ sam_processing) sams ∧
    Forall (.∈ depth_analysis) depths ∧
    Forall (.∈ repeat_fitting) fitting.
Proof.
  destruct (launch _ w ps) as [r tr] eqn:H. simpl. intros ->.
  apply run_pipeline_returned in H as (control & samples & sizes & s1 & s' & Hc & Ha & ->).
  apply characterization_layout in Hc
    as (manifest & prepared & assigned & repeats & generated & aligned & names1 & sams
        & names2 & depths & names3 & fitting & fits & Ht1 & _ & _ & Hgen & Hprep
        & Haligned & Hn1 & Hsams & _ & Hn2 & Hdepths & Hassigned & Hn3 & Hfitting
        & Hfits & Hsamples).
  apply aggregation_layout in Ha as (variants & clears & cleared & Ht2 & Hclears & _).
  exists manifest, (length aligned), (ev_name <$> sams), (ev_name <$> depths),
    (ev_name <$> fitting).
  rewrite Ht2, Ht1. split; [simpl; in_app|]. split.
  - pose proof (Forall2_length _ _ _ Hprep) as L1.
    pose proof (Forall2_length _ _ _ Hassigned) as L2.
    pose proof (Forall2_length _ _ _ Hsamples) as L3.
    repeat (rewrite fmap_app || rewrite fmap_cons || rewrite fmap_nil).
    rewrite (called_names generate_intermediate_files _ _ _ (λ _, eq_refl) Hgen).
    rewrite (names_replicate "bowtie2.align" aligned)
      by (eapply run_of_names; [apply align_all_calls | exact Haligned]).
    rewrite (called_names get_intermediate_file_names _ _ _ (λ _, eq_refl) Hn1).
    rewrite (called_names get_intermediate_file_names _ _ _ (λ _, eq_refl) Hn2).
    rewrite (called_names get_intermediate_file_names _ _ _ (λ _, eq_refl) Hn3).
    rewrite (called_names (λ x, read_fits (repeat_indel_fits x)) _ _ _ (λ _, eq_refl) Hfits).
    rewrite (called_names clear_temp_file_indices _ _ _ (λ _, eq_refl) Hclears).
    unfold stage_names. rewrite <- L3, <- L2, <- L1. simpl.
    repeat (rewrite <- app_assoc || rewrite <- app_comm_cons). reflexivity.
  - split; [|split]; apply Forall_fmap; (eapply Forall_impl; [eassumption|]); done.
Qed.

(** X7.  In a run of [run_pipeline] that returned, the haplotype caller is
    run once, with [nct = p], on the merged BAM of every sample of the
    manifest in the order of the manifest, after the SAM processing task of
    each sample ran to its end; no alignment and no SAM processing call comes
    after it; the VCF it is told to write is the VCF the [VariantList] is
    constructed from. *)
Theorem run_pipeline_caller_after_sam_processing w ps :
  let run := launch (run_pipeline ext reference_assembly fastq_list control_sample
                       experiment_directory p excluded_regions) w ps in
  run.1 = Ok () →
  caller_after_sam_processing reference_assembly fastq_list experiment_directory p run.2.
Proof.
  destruct (launch _ w ps) as [r tr] eqn:H. simpl. intros ->.
  apply run_pipeline_returned in H as (control & samples & sizes & s1 & s' & Hc & Ha & ->).
  apply characterization_layout in Hc
    as (manifest & prepared & assigned & repeats & generated & aligned & names1 & sams
        & names2 & depths & names3 & fitting & fits & Ht1 & _ & _ & Hgen & Hprep
        & Haligned & Hn1 & Hsams & Hdone & Hn2 & Hdepths & Hassigned & Hn3 & Hfitting
        & Hfits & Hsamples).
  apply aggregation_layout in Ha as (variants & clears & cleared & Ht2 & Hclears & _).
  apply (called_named get_intermediate_file_names _ _ _ (λ _, eq_refl)) in Hn1, Hn2, Hn3.
  apply (called_named generate_intermediate_files _ _ _ (λ _, eq_refl)) in Hgen.
  assert (Forall (named ["bowtie2.align"]) aligned) as Halign
    by (eapply run_of_names; [apply align_all_calls | exact Haligned]).
  apply (called_named (λ x, read_fits (repeat_indel_fits x)) _ _ _ (λ _, eq_refl)) in Hfits.
  apply (called_named clear_temp_file_indices _ _ _ (λ _, eq_refl)) in Hclears.
  exists ([Ev (check_reference_indices reference_assembly) (Ok true);
           Ev (generate_experiment_directory experiment_directory) (Ok ());
           Ev (read_samples_from_text fastq_list (Some experiment_directory))
              (Ok manifest)]
          ++ generated ++ aligned ++ names1 ++ sams ++ [Mapped None]),
    manifest, prepared.
  eexists (Ev (read_chrom_sizes reference_assembly) (Ok sizes)
           :: names2 ++ depths
           ++ [Mapped None;
               Ev (read_repeats (format1 ".repeats" (splitext reference_assembly).1))
                  (Ok repeats)]
           ++ names3 ++ fitting ++ [Mapped None] ++ fits ++ _).
  exists samples, excluded_regions, (format1 ".repeats" (splitext reference_assembly).1),
    control, sizes, (Ok variants).
  split.
  { rewrite Ht2, Ht1. simpl.
    repeat (rewrite <- app_assoc || rewrite <- app_comm_cons). reflexivity. }
  split.
  { segments;
      try (eapply Forall_impl; [eassumption|]; disjoint_names);
      intros Hbad; unlisted Hbad. }
  split; [in_app|].
  split. { eapply Forall2_impl; [exact Hprep|]. intros x y Hin. simpl. in_app. }
  split.
  { eapply Forall_impl; [exact Hdone|]. intros x (d & Hd & Hrun). exists d. split.
    - simpl. in_app.
    - eapply completed_in_mono; [|exact Hrun]. simpl. sub_app. }
  split; [|simpl; in_app].
  segments;
    try (eapply Forall_impl; [eassumption|]; disjoint_names);
    intros Hbad; unlisted Hbad.
Qed.

(** X8.  In a run of [run_pipeline] that returned, the [VariantList] is
    constructed on as many samples as the manifest lists, in the order of the
    manifest, each as [generate_intermediate_files] left it with
    [strand_bias_std] and [repeat_indel_fits_dict] assigned; the control is
    the first sample of the manifest that bears the control's name; the
    sample info file is written from these samples as
    [clear_temp_file_indices] left them. *)
Theorem run_pipeline_carries_manifest_through w ps :
  let run := launch (run_pipeline ext reference_assembly fastq_list control_sample
                       experiment_directory p excluded_regions) w ps in
  run.1 = Ok () →
  manifest_carried_through fastq_list experiment_directory control_sample run.2.
Proof.
  destruct (launch _ w ps) as [r tr] eqn:H. simpl. intros ->.
  apply run_pipeline_returned in H as (control & samples & sizes & s1 & s' & Hc & Ha & ->).
  apply characterization_layout in Hc
    as (manifest & prepared & assigned & repeats & generated & aligned & names1 & sams
        & names2 & depths & names3 & fitting & fits & Ht1 & -> & _ & Hgen & Hprep
        & Haligned & Hn1 & Hsams & Hdone & Hn2 & Hdepths & Hassigned & Hn3 & Hfitting
        & Hfits & Hsamples).
  apply aggregation_layout in Ha as (variants & clears & cleared & Ht2 & _ & Hcleared).
  exists manifest, samples. do 4 eexists. exists (Ok variants), cleared. eexists.
  rewrite Ht2, Ht1. simpl.
  split; [in_app|]. split; [in_app|]. split; [in_app|]. split.
  - apply Forall2_same_length_lookup. split.
    { rewrite (Forall2_length _ _ _ Hprep), (Forall2_length _ _ _ Hassigned).
      apply (Forall2_length _ _ _ Hsamples). }
    intros i x y Hx Hy.
    destruct (Forall2_lookup_l _ _ _ _ _ Hprep Hx) as (x1 & Hx1 & Hev).
    destruct (Forall2_lookup_l _ _ _ _ _ Hassigned Hx1) as (x2 & Hx2 & std & ->).
    destruct (Forall2_lookup_l _ _ _ _ _ Hsamples Hx2) as (x3 & Hx3 & f & ->).
    assert (y = set_repeat_indel_fits_dict f (set_strand_bias_std std x1)) as ->
      by congruence.
    exists x1, std, f. split; [in_app | done].
  - eapply Forall2_impl; [exact Hcleared|]. intros y z Hin. in_app.
Qed.

End RunPipeline.

(** ** What holds of every event of a run *)

Section Throughout.

Context {D : Domain}.
Variable ext : ∀ c : call D, World D → result (ret c) * World D.

Implicit Types (s : state D) (evs : list (event D)) (P : event D → Prop).

Lemma throughout_bind {A B} P (m : M D A) (f : A → M D B) :
  throughout P m → (∀ a, throughout P (f a)) → throughout P (m ≫= f).
Proof.
  intros Hm Hf s r s' H.
  apply bind_inv in H as [(a & s1 & H1 & H2) | (e & H1 & ->)].
  - apply Hm in H1 as (evs1 & Ht1 & Hx1). apply Hf in H2 as (evs2 & Ht2 & Hx2).
    exists (evs1 ++ evs2). split; [by rewrite Ht2, Ht1, app_assoc|].
    by apply Forall_app.
  - apply Hm in H1 as (evs1 & Ht1 & Hx1). by exists evs1.
Qed.

Lemma throughout_call P c : (∀ r, P (Ev c r)) → throughout P (call_ ext c).
Proof.
  intros Hc s r s' H. apply (call_inv _ c) in H as [Ht _].
  exists [Ev c r]. split; [done|]. by repeat constructor.
Qed.

Lemma throughout_confined {A} P names (m : M D A) :
  confined names m → (∀ e, named names e → P e) → throughout P m.
Proof.
  intros Hm HP s r s' H. apply Hm in H as (evs & Ht & Hn & _).
  exists evs. split; [done|]. eapply Forall_impl; [exact Hn | exact HP].
Qed.

Lemma throughout_global {A} P globals name (m : M D A) :
  throughout P m → throughout P (global globals name m).
Proof.
  intros Hm. unfold global. case_bool_decide; [done|].
  intros s r s' [= <- <-]. exists []. by rewrite app_nil_r.
Qed.

Lemma loop_callees_no_path (e : event D) :
  named loop_callees e → pipeline_paths e = [] ∧ repeat_files e = [].
Proof.
  intros He. unfold named in He. destruct e as [c r|x]; [|done].
  destruct c; simpl; try done; unlisted He.
Qed.

End Throughout.

(** One statement of an entry point: a call is looked at by [by_call], the
    loops and the pools go by the names they call. *)
Ltac throughout_step by_call :=
  lazymatch goal with
  | |- throughout _ (call_ _ ?c) => apply (throughout_call _ _ c); intros ?; by_call
  | |- throughout _ (if ?b then _ else _) => destruct b
  | |- throughout _ (global _ _ _) => apply throughout_global
  | |- throughout _ (_ ≫= _) => apply throughout_bind; [|intros ?]
  | |- throughout _ _ =>
      apply (throughout_confined _ loop_callees);
      [ solve_confined
      | let e := fresh "e" in let He := fresh "He" in
        intros e He; apply loop_callees_no_path in He as [He1 He2];
        rewrite ?He1, ?He2; constructor ]
  end.

(** ** File names *)

Section FileNames.

Lemma append_assoc (a b c : string) : (a +:+ b) +:+ c = a +:+ (b +:+ c).
Proof.
  induction a as [|x a IH]; [done|].
  change (String x ((a +:+ b) +:+ c) = String x (a +:+ (b +:+ c))). by rewrite IH.
Qed.

Lemma append_empty (a : string) : a +:+ "" = a.
Proof.
  induction a as [|x a IH]; [done|].
  change (String x (a +:+ "") = String x a). by rewrite IH.
Qed.

Lemma prefix_append (a t : string) : String.prefix a (a +:+ t) = true.
Proof.
  induction a as [|x a IH]; [by destruct t|].
  change (String.prefix (String x a) (String x (a +:+ t)) = true). simpl.
  by destruct (Ascii.ascii_dec x x).
Qed.

Lemma prefix_refl (a : string) : String.prefix a a = true.
Proof.
  induction a as [|x a IH]; simpl; [done|]. by destruct (Ascii.ascii_dec x x).
Qed.

Lemma join_step_append path b :
  startswith "/" b = false → ∃ t, join_step path b = path +:+ t.
Proof.
  intros Hb. unfold join_step. rewrite Hb.
  destruct (String.eqb path "" || endswith path "/"); eauto.
Qed.

(** [os.path.join] stays under its first argument as long as no later
    component is absolute. *)
Lemma join_prefix a parts :
  Forall (λ b, startswith "/" b = false) parts →
  String.prefix a (join a parts) = true.
Proof.
  intros Hparts. unfold join.
  assert (∀ path, (∃ t, path = a +:+ t) → ∃ t, foldl join_step path parts = a +:+ t)
    as Hfold.
  { induction Hparts as [|b parts Hb _ IH]; intros path [t ->]; simpl; [eauto|].
    apply IH. destruct (join_step_append (a +:+ t) b Hb) as [t' ->].
    exists (t +:+ t'). apply append_assoc. }
  destruct (Hfold a) as [t ->].
  - exists "". by rewrite append_empty.
  - apply prefix_append.
Qed.

End FileNames.

Section Paths.

Context {D : Domain}.
Variable ext : ∀ c : call D, World D → result (ret c) * World D.

(** X10.  In every run of [run_pipeline], also one that raises, the paths it
    builds by itself (the directory it generates, the VCF and the log of the
    haplotype caller, the VCF of the [VariantList], the table, the output VCF
    and the sample info file) all begin with the experiment directory. *)
Theorem run_pipeline_writes_inside reference_assembly fastq_list control_sample
    experiment_directory p excluded_regions w ps :
  Forall (λ e, Forall (λ f, String.prefix experiment_directory f = true)
                 (pipeline_paths e))
    (launch (run_pipeline ext reference_assembly fastq_list control_sample
               experiment_directory p excluded_regions) w ps).2.
Proof.
  destruct (launch _ w ps) as [r tr] eqn:H. simpl.
  apply launch_inv in H as (s' & H & <-).
  assert (throughout
            (λ e, Forall (λ f, String.prefix experiment_directory f = true)
                    (pipeline_paths e))
            (run_pipeline ext reference_assembly fastq_list control_sample
               experiment_directory p excluded_regions)) as Hin.
  { unfold run_pipeline.
    repeat throughout_step
      ltac:(simpl; repeat constructor;
            first [apply prefix_refl | apply join_prefix; by repeat constructor]). }
  by apply Hin in H as (evs & -> & Hall).
Qed.

End Paths.

(** ** The name of the repeat file *)

Section Extension.





End Extension.

Section RepeatFile.

Context {D : Domain}.
Variable ext : ∀ c : call D, World D → result (ret c) * World D.


End RepeatFile.

(** ** Further properties of the entry points *)

(** Where an event of a trace given as a concatenation lies. *)
Ltac locate H :=
  repeat first
    [ apply elem_of_app in H as [H|H]
    | apply elem_of_cons in H as [H|H]
    | apply elem_of_nil in H as [] ].

Section EntryPointTheorems.

Context {D : Domain}.
Variable ext : ∀ c : call D, World D → result (ret c) * World D.

Variables reference_assembly control_sample : string.

Implicit Types (s : state D) (evs : list (event D)).

(** X15.  The control sample both entry points pick is the first sample of
    the list that bears the control's name, and [None] exactly when no sample
    bears it. *)
Theorem find_control_first_match (samples : list (Sample D)) name :
  match find_control samples name with
  | Some i =>
      (∃ sample, samples !! i = Some sample ∧ sample_name sample = name) ∧
      ∀ j sample, (j < i)%nat → samples !! j = Some sample → sample_name sample ≠ name
  | None => name ∉ sample_name <$> samples
  end.
Proof.
  unfold find_control.
  destruct (list_find (λ x, sample_name x = name) samples) as [[i x]|] eqn:Hfind; simpl.
  - apply list_find_Some in Hfind as (Hi & Hx & Hfirst). split; [by exists x|].
    intros j sample Hj Hs. by apply (Hfirst j).
  - apply list_find_None in Hfind. intros (x & Hx & Hin)%list_elem_of_fmap.
    eapply Forall_forall in Hfind; [|exact Hin]. by apply Hfind.
Qed.

(** X11.  [run_pipeline] never creates the indices of the reference (it only
    checks them) and never reads chromosome sizes from a file (it always
    derives them from the reference). *)
Theorem run_pipeline_only_checks_the_reference fastq_list experiment_directory p
    excluded_regions w ps :
  Forall (λ e, ¬ named ["reference.create_reference_indices";
                        "reference.read_chrom_sizes_from_file"] e)
    (launch (run_pipeline ext reference_assembly fastq_list control_sample
               experiment_directory p excluded_regions) w ps).2.
Proof.
  destruct (launch _ w ps) as [r tr] eqn:H. simpl.
  apply launch_inv in H as (s' & H & <-).
  apply run_pipeline_confined in H as (evs & -> & Hn & _). simpl.
  eapply Forall_impl; [exact Hn|]. disjoint_names.
Qed.

(** X12.  [call_variants] starts no pool and runs none of the tools of the
    pipeline: no alignment, no SAM processing, no haplotype caller, no depth
    analysis, no repeat fitting; it generates no directory and no intermediate
    file, reads neither the repeat file nor a fits file, and writes no sample
    info file. *)
Theorem call_variants_runs_no_tool sample_list input_vcf output_header chrom_sizes
    excluded_regions w ps :
  Forall (λ e, ¬ named (["pool.map"; "bowtie2.align"; "gatk.run_haplotype_caller";
                         "generate_experiment_directory";
                         "Sample.generate_intermediate_files";
                         "Sample.get_intermediate_file_names"; "read_repeats";
                         "read_fits"; "Sample.clear_temp_file_indices";
                         "write_sample_info_file"] ++ worker_calls) e)
    (launch (call_variants ext reference_assembly control_sample sample_list
               input_vcf output_header chrom_sizes excluded_regions) w ps).2.
Proof.
  destruct (launch _ w ps) as [r tr] eqn:H. simpl.
  apply launch_inv in H as (s' & H & <-).
  apply call_variants_confined in H as (evs & -> & Hn & _). simpl.
  eapply Forall_impl; [exact Hn|]. disjoint_names.
Qed.

(** X13.  When [call_variants] comes to construct the [VariantList], it has
    made four calls before: it read the manifest, created the indices of the
    reference, found the repeat file on disk and read the chromosome sizes.
    The [VariantList] is constructed on the samples exactly as the manifest
    gave them, with the first sample of the control's name as control, the
    sizes just read, and the input VCF and excluded regions it was given;
    after it only the two outputs are written. *)
Theorem call_variants_passes_manifest_on sample_list input_vcf output_header chrom_sizes
    excluded_regions w ps :
  let run := launch (call_variants ext reference_assembly control_sample sample_list
                       input_vcf output_header chrom_sizes excluded_regions) w ps in
  "VariantList" ∈ ev_name <$> run.2 →
  manifest_passed_on reference_assembly control_sample sample_list input_vcf
    excluded_regions run.2.
Proof.
  destruct (launch _ w ps) as [r tr] eqn:H. simpl.
  apply launch_inv in H as (s' & H & <-). rewrite call_variants_phases in H.
  apply bind_inv in H as [([[control samples] sizes] & s1 & Hc & Ha) | (e & Hc & ->)].
  - intros _. apply preparation_inv in Hc as [-> (read_sizes & Ht & Hsizes)].
    apply reporting_inv in Ha as (rv & post & Hta & Hpost & _).
    exists samples, read_sizes, sizes, rv, post. rewrite Hta, Ht. simpl.
    split; [done|]. split; [|done].
    destruct (truthy chrom_sizes); subst read_sizes; eauto.
  - apply preparation_confined in Hc as (before & -> & Hn & _). simpl.
    intros (ev & Hname & Hin)%list_elem_of_fmap.
    eapply Forall_forall in Hn; [|exact Hin]. unfold named in Hn.
    rewrite <- Hname in Hn. unlisted Hn.
Qed.

(** X14.  When [os.path.exists] answers that the repeat file is not there,
    [call_variants] ends with [NameError] for [create_repeat_file], having
    made three calls: the manifest, the indices, the look for the file. *)
Theorem call_variants_stops_without_repeat_file sample_list input_vcf output_header
    chrom_sizes excluded_regions w ps :
  let run := launch (call_variants ext reference_assembly control_sample sample_list
                       input_vcf output_header chrom_sizes excluded_regions) w ps in
  false ∈ omap exists_answer run.2 →
  run.1 = Err (NameError "create_repeat_file") ∧
  ev_name <$> run.2
  = ["read_samples_from_text"; "reference.create_reference_indices"; "os.path.exists"].
Proof.
  destruct (launch _ w ps) as [r tr] eqn:H. simpl.
  apply launch_inv in H as (s' & H & <-).
  unfold call_variants in H.
  forward H as manifest.
  2:{ rewrite Ht_manifest. simpl. by intros ?%elem_of_nil. }
  forward H as u0.
  2:{ rewrite Ht_u0, Ht_manifest. simpl. by intros ?%elem_of_nil. }
  forward H as present.
  2:{ rewrite Ht_present, Ht_u0, Ht_manifest. simpl. by intros ?%elem_of_nil. }
  destruct present.
  - rest_confined ["reference.read_chrom_sizes_from_file"; "reference.read_chrom_sizes";
                   "VariantList"; "VariantList.write_output_table";
                   "VariantList.write_output_vcf"] H.
    rewrite Ht, Ht_present, Ht_u0, Ht_manifest. simpl.
    intros [Hin|Hin]%elem_of_cons; [done|].
    apply list_elem_of_omap in Hin as (ev & Hin & Hev).
    eapply Forall_forall in Hn; [|exact Hin].
    destruct ev as [c r0|x]; [|done]. destruct c; try done; unlisted Hn.
  - intros _. forward H as u1; simpl in E_u1; unfold global in E_u1;
      (case_bool_decide as Hglobal; [unlisted Hglobal|]);
      apply raise_inv in E_u1 as [[=] ->].
    subst. split; [done|]. by rewrite Ht_present, Ht_u0, Ht_manifest.
Qed.

(** X9.  When the trace of [run_pipeline] shows [write_sample_info_file]
    returned, the run returned: the sample info file is written by no run that
    raised. *)
Theorem run_pipeline_sample_info_marks_completion fastq_list experiment_directory p
    excluded_regions w ps :
  let run := launch (run_pipeline ext reference_assembly fastq_list control_sample
                       experiment_directory p excluded_regions) w ps in
  "write_sample_info_file" ∈ returned_calls run.2 →
  run.1 = Ok ().
Proof.
  destruct (launch _ w ps) as [r tr] eqn:H. simpl.
  apply launch_inv in H as (s' & H & <-). rewrite run_pipeline_phases in H.
  intros (ev & Hin & Hret)%list_elem_of_omap.
  assert (ev_name ev = "write_sample_info_file" ∧ ev_raised ev = None) as [Hname Hok].
  { unfold returned_call in Hret. destruct ev as [c r0|x]; [|done].
    destruct (ev_raised (Ev c r0)); [done|]. by injection Hret as <-. }
  assert (∀ names evs, Forall (named names) evs → ev ∈ evs →
            "write_sample_info_file" ∈ names) as Hnamed.
  { intros names evs Hn Hev. eapply Forall_forall in Hn; [|exact Hev].
    unfold named in Hn. by rewrite Hname in Hn. }
  apply bind_inv in H as [([[control samples] sizes] & s1 & Hc & Ha) | (e & Hc & ->)].
  2:{ apply characterization_confined in Hc as (before & Ht & Hn & _).
      rewrite Ht in Hin. simpl in Hin. specialize (Hnamed _ _ Hn Hin). unlisted Hnamed. }
  apply characterization_confined in Hc as (before & Ht & Hn & _).
  pose proof (Hnamed _ _ Hn) as Hbefore.
  unfold aggregation in Ha.
  forward Ha as variants; [forward Ha as u1; [forward Ha as u2; [forward Ha as cleared|]|]|].
  - apply (call_inv _ (write_sample_info_file _ _)) in Ha as [Hlast _].
    rewrite Hlast, Ht_cleared, Ht_u2, Ht_u1, Ht_variants, Ht in Hin. simpl in Hin.
    assert (Forall (named ["Sample.clear_temp_file_indices"]) evs_cleared) as Hclears.
    { eapply run_of_names; [|exact Hr_cleared].
      apply calls_only_mapM. intros x. split; [listed | done]. }
    locate Hin; subst; try discriminate Hname.
    + specialize (Hbefore Hin). unlisted Hbefore.
    + specialize (Hnamed _ _ Hclears Hin). unlisted Hnamed.
    + simpl in Hok. destruct r as [[]|e]; [done | discriminate Hok].
  - rewrite Ht_cleared, Ht_u2, Ht_u1, Ht_variants, Ht in Hin. simpl in Hin.
    assert (Forall (named ["Sample.clear_temp_file_indices"]) evs_cleared) as Hclears.
    { eapply run_of_names; [|exact Hr_cleared].
      apply calls_only_mapM. intros x. split; [listed | done]. }
    locate Hin; subst; try discriminate Hname.
    + specialize (Hbefore Hin). unlisted Hbefore.
    + specialize (Hnamed _ _ Hclears Hin). unlisted Hnamed.
  - rewrite Ht_u2, Ht_u1, Ht_variants, Ht in Hin. simpl in Hin.
    locate Hin; subst; try discriminate Hname.
    specialize (Hbefore Hin). unlisted Hbefore.
  - rewrite Ht_u1, Ht_variants, Ht in Hin. simpl in Hin.
    locate Hin; subst; try discriminate Hname.
    specialize (Hbefore Hin). unlisted Hbefore.
  - rewrite Ht_variants, Ht in Hin. simpl in Hin.
    locate Hin; subst; try discriminate Hname.
    specialize (Hbefore Hin). unlisted Hbefore.
Qed.

(** X17.  When the trace of [call_variants] shows [write_output_vcf] returned,
    the run returned: the output VCF is written by no run that raised. *)
Theorem call_variants_vcf_marks_completion sample_list input_vcf output_header
    chrom_sizes excluded_regions w ps :
  let run := launch (call_variants ext reference_assembly control_sample sample_list
                       input_vcf output_header chrom_sizes excluded_regions) w ps in
  "VariantList.write_output_vcf" ∈ returned_calls run.2 →
  run.1 = Ok ().
Proof.
  destruct (launch _ w ps) as [r tr] eqn:H. simpl.
  apply launch_inv in H as (s' & H & <-). rewrite call_variants_phases in H.
  intros (ev & Hin & Hret)%list_elem_of_omap.
  assert (ev_name ev = "VariantList.write_output_vcf" ∧ ev_raised ev = None) as [Hname Hok].
  { unfold returned_call in Hret. destruct ev as [c r0|x]; [|done].
    destruct (ev_raised (Ev c r0)); [done|]. by injection Hret as <-. }
  assert (∀ names evs, Forall (named names) evs → ev ∈ evs →
            "VariantList.write_output_vcf" ∈ names) as Hnamed.
  { intros names evs Hn Hev. eapply Forall_forall in Hn; [|exact Hev].
    unfold named in Hn. by rewrite Hname in Hn. }
  apply bind_inv in H as [([[control samples] sizes] & s1 & Hc & Ha) | (e & Hc & ->)].
  2:{ apply preparation_confined in Hc as (before & Ht & Hn & _).
      rewrite Ht in Hin. simpl in Hin. specialize (Hnamed _ _ Hn Hin). unlisted Hnamed. }
  apply preparation_confined in Hc as (before & Ht & Hn & _).
  pose proof (Hnamed _ _ Hn) as Hbefore.
  unfold reporting in Ha.
  forward Ha as variants; [forward Ha as u1|].
  - apply (call_inv _ (write_output_vcf _ _)) in Ha as [Hlast _].
    rewrite Hlast, Ht_u1, Ht_variants, Ht in Hin. simpl in Hin.
    locate Hin; subst; try discriminate Hname.
    + specialize (Hbefore Hin). unlisted Hbefore.
    + simpl in Hok. destruct r as [[]|e]; [done | discriminate Hok].
  - rewrite Ht_u1, Ht_variants, Ht in Hin. simpl in Hin.
    locate Hin; subst; try discriminate Hname.
    specialize (Hbefore Hin). unlisted Hbefore.
  - rewrite Ht_variants, Ht in Hin. simpl in Hin.
    locate Hin; subst; try discriminate Hname.
    specialize (Hbefore Hin). unlisted Hbefore.
Qed.

End EntryPointTheorems.

(** ** How a run ends *)

Section Endings.

Context {D : Domain}.
Variable ext : ∀ c : call D, World D → result (ret c) * World D.

Implicit Types (s : state D) (evs : list (event D)).

Lemma pool_map_nil {A B} (f : A → prog D B) args s :
  args = [] →
  pool_map ext f args s
  = (Ok [], {| world := world s; trace := trace s ++ [Mapped None]; picks := picks s |}).
Proof. intros ->. unfold pool_map. simpl. by destruct (picks s). Qed.

Lemma raised_last evs c e :
  ¬ Forall (λ ev : event D, ev_raised ev = None) (evs ++ [Ev c (Err e)]).
Proof. intros [_ H]%Forall_app. by apply Forall_cons in H as [[=] _]. Qed.

(** X18.  An empty manifest is not turned down: when the manifest read lists
    no sample and no call raises, [run_pipeline] returns, having gone through
    every stage on no sample (each [pool.map] on no task) and constructed the
    [VariantList] with no control. *)
Theorem run_pipeline_empty_manifest reference_assembly fastq_list control_sample
    experiment_directory p excluded_regions w ps :
  let run := launch (run_pipeline ext reference_assembly fastq_list control_sample
                       experiment_directory p excluded_regions) w ps in
  manifests_read run.2 = [[]] →
  Forall (λ e, ev_raised e = None) run.2 →
  run.1 = Ok () ∧
  ev_name <$> run.2
  = ["reference.check_reference_indices"; "generate_experiment_directory";
     "read_samples_from_text"; "pool.map"; "gatk.run_haplotype_caller";
     "reference.read_chrom_sizes"; "pool.map"; "read_repeats"; "pool.map";
     "VariantList"; "VariantList.write_output_table"; "VariantList.write_output_vcf";
     "write_sample_info_file"] ∧
  controls_passed run.2 = [None].
Proof.
  destruct (launch _ w ps) as [r tr] eqn:H. simpl.
  apply launch_inv in H as (s' & H & <-). intros Hread Hclean.
  unfold run_pipeline in H.
  forward H as indexed.
  2:{ rewrite Ht_indexed in Hclean. by apply raised_last in Hclean. }
  forward H as u0.
  2:{ destruct indexed; simpl in E_u0; [by apply ret_inv in E_u0 as [[=] _]|].
      forward E_u0 as u.
      - apply raise_inv in E_u0 as [_ ->]. rewrite Ht_u, Ht_indexed in Hread. done.
      - rewrite Ht_u in Hclean. by apply raised_last in Hclean. }
  destruct indexed; simpl in E_u0.
  2:{ forward E_u0 as u. by apply raise_inv in E_u0 as [[=] _]. }
  apply ret_inv in E_u0 as [_ ->].
  forward H as u1.
  2:{ rewrite Ht_indexed in Hread. done. }
  forward H as u2.
  2:{ rewrite Ht_u2 in Hclean. by apply raised_last in Hclean. }
  forward H as manifest.
  2:{ rewrite Ht_manifest in Hclean. by apply raised_last in Hclean. }
  assert (manifest = []) as ->.
  { pose proof H as H'. rest_confined run_pipeline_callees H'.
    rewrite Ht, Ht_manifest, Ht_u2, Ht_indexed in Hread. simpl in Hread.
    by injection Hread. }
  forward H as ss1; apply run_of_inv in Hr_ss1 as [-> [=]]. subst ss1.
  forward H as u3; apply run_of_inv in Hr_u3 as [-> [=]].
  forward H as names1; apply run_of_inv in Hr_names1 as [-> [=]]. subst names1.
  rewrite app_nil_r in Ht_ss1, Ht_u3, Ht_names1.
  apply bind_inv in H as [(u4 & s_pool1 & Hpool1 & H) | (e & Hpool1 & _)];
    erewrite pool_map_nil in Hpool1 by reflexivity;
    [injection Hpool1 as <- <- | discriminate Hpool1].
  forward H as u5.
  2:{ rewrite Ht_u5 in Hclean. by apply raised_last in Hclean. }
  forward H as sizes.
  2:{ rewrite Ht_sizes in Hclean. by apply raised_last in Hclean. }
  forward H as names2; apply run_of_inv in Hr_names2 as [-> [=]]. subst names2.
  rewrite app_nil_r in Ht_names2.
  apply bind_inv in H as [(values & s_pool2 & Hpool2 & H) | (e & Hpool2 & _)];
    erewrite pool_map_nil in Hpool2 by reflexivity;
    [injection Hpool2 as <- <- | discriminate Hpool2].
  forward H as ss2; apply run_of_inv in Hr_ss2 as [-> [=]]. subst ss2.
  rewrite app_nil_r in Ht_ss2.
  forward H as repeats.
  2:{ rewrite Ht_repeats in Hclean. by apply raised_last in Hclean. }
  forward H as names3; apply run_of_inv in Hr_names3 as [-> [=]]. subst names3.
  rewrite app_nil_r in Ht_names3.
  apply bind_inv in H as [(u6 & s_pool3 & Hpool3 & H) | (e & Hpool3 & _)];
    erewrite pool_map_nil in Hpool3 by reflexivity;
    [injection Hpool3 as <- <- | discriminate Hpool3].
  forward H as ss3; apply run_of_inv in Hr_ss3 as [-> [=]]. subst ss3.
  rewrite app_nil_r in Ht_ss3.
  forward H as variants.
  2:{ rewrite Ht_variants in Hclean. by apply raised_last in Hclean. }
  forward H as u7.
  2:{ rewrite Ht_u7 in Hclean. by apply raised_last in Hclean. }
  forward H as u8.
  2:{ rewrite Ht_u8 in Hclean. by apply raised_last in Hclean. }
  forward H as cleared; apply run_of_inv in Hr_cleared as [-> [=]]. subst cleared.
  rewrite app_nil_r in Ht_cleared.
  apply (call_inv _ (write_sample_info_file _ _)) in H as [Hlast _].
  destruct r as [[]|e].
  2:{ rewrite Hlast in Hclean. by apply raised_last in Hclean. }
  split; [done|].
  rewrite Hlast, Ht_cleared, Ht_u8, Ht_u7, Ht_variants, Ht_ss3. simpl.
  rewrite Ht_names3, Ht_repeats, Ht_ss2. simpl.
  rewrite Ht_names2, Ht_sizes, Ht_u5. simpl.
  rewrite Ht_names1, Ht_u3, Ht_ss1, Ht_manifest, Ht_u2, Ht_indexed. simpl.
  done.
Qed.





End Endings.

(** ** The further properties in the small world *)

Lemma process_sams_in_order_witness :
  let sample :=
    Lab.with_sams [{| name := "ctl.0.sam" |}] (Lab.new_sample ("ctl", [["ctl.fq"]])) in
  let d := Lab.file_names sample in
  let evs : list (event Lab.lab) :=
    [Ev (remove_diff_chr_pairs (Path "ctl.0.sam") (Path "ctl.0.same_chr.sam")) (Ok ());
     Ev (mapq_filter (Path "ctl.0.same_chr.sam") (Path "ctl.0.mapq.sam")) (Ok ());
     Ev (add_read_groups (Path "ctl.0.mapq.sam") (Path "ctl.0.rg.bam") "ctl") (Ok ());
     Ev (deduplicate (Path "ctl.0.rg.bam") (Path "ctl.0.dedup.bam")
           (Path "ctl.0.dedup.txt")) (Ok ());
     Ev (realigner_target_creator "ref.fa" (Path "ctl.0.dedup.bam")
           (Path "ctl.0.intervals")) (Ok ());
     Ev (indel_realigner "ref.fa" (Path "ctl.0.realign.log") (Path "ctl.0.dedup.bam")
           (Path "ctl.0.intervals") (Path "ctl.0.realigned.bam")) (Ok ());
     Ev (fix_mate_information (Path "ctl.0.realigned.bam") (Path "ctl.0.fixed.bam"))
        (Ok ());
     Ev (merge_bams (Paths ["ctl.0.fixed.bam"]) (Path "ctl.bam")) (Ok ())] in
  run_of (process_sams ("ctl", d, "ref.fa")) evs (Ok ()) ∧
  Some <$> calls evs = sam_calls "ctl" "ref.fa" d.
Proof.
  intros sample d evs.
  assert (run_of (process_sams ("ctl", d, "ref.fa")) evs (Ok ())) as H.
  { vm_compute. repeat (constructor; vm_compute). }
  split; [assumption|].
  exact (proj1 (proj2 (process_sams_in_order "ctl" "ref.fa" d evs (Ok ()) H)) eq_refl).
Defined.

Lemma analyze_depth_distribution_flow_witness :
  let d := Lab.file_names (Lab.new_sample ("ctl", [["ctl.fq"]])) in
  let evs : list (event Lab.lab) :=
    [Ev (run_mpileup (Path "ctl.bam") "ref.fa" (Path "ctl.mpileup")) (Ok ());
     Ev (D := Lab.lab)
        (calculate_bias_distribution_mpileup (Path "ctl.mpileup") "ref.fa"
           (Path "ctl.bias")) (Ok (0%Z, 11%Z));
     Ev (get_mpileup_depths (Path "ctl.bam") "ref.fa" (Path "ctl.bedgraph")) (Ok ());
     Ev (D := Lab.lab)
        (calculate_depth_distribution_mpileup (Path "ctl.mpileup") (Path "ctl.depth"))
        (Ok (30%Z, 5%Z));
     Ev (D := Lab.lab)
        (filter_regions_by_depth_mpileup (D := Lab.lab) (Path "ctl.mpileup") Lab.chromosomes 30%Z 5%Z
           (Path "ctl.sites")) (Ok ())] in
  run_of (analyze_depth_distribution (D := Lab.lab) (3%nat, d, "ref.fa", Lab.chromosomes)) evs
    (Ok (3%nat, 11%Z)) ∧
  ∃ bam mpileup bias bedgraph depths sites other mu sigma,
    d !! "merged_bam" = Some bam ∧ d !! "_mpileup_out" = Some mpileup ∧
    d !! "strand_bias_distribution" = Some bias ∧
    d !! "depth_bedgraph" = Some bedgraph ∧
    d !! "depth_distribution" = Some depths ∧
    d !! "filtered_sites" = Some sites ∧
    evs = [Ev (run_mpileup bam "ref.fa" mpileup) (Ok ());
           Ev (D := Lab.lab) (calculate_bias_distribution_mpileup mpileup "ref.fa" bias)
              (Ok (other, 11%Z));
           Ev (get_mpileup_depths bam "ref.fa" bedgraph) (Ok ());
           Ev (D := Lab.lab) (calculate_depth_distribution_mpileup mpileup depths) (Ok (mu, sigma));
           Ev (filter_regions_by_depth_mpileup (D := Lab.lab) mpileup Lab.chromosomes mu sigma sites)
              (Ok ())] ∧
    3%nat = 3%nat.
Proof.
  intros d evs.
  assert (run_of (analyze_depth_distribution (D := Lab.lab) (3%nat, d, "ref.fa", Lab.chromosomes)) evs
            (Ok (3%nat, 11%Z))) as H.
  { vm_compute. repeat (constructor; vm_compute). }
  split; [assumption|].
  exact (analyze_depth_distribution_flow (D := Lab.lab) 3%nat d "ref.fa" Lab.chromosomes evs
           (3%nat, 11%Z) H).
Defined.

Lemma characterize_repeat_indel_rates_run_witness :
  let d := Lab.file_names (Lab.new_sample ("ctl", [["ctl.fq"]])) in
  let evs : list (event Lab.lab) :=
    [Ev (D := Lab.lab)
        (fit_repeat_indel_rates (D := Lab.lab) "repeats of ref.repeats" (Path "ctl.bam")
           (Path "ctl.fits") "ctl") (Ok ())] in
  run_of (characterize_repeat_indel_rates (D := Lab.lab) (d, "repeats of ref.repeats", "ctl")) evs (Ok ()) ∧
  match d !! "merged_bam", d !! "repeat_indel_fits" with
  | None, _ => evs = [] ∧ Ok () = Err (KeyError "merged_bam")
  | Some _, None => evs = [] ∧ Ok () = Err (KeyError "repeat_indel_fits")
  | Some bam, Some fits =>
      evs = [Ev (fit_repeat_indel_rates (D := Lab.lab) "repeats of ref.repeats" bam fits "ctl") (Ok ())]
  end.
Proof.
  intros d evs.
  assert (run_of (characterize_repeat_indel_rates (D := Lab.lab) (d, "repeats of ref.repeats", "ctl"))
            evs (Ok ())) as H.
  { vm_compute. repeat (constructor; vm_compute). }
  split; [assumption|].
  exact (characterize_repeat_indel_rates_run (D := Lab.lab) d "repeats of ref.repeats" "ctl" evs
           (Ok ()) H).
Defined.

(** A group of three files is aligned single-end on its first file. *)
Lemma align_all_returned_witness :
  let samples : list (Sample Lab.lab) :=
    [Lab.with_sams [{| name := "trio.0.sam" |}]
       (Lab.new_sample ("trio", [["trio_1.fq"; "trio_2.fq"; "trio_3.fq"]]))] in
  let evs : list (event Lab.lab) :=
    [Ev (bowtie2_align "trio_1.fq" "ref.fa" "trio.0.sam" None 1) (Ok ())] in
  run_of (align_all "ref.fa" 1 samples) evs (Ok ()) ∧
  Some <$> calls evs
  = (sample ← samples; '(i, group) ← enumerate (fastqs sample);
     [aligned "ref.fa" 1 sample i group]) ∧
  Forall (λ sample,
            Forall (λ group, group ≠ []) (fastqs sample) ∧
            (length (fastqs sample) ≤ length (_sams sample))%nat) samples.
Proof.
  intros samples evs.
  assert (run_of (align_all "ref.fa" 1 samples) evs (Ok ())) as H.
  { vm_compute. repeat (constructor; vm_compute). }
  split; [assumption|].
  exact (align_all_returned "ref.fa" 1 samples evs H).
Defined.

Lemma run_pipeline_pool_size_witness :
  let w := Lab.disk true ["ref.repeats"] in
  (0 < 1)%Z ∧
  (Lab.ext (check_reference_indices "ref.fa") w).1 = Ok true ∧
  launch (run_pipeline Lab.ext "ref.fa" "fastqs.txt" "ctl" "exp" 0 None) w []
  = (Err ValueError, [Ev (check_reference_indices "ref.fa") (Ok true)]).
Proof.
  intros w. split; [lia|]. split; [reflexivity|].
  apply (run_pipeline_pool_size Lab.ext "ref.fa" "fastqs.txt" "ctl" "exp" 0 None w []);
    [lia | reflexivity].
Defined.

Lemma run_pipeline_stage_order_witness :
  let run := launch (run_pipeline Lab.ext "ref.fa" "fastqs.txt" "ctl" "exp" 2 None)
               (Lab.disk true ["ref.repeats"]) [1; 0; 1; 1; 0; 0; 1] in
  run.1 = Ok () ∧
  ∃ manifest k sams depths fitting,
    Ev (read_samples_from_text "fastqs.txt" (Some "exp")) (Ok manifest) ∈ run.2 ∧
    ev_name <$> run.2 = stage_names (length manifest) k sams depths fitting ∧
    Forall (.∈ sam_processing) sams ∧
    Forall (.∈ depth_analysis) depths ∧
    Forall (.∈ repeat_fitting) fitting.
Proof.
  intros run.
  assert (run.1 = Ok ()) as H by (by vm_compute).
  split; [assumption|].
  exact (run_pipeline_stage_order Lab.ext "ref.fa" "fastqs.txt" "ctl" "exp" 2 None
           (Lab.disk true ["ref.repeats"]) [1; 0; 1; 1; 0; 0; 1] H).
Defined.

Lemma run_pipeline_caller_after_sam_processing_witness :
  let run := launch (run_pipeline Lab.ext "ref.fa" "fastqs.txt" "ctl" "exp" 2 None)
               (Lab.disk true ["ref.repeats"]) [1; 0; 1; 1; 0; 0; 1] in
  run.1 = Ok () ∧ caller_after_sam_processing "ref.fa" "fastqs.txt" "exp" 2 run.2.
Proof.
  intros run.
  assert (run.1 = Ok ()) as H by (by vm_compute).
  split; [assumption|].
  exact (run_pipeline_caller_after_sam_processing Lab.ext "ref.fa" "fastqs.txt" "ctl"
           "exp" 2 None (Lab.disk true ["ref.repeats"]) [1; 0; 1; 1; 0; 0; 1] H).
Defined.

Lemma run_pipeline_carries_manifest_through_witness :
  let run := launch (run_pipeline Lab.ext "ref.fa" "fastqs.txt" "ctl" "exp" 1 None)
               (Lab.disk true ["ref.repeats"]) [] in
  run.1 = Ok () ∧ manifest_carried_through "fastqs.txt" "exp" "ctl" run.2.
Proof.
  intros run.
  assert (run.1 = Ok ()) as H by (by vm_compute).
  split; [assumption|].
  exact (run_pipeline_carries_manifest_through Lab.ext "ref.fa" "fastqs.txt" "ctl"
           "exp" 1 None (Lab.disk true ["ref.repeats"]) [] H).
Defined.

Lemma run_pipeline_sample_info_marks_completion_witness :
  let run := launch (run_pipeline Lab.ext "ref.fa" "fastqs.txt" "ctl" "exp" 1 None)
               (Lab.disk true ["ref.repeats"]) [] in
  "write_sample_info_file" ∈ returned_calls run.2 ∧ run.1 = Ok ().
Proof.
  intros run.
  assert ("write_sample_info_file" ∈ returned_calls run.2) as H by shown.
  split; [assumption|].
  exact (run_pipeline_sample_info_marks_completion Lab.ext "ref.fa" "ctl" "fastqs.txt"
           "exp" 1 None (Lab.disk true ["ref.repeats"]) [] H).
Defined.

Lemma call_variants_passes_manifest_on_witness :
  let run := launch (call_variants Lab.ext "ref.fa" "line7" "samples.txt" "calls.vcf"
                       "out" None None) (Lab.disk true ["ref.repeats"]) [] in
  "VariantList" ∈ ev_name <$> run.2 ∧
  manifest_passed_on "ref.fa" "line7" "samples.txt" "calls.vcf" None run.2.
Proof.
  intros run.
  assert ("VariantList" ∈ ev_name <$> run.2) as H by shown.
  split; [assumption|].
  exact (call_variants_passes_manifest_on Lab.ext "ref.fa" "line7" "samples.txt"
           "calls.vcf" "out" None None (Lab.disk true ["ref.repeats"]) [] H).
Defined.

Lemma call_variants_stops_without_repeat_file_witness :
  let run := launch (call_variants Lab.ext "ref.fa" "ctl" "samples.txt" "calls.vcf"
                       "out" None None) (Lab.disk true []) [] in
  false ∈ omap exists_answer run.2 ∧
  run.1 = Err (NameError "create_repeat_file") ∧
  ev_name <$> run.2
  = ["read_samples_from_text"; "reference.create_reference_indices"; "os.path.exists"].
Proof.
  intros run.
  assert (false ∈ omap exists_answer run.2) as H by shown.
  split; [assumption|].
  exact (call_variants_stops_without_repeat_file Lab.ext "ref.fa" "ctl" "samples.txt"
           "calls.vcf" "out" None None (Lab.disk true []) [] H).
Defined.

Lemma call_variants_vcf_marks_completion_witness :
  let run := launch (call_variants Lab.ext "ref.fa" "ctl" "samples.txt" "calls.vcf"
                       "out" None None) (Lab.disk true ["ref.repeats"]) [] in
  "VariantList.write_output_vcf" ∈ returned_calls run.2 ∧ run.1 = Ok ().
Proof.
  intros run.
  assert ("VariantList.write_output_vcf" ∈ returned_calls run.2) as H by shown.
  split; [assumption|].
  exact (call_variants_vcf_marks_completion Lab.ext "ref.fa" "ctl" "samples.txt"
           "calls.vcf" "out" None None (Lab.disk true ["ref.repeats"]) [] H).
Defined.

Lemma run_pipeline_empty_manifest_witness :
  let w := {| Lab.indexed := true; Lab.files := ["ref.repeats"]; Lab.manifest := [];
              Lab.malformed := []; Lab.stderr := [] |} in
  let run := launch (run_pipeline Lab.ext "ref.fa" "fastqs.txt" "ctl" "exp" 1 None) w [] in
  manifests_read run.2 = [[]] ∧
  Forall (λ e, ev_raised e = None) run.2 ∧
  run.1 = Ok () ∧
  ev_name <$> run.2
  = ["reference.check_reference_indices"; "generate_experiment_directory";
     "read_samples_from_text"; "pool.map"; "gatk.run_haplotype_caller";
     "reference.read_chrom_sizes"; "pool.map"; "read_repeats"; "pool.map";
     "VariantList"; "VariantList.write_output_table"; "VariantList.write_output_vcf";
     "write_sample_info_file"] ∧
  controls_passed run.2 = [None].
Proof.
  intros w run.
  assert (manifests_read run.2 = [[]]) as H1 by (by vm_compute).
  assert (Forall (λ e, ev_raised e = None) run.2) as H2.
  { vm_compute. repeat constructor. }
  split; [assumption|]. split; [assumption|].
  exact (run_pipeline_empty_manifest Lab.ext "ref.fa" "fastqs.txt" "ctl" "exp" 1 None
           w [] H1 H2).
Defined.

